(** * Kattis plagiarism report: a shallow embedding of [clean.py] and
    [get_file.py]

    The two scripts are straight-line programs over scraped HTML.  The HTML
    library is not modelled: a table row is represented by the values that the
    DOM queries of the source return on it (attribute values, element texts,
    presence of a marked descendant), with [None] for a query that finds
    nothing.  Everything the scripts compute from those values (string
    clean-up, timestamp parsing, set and dictionary updates, loop control,
    exceptions) is modelled as written.

    The operating system is represented by the answers it gives, passed as
    arguments: what [os.listdir] returns or raises, what [shutil.rmtree]
    does, what [os.path.isdir] says.  A [ConfigParser] is represented by the
    tables it has read; its lookups are modelled with the folding of option
    names, the defaults and the interpolation of values.

    Strings are byte strings; Python's notions of whitespace, digit and
    letter case are modelled on the ASCII range. *)

From Stdlib Require Import Ascii String NArith List Lia.
From stdpp Require Import gmap strings list fin_maps sorting.

Local Open Scope N_scope.

(** ** Python string primitives *)

Module Py.

(** [str.isspace] on one character, ASCII range: TAB..CR, FS..US, space. *)
Definition isspace (c : ascii) : bool :=
  let n := N_of_ascii c in
  ((9 <=? n) && (n <=? 13)) || ((28 <=? n) && (n <=? 32)).

Definition isdigit (c : ascii) : bool :=
  let n := N_of_ascii c in (48 <=? n) && (n <=? 57).

Fixpoint lstrip (s : string) : string :=
  match s with
  | String c s' => if isspace c then lstrip s' else s
  | EmptyString => EmptyString
  end.

Fixpoint rstrip (s : string) : string :=
  match s with
  | String c s' =>
      match rstrip s' with
      | EmptyString => if isspace c then EmptyString else String c EmptyString
      | t => String c t
      end
  | EmptyString => EmptyString
  end.

(** [s.strip()] *)
Definition strip (s : string) : string := rstrip (lstrip s).

(** [s.split()]: maximal runs of non-whitespace characters. [tok] holds the
    characters of the token being read, most recent first. *)
Fixpoint split_go (tok : list ascii) (s : string) : list string :=
  let flush := match tok with
               | [] => []
               | _ => [string_of_list_ascii (rev tok)]
               end in
  match s with
  | EmptyString => flush
  | String c s' =>
      if isspace c then flush ++ split_go [] s' else split_go (c :: tok) s'
  end.

Definition split (s : string) : list string := split_go [] s.

(** [s.split(sep)] for a one-character separator: never the empty list. *)
Fixpoint split_on (sep : ascii) (s : string) : list string :=
  match s with
  | EmptyString => [EmptyString]
  | String c s' =>
      if Ascii.eqb c sep then EmptyString :: split_on sep s'
      else match split_on sep s' with
           | h :: t => String c h :: t
           | [] => [String c EmptyString]
           end
  end.

(** [sep.join(l)] *)
Fixpoint join (sep : string) (l : list string) : string :=
  match l with
  | [] => EmptyString
  | [x] => x
  | x :: l' => x +:+ sep +:+ join sep l'
  end.

(** [l[1:-1]] *)
Definition slice_1_m1 {A} (l : list A) : list A :=
  match l with
  | [] => []
  | _ :: l' => removelast l'
  end.

(** [l[i]] for a possibly negative index; [None] is [IndexError]. *)
Definition index {A} (l : list A) (i : Z) : option A :=
  if (0 <=? i)%Z then nth_error l (Z.to_nat i)
  else if (Z.of_nat (length l) + i <? 0)%Z then None
       else nth_error l (Z.to_nat (Z.of_nat (length l) + i)).

(** [l[-1]] *)
Definition last_item {A} (l : list A) : option A := index l (-1).

(** [int(s)] on a string of ASCII digits, most significant first. *)
Fixpoint int_go (acc : N) (s : string) : N :=
  match s with
  | EmptyString => acc
  | String c s' =>
      int_go (if isdigit c then 10 * acc + (N_of_ascii c - 48) else acc) s'
  end.

Definition int (s : string) : N := int_go 0 s.

(** [sorted(l)] on strings: code-point (here byte) lexicographic order. *)
Definition sorted (l : list string) : list string := merge_sort String.le l.

(** [posixpath.join(a, *p)] *)
Definition startswith_slash (s : string) : bool :=
  match s with String "/" _ => true | _ => false end.

Fixpoint endswith_slash (s : string) : bool :=
  match s with
  | EmptyString => false
  | String c EmptyString => Ascii.eqb c "/"
  | String _ s' => endswith_slash s'
  end.

Definition path_join (a : string) (p : list string) : string :=
  fold_left
    (fun path b =>
       if startswith_slash b then b
       else if String.eqb path EmptyString || endswith_slash path
            then path +:+ b
            else path +:+ "/" +:+ b)
    p a.

End Py.

(** ** [datetime] values and [datetime.strptime]

    Only what the scripts use: naive datetimes at second resolution, their
    ordering, [replace(year=, month=, day=)], and [strptime] for formats made
    of the directives [%Y %m %d %H %M %S], literal characters and whitespace.
    [strptime] follows CPython's [_strptime]: the format is turned into a
    regular expression (one group of ordered alternatives per directive, [\s+]
    for a run of whitespace), the expression is matched at the start of the
    text with the usual leftmost-alternative-first backtracking, and the text
    must be consumed entirely by that first match.  Every failure is a
    [ValueError], modelled as [None]. *)

Record date := mkdate { d_year : N; d_month : N; d_day : N }.

Record datetime := mkdt {
  year : N; month : N; day : N; hour : N; minute : N; second : N
}.

Module Datetime.

Definition fields (t : datetime) : list N :=
  [year t; month t; day t; hour t; minute t; second t].

(** Lexicographic comparison of the field tuples. *)
Fixpoint lex_compare (a b : list N) : comparison :=
  match a, b with
  | x :: a', y :: b' =>
      match x ?= y with Eq => lex_compare a' b' | c => c end
  | [], [] => Eq
  | [], _ :: _ => Lt
  | _ :: _, [] => Gt
  end.

Definition compare (a b : datetime) : comparison :=
  lex_compare (fields a) (fields b).

(** [a < b] and [a > b] *)
Definition ltb (a b : datetime) : bool :=
  match compare a b with Lt => true | _ => false end.
Definition gtb (a b : datetime) : bool := ltb b a.

(** [t.replace(year=today.year, month=today.month, day=today.day)] *)
Definition replace_date (t : datetime) (today : date) : datetime :=
  mkdt (d_year today) (d_month today) (d_day today)
       (hour t) (minute t) (second t).

Definition is_leap (y : N) : bool :=
  (y mod 4 =? 0) && (negb (y mod 100 =? 0) || (y mod 400 =? 0)).

Definition days_in_month (y m : N) : N :=
  match m with
  | 2 => if is_leap y then 29 else 28
  | 4 | 6 | 9 | 11 => 30
  | _ => 31
  end.

(** The checks of the [datetime] constructor. *)
Definition valid (t : datetime) : bool :=
  (1 <=? year t) && (year t <=? 9999) &&
  (1 <=? month t) && (month t <=? 12) &&
  (1 <=? day t) && (day t <=? days_in_month (year t) (month t)) &&
  (hour t <=? 23) && (minute t <=? 59) && (second t <=? 59).

Inductive directive := dir_Y | dir_m | dir_d | dir_H | dir_M | dir_S.

Inductive item :=
| Field (d : directive)
| Lit (c : ascii)
| Spaces.

Definition directive_of (c : ascii) : option directive :=
  match c with
  | "Y" => Some dir_Y | "m" => Some dir_m | "d" => Some dir_d
  | "H" => Some dir_H | "M" => Some dir_M | "S" => Some dir_S
  | _ => None
  end%char.

(** [TimeRE.pattern]: [after_ws] tells that the previous character of the
    format was whitespace, so that a run yields a single [\s+]. *)
Fixpoint compile (after_ws : bool) (fmt : string) : option (list item) :=
  match fmt with
  | EmptyString => Some []
  | String "%" (String c fmt') =>
      d ← directive_of c; its ← compile false fmt'; Some (Field d :: its)
  | String "%" EmptyString => None
  | String c fmt' =>
      if Py.isspace c
      then its ← compile true fmt';
           Some (if after_ws then its else Spaces :: its)
      else its ← compile false fmt'; Some (Lit c :: its)
  end.

Definition between (lo hi : ascii) (c : ascii) : bool :=
  (N_of_ascii lo <=? N_of_ascii c) && (N_of_ascii c <=? N_of_ascii hi).

Definition digit : ascii → bool := between "0" "9".

(** The alternatives of each directive's group, in the order of the
    regular expression; an alternative is a sequence of character classes. *)
Definition alternatives (d : directive) : list (list (ascii → bool)) :=
  match d with
  | dir_Y => [[digit; digit; digit; digit]]
  | dir_m => [[between "1" "1"; between "0" "2"];
              [between "0" "0"; between "1" "9"];
              [between "1" "9"]]
  | dir_d => [[between "3" "3"; between "0" "1"];
              [between "1" "2"; digit];
              [between "0" "0"; between "1" "9"];
              [between "1" "9"];
              [between " " " "; between "1" "9"]]
  | dir_H => [[between "2" "2"; between "0" "3"];
              [between "0" "1"; digit];
              [digit]]
  | dir_M => [[between "0" "5"; digit];
              [digit]]
  | dir_S => [[between "6" "6"; between "0" "1"];
              [between "0" "5"; digit];
              [digit]]
  end.

(** Match a sequence of classes at the start of [s]: the matched text and
    the rest. *)
Fixpoint match_classes (cls : list (ascii → bool)) (s : string)
  : option (string * string) :=
  match cls, s with
  | [], _ => Some (EmptyString, s)
  | p :: cls', String c s' =>
      if p c
      then '(m, r) ← match_classes cls' s'; Some (String c m, r)
      else None
  | _ :: _, EmptyString => None
  end.

Definition match_field (d : directive) (s : string) : list (string * string) :=
  omap (fun alt => match_classes alt s) (alternatives d).

(** [\s+], greedy: the possible rests, longest match first. *)
Fixpoint spaces_rests (s : string) : list string :=
  match s with
  | String c s' => if Py.isspace c then spaces_rests s' ++ [s'] else []
  | EmptyString => []
  end.

(** The expression is compiled with [re.IGNORECASE]. *)
Definition lower (c : ascii) : ascii :=
  if between "A" "Z" c then ascii_of_N (N_of_ascii c + 32) else c.

Definition eqb_nocase (a b : ascii) : bool := Ascii.eqb (lower a) (lower b).

(** All matches of the compiled format at the start of [s], in the order in
    which a backtracking matcher finds them: the captured groups and the
    unconsumed rest. *)
Fixpoint match_items (its : list item) (s : string)
  : list (list (directive * string) * string) :=
  match its with
  | [] => [([], s)]
  | Field d :: its' =>
      flat_map (fun '(m, r) =>
                  map (fun '(caps, r') => ((d, m) :: caps, r'))
                      (match_items its' r))
               (match_field d s)
  | Lit c :: its' =>
      match s with
      | String c' s' => if eqb_nocase c c' then match_items its' s' else []
      | EmptyString => []
      end
  | Spaces :: its' => flat_map (match_items its') (spaces_rests s)
  end.

(** Defaults of [_strptime]: 1900-01-01 00:00:00. *)
Definition epoch : datetime := mkdt 1900 1 1 0 0 0.

Definition set_field (t : datetime) (cap : directive * string) : datetime :=
  let v := Py.int (snd cap) in
  match fst cap with
  | dir_Y => mkdt v (month t) (day t) (hour t) (minute t) (second t)
  | dir_m => mkdt (year t) v (day t) (hour t) (minute t) (second t)
  | dir_d => mkdt (year t) (month t) v (hour t) (minute t) (second t)
  | dir_H => mkdt (year t) (month t) (day t) v (minute t) (second t)
  | dir_M => mkdt (year t) (month t) (day t) (hour t) v (second t)
  | dir_S => mkdt (year t) (month t) (day t) (hour t) (minute t) v
  end.

(** [datetime.strptime(s, fmt)]; [None] is [ValueError]. *)
Definition strptime (s fmt : string) : option datetime :=
  its ← compile false fmt;
  match match_items its s with
  | (caps, EmptyString) :: _ =>
      let t := fold_left set_field caps epoch in
      if valid t then Some t else None
  | _ => None
  end.

(** *** Vocabulary for statements about [strptime] *)

(** The number of occurrences of [c] in [s], and of the literal [c] in a
    compiled format. *)
Fixpoint count_char (c : ascii) (s : string) : nat :=
  match s with
  | EmptyString => 0%nat
  | String c' s' => ((if Ascii.eqb c' c then 1 else 0) + count_char c s')%nat
  end.

Fixpoint count_lit (c : ascii) (its : list item) : nat :=
  match its with
  | [] => 0%nat
  | Lit c' :: its' => ((if Ascii.eqb c' c then 1 else 0) + count_lit c its')%nat
  | _ :: its' => count_lit c its'
  end.

(** The directives of a compiled format, in order. *)
Fixpoint fields_of (its : list item) : list directive :=
  match its with
  | [] => []
  | Field d :: its' => d :: fields_of its'
  | _ :: its' => fields_of its'
  end.

(** The separators of the formats of the script. *)
Definition separator (c : ascii) : Prop := c = ":"%char ∨ c = "-"%char.

End Datetime.

(** ** Exceptions and results *)

Inductive exn :=
| ValueError | AttributeError | IndexError | RuntimeError | NameError
| RequestException
| FileNotFoundError
| OSError.                    (* any other [OSError] *)

Inductive result (A : Type) :=
| Ok (a : A)
| Raise (e : exn).
Arguments Ok {A} a.
Arguments Raise {A} e.

Definition bind {A B} (r : result A) (k : A → result B) : result B :=
  match r with
  | Ok a => k a
  | Raise e => Raise e
  end.

Notation "'let*' x := r 'in' k" := (bind r (fun x => k))
  (at level 10, x name, r at level 100, k at level 200).

(** [o.attr] or [o.method()] on a possibly-[None] object. *)
Definition deref {A} (o : option A) : result A :=
  match o with
  | Some a => Ok a
  | None => Raise AttributeError
  end.

(** ** [clean.py]: the standings page *)

Definition DT_FORMAT : string := "%Y-%m-%d %H:%M".

(** The timestamp idiom of the script:
    [try: strptime(s, full) except ValueError: strptime(s, bare).replace(today)] *)
Definition strptime_fallback (today : date) (full bare s : string)
  : result datetime :=
  match Datetime.strptime s full with
  | Some t => Ok t
  | None =>
      match Datetime.strptime s bare with
      | Some t => Ok (Datetime.replace_date t today)
      | None => Raise ValueError
      end
  end.

(** The two parsers of the script, on the string handed to [strptime]:
    lines 165-172 (and 174-181), and lines 236-240. *)
Definition parse_contest (today : date) (s : string) : result datetime :=
  strptime_fallback today DT_FORMAT "%H:%M" s.

Definition parse_submit (today : date) (s : string) : result datetime :=
  strptime_fallback today "%Y-%m-%d %H:%M:%S" "%H:%M:%S" s.

(** [" ".join(text.split()[1:-1])]: the text without its first and last
    words. *)
Definition inner_words (text : string) : string :=
  Py.join " " (Py.slice_1_m1 (Py.split text)).

(** Lines 164-181. [text] is the text of the element of class
    [contest-start] (or [contest-end]); [None] when there is no such
    element. *)
Definition contest_time (today : date) (text : option string)
  : result datetime :=
  let* s := deref text in
  parse_contest today (inner_words s).

(** A row of the standings table, as seen by lines 192-193. *)
Record StandingsRow := {
  (** text of the first link of the row *)
  st_link : option string;
  (** the [class] attribute of each [td] after the score cell; [None] for the
      outer option when the row has no score cell *)
  st_cells : option (list (option (list string)))
}.

(** The three primary sets. *)
Record Roster := mkRoster {
  accepted : gset string;
  attempted : gset string;
  no_submission : gset string
}.

Definition has_class (c : string) (cl : list string) : bool :=
  bool_decide (c ∈ cl).

(** Lines 192-203: one iteration of the loop over the student rows. *)
Definition classify (question : Z) (R : Roster) (student : StandingsRow)
  : result Roster :=
  let* link := deref (st_link student) in
  let username := Py.strip link in
  let* cells := deref (st_cells student) in
  match Py.index cells question with
  | None => Raise IndexError
  | Some None =>
      Ok (mkRoster (accepted R) (attempted R) ({[username]} ∪ no_submission R))
  | Some (Some cl) =>
      if has_class "attempted" cl then
        Ok (mkRoster (accepted R) ({[username]} ∪ attempted R) (no_submission R))
      else if has_class "solved" cl then
        Ok (mkRoster ({[username]} ∪ accepted R) (attempted R) (no_submission R))
      else if has_class "first" cl then
        Ok (mkRoster ({[username]} ∪ accepted R) (attempted R) (no_submission R))
      else Raise RuntimeError
  end.

Fixpoint classify_all (question : Z) (R : Roster) (l : list StandingsRow)
  : result Roster :=
  match l with
  | [] => Ok R
  | student :: l' =>
      let* R' := classify question R student in
      classify_all question R' l'
  end.

(** Lines 185-203. [trs] are the [tr] elements after the standings table;
    the first and the last are not student rows. *)
Definition standings (question : Z) (trs : list StandingsRow) : result Roster :=
  classify_all question (mkRoster ∅ ∅ ∅) (Py.slice_1_m1 trs).

(** Line 206 *)
Definition student_list (R : Roster) : gset string :=
  accepted R ∪ attempted R ∪ no_submission R.

(** The usernames that the loop reads from the student rows. *)
Definition usernames (l : list StandingsRow) : list string :=
  omap (fun student => Py.strip <$> st_link student) l.

(** The set a row is filed under: 0 accepted, 1 attempted, 2 no submission. *)
Definition bucket (question : Z) (student : StandingsRow) : option nat :=
  match classify question (mkRoster ∅ ∅ ∅) student with
  | Ok R =>
      if bool_decide (accepted R = ∅)
      then if bool_decide (attempted R = ∅) then Some 2%nat else Some 1%nat
      else Some 0%nat
  | Raise _ => None
  end.

(** Filing [u] under the set numbered [b]. *)
Definition file_under (b : nat) (u : string) (R : Roster) : Roster :=
  match b with
  | 0%nat => mkRoster ({[u]} ∪ accepted R) (attempted R) (no_submission R)
  | 1%nat => mkRoster (accepted R) ({[u]} ∪ attempted R) (no_submission R)
  | _ => mkRoster (accepted R) (attempted R) ({[u]} ∪ no_submission R)
  end.

(** No username is read from two rows that are filed under different sets. *)
Definition consistent (question : Z) (l : list StandingsRow) : Prop :=
  ∀ r1 r2 u,
    r1 ∈ l → r2 ∈ l →
    Py.strip <$> st_link r1 = Some u → Py.strip <$> st_link r2 = Some u →
    bucket question r1 = bucket question r2.

(** ** [clean.py]: the submission scan *)

(** A [tr] of the submissions table, as seen by lines 232-262. *)
Record SubmissionRow := {
  (** [submission.get("class")] *)
  sub_class : option (list string);
  (** [submission.get("data-submission-id")] *)
  sub_id : option string;
  (** text of the [data-type="time"] cell *)
  sub_time : option string;
  (** text of the link in the [data-type="author"] cell; [None] when the cell
      or the link is missing *)
  sub_author : option string;
  (** the row has a descendant of class [plagiarism-warning-high] *)
  sub_red : bool;
  (** the row has a descendant of class [plagiarism-warning] *)
  sub_yellow : bool;
  (** the judgement shown in the row is Accepted; the script never reads it *)
  sub_accepted : bool
}.

(** The variables the scan updates. [author] is the loop variable of line
    246, which stays bound after the loop; [None] while it is unbound. *)
Record ScanState := mkScan {
  submission_dict : gmap string string;
  red_plagiarism : gset string;
  yellow_plagiarism : gset string;
  late_submission : gset string;
  author : option string
}.

(** Lines 209-212 *)
Definition scan_init : ScanState := mkScan ∅ ∅ ∅ ∅ None.

(** What one iteration of the [for] loop does to the control flow. *)
Inductive step :=
| Next (st : ScanState)       (* go on with the next row *)
| Break (st : ScanState)      (* [loop = False; break] *)
| Fail (e : exn).             (* uncaught exception *)

Module Scan.

Section Env.

Variable today : date.
Variables start_time end_time : datetime.
Variable R : Roster.

(** Line 232 *)
Definition is_testcases_row (submission : SubmissionRow) : bool :=
  match sub_class submission with
  | Some cl => has_class "testcases-row" cl
  | None => false
  end.

(** Lines 235-240 *)
Definition submit_time (submission : SubmissionRow) : result datetime :=
  let* s := deref (sub_time submission) in
  parse_submit today s.

(** Lines 249-262, for a row whose author was extracted. *)
Definition record_row (st : ScanState) (submission : SubmissionRow)
    (t : datetime) (a : string) : step :=
  let st := mkScan (submission_dict st) (red_plagiarism st)
                   (yellow_plagiarism st) (late_submission st) (Some a) in
  if bool_decide (a ∈ student_list R) then
    let late :=
      if Datetime.gtb t end_time && bool_decide (a ∈ no_submission R)
      then {[a]} ∪ late_submission st else late_submission st in
    let dict :=
      if bool_decide (a ∈ accepted R)
      then let* id_ := deref (sub_id submission) in
           Ok (<[a := Py.strip id_]> (submission_dict st))
      else Ok (submission_dict st) in
    match dict with
    | Raise e => Fail e
    | Ok d =>
        let red := if sub_red submission
                   then {[a]} ∪ red_plagiarism st else red_plagiarism st in
        let yellow := if sub_yellow submission
                      then {[a]} ∪ yellow_plagiarism st
                      else yellow_plagiarism st in
        Next (mkScan d red yellow late (Some a))
    end
  else Next st.

(** Lines 232-262: the body of the [for] loop. *)
Definition scan_row (st : ScanState) (submission : SubmissionRow) : step :=
  if is_testcases_row submission then Next st
  else
    match submit_time submission with
    | Raise e => Fail e
    | Ok t =>
        if Datetime.ltb t start_time then Break st
        else
          match sub_author submission with
          | None => Next st
          | Some a => record_row st submission t (Py.strip a)
          end
    end.

(** Lines 231-262: the [for] loop over the rows of one page. *)
Fixpoint scan_rows (st : ScanState) (submissions : list SubmissionRow) : step :=
  match submissions with
  | [] => Next st
  | submission :: rest =>
      match scan_row st submission with
      | Next st' => scan_rows st' rest
      | other => other
      end
  end.

(** Lines 218-262: the [while loop] over the pages.  [feed page] is the list
    of [tr] elements of the page of that index, or the exception raised while
    fetching it or locating its table.  The loop has no bound of its own:
    [fuel] bounds the number of pages requested and [None] means the bound was
    reached with [loop] still true. *)
Fixpoint scan_pages (feed : nat → result (list SubmissionRow))
    (fuel page : nat) (st : ScanState) : option (result ScanState) :=
  match fuel with
  | O => None
  | S fuel' =>
      match feed page with
      | Raise e => Some (Raise e)
      | Ok submissions =>
          match scan_rows st submissions with
          | Next st' => scan_pages feed fuel' (S page) st'
          | Break st' => Some (Ok st')
          | Fail e => Some (Raise e)
          end
      end
  end.

(** Lines 208-262 *)
Definition scan (feed : nat → result (list SubmissionRow)) (fuel : nat)
  : option (result ScanState) :=
  scan_pages feed fuel 0%nat scan_init.

(** *** Vocabulary for statements about the scan *)

(** The row ends the scan: it is a submission row whose timestamp parses to
    a time before [start_time]. *)
Definition stops (submission : SubmissionRow) : bool :=
  negb (is_testcases_row submission) &&
  match submit_time submission with
  | Ok t => Datetime.ltb t start_time
  | Raise _ => false
  end.

(** The author the scan reads from a row. *)
Definition row_author (submission : SubmissionRow) : option string :=
  Py.strip <$> sub_author submission.

(** The rows of a page before the first one that [stops], and whether there
    is one. *)
Fixpoint before_stop (submissions : list SubmissionRow)
  : list SubmissionRow * bool :=
  match submissions with
  | [] => ([], false)
  | submission :: rest =>
      if stops submission then ([], true)
      else let '(pre, found) := before_stop rest in (submission :: pre, found)
  end.

(** The rows of the feed, from [page] on, before the first one that [stops],
    looking at no more than [fuel] pages. *)
Fixpoint scanned_from (feed : nat → result (list SubmissionRow))
    (fuel page : nat) : list SubmissionRow :=
  match fuel with
  | O => []
  | S fuel' =>
      match feed page with
      | Raise _ => []
      | Ok submissions =>
          let '(pre, found) := before_stop submissions in
          if found then pre else pre ++ scanned_from feed fuel' (S page)
      end
  end.

Definition scanned (feed : nat → result (list SubmissionRow)) (fuel : nat)
  : list SubmissionRow :=
  scanned_from feed fuel 0%nat.

(** [submission] is a submission row by [u] with time [t]: for these the
    scan reaches line 249. *)
Definition submitted_by (submission : SubmissionRow) (u : string) (t : datetime)
  : Prop :=
  is_testcases_row submission = false ∧
  submit_time submission = Ok t ∧
  row_author submission = Some u.

(** How the scan ends once the rows are exhausted or the loop is left. *)
Definition finish (s : step) : result ScanState :=
  match s with
  | Next st | Break st => Ok st
  | Fail e => Raise e
  end.

(** The readable times of the submission rows, in feed order. *)
Definition times (submissions : list SubmissionRow) : list datetime :=
  omap (fun r => if is_testcases_row r then None
                 else match submit_time r with
                      | Ok t => Some t
                      | Raise _ => None
                      end) submissions.

(** The feed lists submissions newest first: no row is newer than a row
    before it. *)
Definition newest_first (submissions : list SubmissionRow) : Prop :=
  StronglySorted (fun t1 t2 => Datetime.ltb t1 t2 = false) (times submissions).

End Env.

End Scan.

(** ** [clean.py]: reconciliation with the local directory, and the report *)

(** Line 266: [submission_dict.values()] *)
Definition submission_id_list (st : ScanState) : list string :=
  (map_to_list (submission_dict st)).*2.

(** An entry of [SUBMISSION_DIR]: its name and whether [os.path.isdir] holds
    of it. *)
Definition entry : Type := string * bool.

Definition names (dir : list entry) : list string := dir.*1.

(** Lines 273-275: the first loop, over the entries listed at line 273.
    [rmtree name] is what [shutil.rmtree] does to the entry of that name:
    [None] when it removes it, else the exception it raises (as on a link to
    a directory, or on a directory that may not be deleted).  The result is
    the entries left when the loop ends, and the exception that ended it, if
    any. *)
Fixpoint remove_redundant (rmtree : string → option exn) (ids : list string)
    (dir : list entry) : list entry * option exn :=
  match dir with
  | [] => ([], None)
  | submission :: rest =>
      if bool_decide (fst submission ∉ ids) && snd submission then
        match rmtree (fst submission) with
        | None => remove_redundant rmtree ids rest
        | Some e => (submission :: rest, Some e)
        end
      else
        let '(kept, e) := remove_redundant rmtree ids rest in
        (submission :: kept, e)
  end.

(** Lines 276-278: the second loop. [who] is the variable [author]. *)
Fixpoint collect_missing (who : option string) (dir : list entry)
    (ids : list string) : result (list string) :=
  match ids with
  | [] => Ok []
  | id_ :: rest =>
      if bool_decide (id_ ∉ names dir) then
        match who with
        | None => Raise NameError
        | Some a =>
            let* more := collect_missing who dir rest in Ok (a :: more)
        end
      else collect_missing who dir rest
  end.

Record Reconciled := mkReconciled {
  (** the directory afterwards; [None] when it does not exist *)
  dir_after : option (list entry);
  missing_submission : list string
}.

(** Lines 268-282. [dir] is what [os.listdir(SUBMISSION_DIR)] returns or
    raises at line 270, [rmtree] what [shutil.rmtree] does; the later calls
    of [os.listdir] return what the removals have left.  A
    [FileNotFoundError] is caught at line 281, wherever it comes from; any
    other exception ends the script. *)
Definition reconcile (rmtree : string → option exn) (dir : result (list entry))
    (st : ScanState) : result Reconciled :=
  match dir with
  | Raise FileNotFoundError => Ok (mkReconciled None [])
  | Raise e => Raise e
  | Ok [] => Ok (mkReconciled (Some []) [])
  | Ok entries =>
      match remove_redundant rmtree (submission_id_list st) entries with
      | (kept, Some FileNotFoundError) => Ok (mkReconciled (Some kept) [])
      | (kept, Some e) => Raise e
      | (kept, None) =>
          let* missing :=
            collect_missing (author st) kept (submission_id_list st) in
          Ok (mkReconciled (Some kept) missing)
      end
  end.

(** [sorted(s)] for a set [s] *)
Definition sorted_set (s : gset string) : list string := Py.sorted (elements s).

(** Lines 285-298: the six lines of the report, each a label and the list
    whose [repr] follows it. *)
Definition report (R : Roster) (st : ScanState) : list (string * list string) :=
  [ ("Red Plagiarism Notices", sorted_set (red_plagiarism st));
    ("Yellow Plagiarism Notices",
       sorted_set (yellow_plagiarism st ∖ red_plagiarism st));
    ("Early Submission ",
       sorted_set (accepted R ∖ dom (submission_dict st)));
    ("Late Submission", sorted_set (late_submission st));
    ("Attempted Only", sorted_set (attempted R ∖ late_submission st));
    ("No Submission", sorted_set (no_submission R ∖ late_submission st)) ].

(** The list printed on the line with the given label. *)
Definition report_line (label : string) (R : Roster) (st : ScanState)
  : option (list string) :=
  snd <$> find (fun l => String.eqb (fst l) label) (report R st).

(** ** [get_file.py] *)

Module GetFile.

(** The calls the script makes to the operating system. *)
Inductive call :=
| IsDir (p : string)
| MkDir (p : string)
| OpenWrite (p : string) (text : string).

(** Lines 9-15. [path] is [parse_url(link).path], [text] the body of the
    response, [cwd] is [os.getcwd()], and [isdir] answers [os.path.isdir].
    The result lists the calls in order, assuming each of them succeeds. *)
Definition run (cwd : string) (isdir : string → bool)
    (path : option string) (text : string) : result (list call) :=
  let* p := deref path in
  let parsed := Py.split_on "/" p in
  match Py.index parsed 1, Py.last_item parsed with
  | Some seg, Some file =>
      let d := Py.path_join cwd ["submissions"; seg] in
      Ok (IsDir d ::
          (if isdir d then [] else [MkDir d]) ++
          [OpenWrite (Py.path_join cwd ["submissions"; seg; file]) text])
  | _, _ => Raise IndexError
  end.

(** The file the script writes, if it gets that far. *)
Definition written (cwd : string) (isdir : string → bool)
    (path : option string) (text : string) : option (string * string) :=
  match run cwd isdir path text with
  | Ok calls =>
      last (omap (fun c => match c with
                           | OpenWrite p t => Some (p, t)
                           | _ => None
                           end) calls)
  | Raise _ => None
  end.

(** [c in s] *)
Fixpoint has_char (c : ascii) (s : string) : bool :=
  match s with
  | EmptyString => false
  | String c' s' => Ascii.eqb c' c || has_char c s'
  end.

(** The non-empty components of a URL path, in order. *)
Definition segments (p : string) : list string :=
  filter (fun s => s ≠ EmptyString) (Py.split_on "/" p).

End GetFile.

(** ** [clean.py]: configuration and login (lines 27-94) *)

Module Login.

(** The exceptions of [configparser] that the script can meet, and its
    own. *)
Inductive error :=
| NoSectionError | NoOptionError
| InterpolationSyntaxError | InterpolationMissingOptionError
| InterpolationDepthError
| ConfigError.

Inductive outcome (A : Type) :=
| Done (a : A)
| Error (e : error).
Arguments Done {A} a.
Arguments Error {A} e.

(** A [ConfigParser] as the tables it has read: section, then option name as
    [optionxform] stored it, then the value as written.  The section
    [DEFAULT] holds the defaults.  Parsing of the files is not modelled. *)
Abbreviation config := (gmap string (gmap string string)).

(** [optionxform]: [str.lower], here on the letters A to Z. *)
Fixpoint optionxform (optionstr : string) : string :=
  match optionstr with
  | EmptyString => EmptyString
  | String c s => String (Datetime.lower c) (optionxform s)
  end.

Definition default_section : string := "DEFAULT".

Definition defaults (cfg : config) : gmap string string :=
  default ∅ (cfg !! default_section).

(** [_unify_values]: the options seen from a section, its own before the
    defaults. *)
Definition unify_values (cfg : config) (section : string)
  : outcome (gmap string string) :=
  if String.eqb section default_section then Done (defaults cfg)
  else match cfg !! section with
       | Some sectiondict => Done (sectiondict ∪ defaults cfg)
       | None => Error NoSectionError
       end.

(** [_KEYCRE.match(rest)] with [_KEYCRE = %\(([^)]+)\)s], for [rest] the
    text [%(] followed by [s]: the group, and the text after the match. *)
Fixpoint key_match (s : string) : option (string * string) :=
  match s with
  | EmptyString => None
  | String c s' =>
      if Ascii.eqb c ")" then
        match s' with
        | String c' rest => if Ascii.eqb c' "s" then Some (EmptyString, rest)
                            else None
        | EmptyString => None
        end
      else
        match key_match s' with
        | Some (name, rest) => Some (String c name, rest)
        | None => None
        end
  end.

(** [accum.append(x)] before the rest of the loop *)
Definition emit (x : string) (r : outcome string) : outcome string :=
  match r with
  | Done y => Done (x +:+ y)
  | Error e => Error e
  end.

(** The [while rest:] loop of [BasicInterpolation._interpolate_some]; the
    result is the text joined from [accum].  [deeper] is the same method at
    [depth + 1].  Every iteration takes at least one character off [rest], so
    the loop ends within [n] iterations when [n] is the length of [rest]. *)
Fixpoint interpolate_loop (map : gmap string string)
    (deeper : string → outcome string) (n : nat) (rest : string)
  : outcome string :=
  match n, rest with
  | S n', String c r =>
      if Ascii.eqb c "%" then
        match r with
        | String c' r' =>
            if Ascii.eqb c' "%" then emit "%" (interpolate_loop map deeper n' r')
            else if Ascii.eqb c' "(" then
              match key_match r' with
              | Some (String k name, rest') =>
                  match map !! optionxform (String k name) with
                  | None => Error InterpolationMissingOptionError
                  | Some v =>
                      match (if GetFile.has_char "%" v then deeper v
                             else Done v) with
                      | Done x => emit x (interpolate_loop map deeper n' rest')
                      | Error e => Error e
                      end
                  end
              | _ => Error InterpolationSyntaxError
              end
            else Error InterpolationSyntaxError
        | EmptyString => Error InterpolationSyntaxError
        end
      else emit (String c EmptyString) (interpolate_loop map deeper n' r)
  | _, _ => Done EmptyString
  end.

Definition MAX_INTERPOLATION_DEPTH : nat := 10.

(** The subclasses of [InterpolationError]. *)
Definition interpolation_error (e : error) : bool :=
  match e with
  | InterpolationSyntaxError | InterpolationMissingOptionError
  | InterpolationDepthError => true
  | _ => false
  end.

(** [_interpolate_some] at depth [MAX_INTERPOLATION_DEPTH + 1 - left]: beyond
    the maximal depth it raises. *)
Fixpoint interpolate_some (left : nat) (map : gmap string string)
    (rest : string) : outcome string :=
  match left with
  | O => Error InterpolationDepthError
  | S left' =>
      interpolate_loop map (interpolate_some left' map) (String.length rest) rest
  end.

(** [BasicInterpolation.before_get] *)
Definition before_get (map : gmap string string) (value : string)
  : outcome string :=
  interpolate_some MAX_INTERPOLATION_DEPTH map value.

(** [cfg.get(section, option)] *)
Definition get (cfg : config) (section opt : string) : outcome string :=
  match unify_values cfg section with
  | Error e => Error e
  | Done d =>
      match d !! optionxform opt with
      | None => Error NoOptionError
      | Some value => before_get d value
      end
  end.

(** [cfg.has_option(section, option)] *)
Definition has_option (cfg : config) (section opt : string) : bool :=
  if String.eqb section EmptyString || String.eqb section default_section
  then bool_decide (is_Some (defaults cfg !! optionxform opt))
  else match cfg !! section with
       | None => false
       | Some sectiondict =>
           bool_decide (is_Some (sectiondict !! optionxform opt)) ||
           bool_decide (is_Some (defaults cfg !! optionxform opt))
       end.

(** Lines 27-31 *)
Definition get_url (cfg : config) (opt default : string) : outcome string :=
  if has_option cfg "kattis" opt then get cfg "kattis" opt
  else match get cfg "kattis" "hostname" with
       | Done hostname => Done ("https://" +:+ hostname +:+ "/" +:+ default)
       | Error e => Error e
       end.

(** [cfg.read(file)] for a file with the given tables, [None] for a file that
    is not there: options read later replace those read before. *)
Definition read (cfg : config) (file : option config) : config :=
  match file with
  | None => cfg
  | Some t => union_with (fun new old => Some (new ∪ old)) t cfg
  end.

(** Lines 34-56. [system] is [/usr/local/etc/kattisrc], [home] the
    [.kattisrc] of the home directory, [script] the one beside the script. *)
Definition get_config (system home script : option config) : outcome config :=
  let cfg := read ∅ system in
  match home, script with
  | None, None => Error ConfigError
  | _, _ => Done (read (read cfg home) script)
  end.

(** The POST request that [login] hands to [requests.post]. *)
Record Request := mkRequest {
  req_url : string;
  req_data : gmap string string
}.

(** [if x:] for [x] a string or [None] *)
Definition truthy (x : option string) : bool :=
  match x with
  | Some (String _ _) => true
  | _ => false
  end.

(** Lines 59-70: the request sent.  What [requests.post] returns or raises
    is left to the caller. *)
Definition login (login_url username : string) (password token : option string)
  : Request :=
  let login_args : gmap string string :=
    <["script" := "true"]> (<["user" := username]> ∅) in
  let login_args :=
    match password with
    | Some p => if truthy password then <["password" := p]> login_args
                else login_args
    | None => login_args
    end in
  let login_args :=
    match token with
    | Some t => if truthy token then <["token" := t]> login_args
                else login_args
    | None => login_args
    end in
  mkRequest login_url login_args.

(** [try: x = cfg.get(...) except NoOptionError: pass], with [x] preset to
    [None]. *)
Definition get_or_none (cfg : config) (section opt : string)
  : outcome (option string) :=
  match get cfg section opt with
  | Done v => Done (Some v)
  | Error NoOptionError => Done None
  | Error e => Error e
  end.

(** Lines 73-94: the exception raised before anything is sent, or the
    request sent. *)
Definition login_from_config (cfg : config) : outcome Request :=
  match get cfg "user" "username" with
  | Error e => Error e
  | Done username =>
      match get_or_none cfg "user" "password" with
      | Error e => Error e
      | Done password =>
          match get_or_none cfg "user" "token" with
          | Error e => Error e
          | Done token =>
              match password, token with
              | None, None => Error ConfigError
              | _, _ =>
                  match get_url cfg "loginurl" "login" with
                  | Error e => Error e
                  | Done loginurl => Done (login loginurl username password token)
                  end
              end
          end
      end
  end.

End Login.

(** ** [clean.py]: the command line (lines 113-117, 183, 215) *)

(** Regular expressions with the constructs of the two patterns of the
    script, matched at the start of the text as [re.match] does. *)
Module Re.

Inductive re :=
| Eps
| Chr (c : ascii)
| Cat (a b : re)
| Opt (a : re)
| AnyStar.  (* [.*]: any characters but newlines *)

(** The rests that [.*] can leave, longest match first. *)
Fixpoint any_rests (s : string) : list string :=
  match s with
  | EmptyString => [EmptyString]
  | String c s' =>
      if Ascii.eqb c "010" then [s] else any_rests s' ++ [s]
  end.

(** The rests a match can leave, in the order of a backtracking matcher. *)
Fixpoint rests (r : re) (s : string) : list string :=
  match r with
  | Eps => [s]
  | Chr c =>
      match s with
      | String c' s' => if Ascii.eqb c c' then [s'] else []
      | EmptyString => []
      end
  | Cat a b => flat_map (rests b) (rests a s)
  | Opt a => rests a s ++ [s]
  | AnyStar => any_rests s
  end.

(** A literal string *)
Fixpoint lit (w : string) : re :=
  match w with
  | EmptyString => Eps
  | String c w' => Cat (Chr c) (lit w')
  end.

(** [re.match(r, s)] is not [None] *)
Definition matches (r : re) (s : string) : bool :=
  match rests r s with
  | [] => false
  | _ :: _ => true
  end.

End Re.

Module Posix.

(** [p[:p.rfind("/") + 1]] *)
Fixpoint upto_last_slash (p : string) : string :=
  match p with
  | EmptyString => EmptyString
  | String c p' =>
      match upto_last_slash p' with
      | EmptyString =>
          if Ascii.eqb c "/" then String c EmptyString else EmptyString
      | head => String c head
      end
  end.

(** [p[p.rfind("/") + 1:]] *)
Fixpoint after_last_slash (p : string) : string :=
  match p with
  | EmptyString => EmptyString
  | String c p' =>
      if GetFile.has_char "/" p' then after_last_slash p'
      else if Ascii.eqb c "/" then p' else p
  end.

(** [s == "/" * len(s)] *)
Fixpoint all_slashes (s : string) : bool :=
  match s with
  | EmptyString => true
  | String c s' => Ascii.eqb c "/" && all_slashes s'
  end.

(** [s.rstrip("/")] *)
Fixpoint rstrip_slashes (s : string) : string :=
  match s with
  | EmptyString => EmptyString
  | String c s' =>
      match rstrip_slashes s' with
      | EmptyString =>
          if Ascii.eqb c "/" then EmptyString else String c EmptyString
      | t => String c t
      end
  end.

(** [posixpath.dirname] *)
Definition dirname (p : string) : string :=
  let head := upto_last_slash p in
  if negb (String.eqb head EmptyString) && negb (all_slashes head)
  then rstrip_slashes head else head.

(** [posixpath.basename] *)
Definition basename (p : string) : string := after_last_slash p.

(** The number of slashes [normpath] keeps in front: 2 for exactly two. *)
Definition initial_slashes (path : string) : nat :=
  match path with
  | String "/" (String "/" (String "/" _)) => 1
  | String "/" (String "/" _) => 2
  | String "/" _ => 1
  | _ => 0
  end.

(** One iteration of the loop of [posixpath.normpath]. *)
Definition norm_step (initial : nat) (new_comps : list string) (comp : string)
  : list string :=
  if String.eqb comp EmptyString || String.eqb comp "." then new_comps
  else if negb (String.eqb comp "..")
          || (Nat.eqb initial 0 && bool_decide (new_comps = []))
          || bool_decide (last new_comps = Some "..")
       then new_comps ++ [comp]
       else removelast new_comps.

(** [posixpath.normpath] *)
Definition normpath (path : string) : string :=
  if String.eqb path EmptyString then "."
  else
    let initial := initial_slashes path in
    let comps := fold_left (norm_step initial) (Py.split_on "/" path) [] in
    let p := Py.join "/" comps in
    let p := Nat.iter initial (String "/") p in
    if String.eqb p EmptyString then "." else p.

End Posix.

(** The two patterns of lines 113 and 115. *)
Definition problems_re : Re.re :=
  Re.Cat (Re.Opt (Re.Cat (Re.lit "http")
                    (Re.Cat (Re.Opt (Re.Chr "s")) (Re.lit "://"))))
    (Re.Cat Re.AnyStar
       (Re.Cat (Re.lit ".kattis.com/")
          (Re.Cat Re.AnyStar
             (Re.Cat (Re.lit "/problems") (Re.Opt (Re.Chr "/")))))).

Definition standings_re : Re.re :=
  Re.Cat (Re.Opt (Re.Cat (Re.lit "http")
                    (Re.Cat (Re.Opt (Re.Chr "s")) (Re.lit "://"))))
    (Re.Cat Re.AnyStar
       (Re.Cat (Re.lit ".kattis.com/")
          (Re.Cat Re.AnyStar
             (Re.Cat (Re.lit "/standings") (Re.Opt (Re.Chr "/")))))).

(** Lines 109-117: the standings link the script goes on with; [None] is
    [sys.exit(1)]. *)
Definition standings_link (link : string) : option string :=
  if Re.matches problems_re link
  then Some (Py.path_join (Posix.dirname link) ["standings"])
  else if negb (Re.matches standings_re link) then None
  else Some link.

(** [c.upper()] on the ASCII range *)
Definition upper (c : ascii) : ascii :=
  if Datetime.between "a" "z" c then ascii_of_N (N_of_ascii c - 32) else c.

(** Line 183: [ord(args.q.upper()[0]) - ord("A"[0])] *)
Definition question_of (q : string) : result Z :=
  match q with
  | EmptyString => Raise IndexError
  | String c _ => Ok (Z.of_N (N_of_ascii (upper c)) - 65)%Z
  end.

(** Line 215, from the path of the link of the problem:
    [os.path.basename(os.path.normpath(path))] *)
Definition problem_of (path : string) : string :=
  Posix.basename (Posix.normpath path).

(** ** More vocabulary *)

(** The exception a student row raises in the loop of lines 191-203, if
    any. *)
Definition row_exn (question : Z) (student : StandingsRow) : option exn :=
  match classify question (mkRoster ∅ ∅ ∅) student with
  | Ok _ => None
  | Raise e => Some e
  end.

(** A row goes through the loop body of the scan without ending the scan,
    whatever the variables hold. *)
Definition passes (today : date) (start_time end_time : datetime) (R : Roster)
    (r : SubmissionRow) : Prop :=
  ∀ st, ∃ st', Scan.scan_row today start_time end_time R st r = Next st'.

(** The value a configuration file gives to an option of a section, if the
    file is there and says anything about it. *)
Definition setting (file : option Login.config) (section opt : string)
  : option string :=
  cfg ← file; opts ← cfg !! section; opts !! opt.

(** The entries that the first loop of the reconciliation has no reason to
    remove: the regular files, and whatever is named by an id. *)
Definition wanted (ids : list string) (dir : list entry) : list entry :=
  filter (λ e, fst e ∈ ids ∨ snd e = false) dir.

(** A feed without its test-case detail rows. *)
Definition without_details (feed : nat → result (list SubmissionRow))
  : nat → result (list SubmissionRow) :=
  fun page =>
    match feed page with
    | Ok submissions =>
        Ok (filter (fun r => Scan.is_testcases_row r = false) submissions)
    | Raise e => Raise e
    end.

(** ** Sample inputs *)

Module Sample.

Definition student (name : string) (cls : option (list string)) : StandingsRow :=
  {| st_link := Some name; st_cells := Some [cls] |}.

(** The header and footer rows of the standings table. *)
Definition edge : StandingsRow := {| st_link := None; st_cells := None |}.

(** One name on two rows, once attempted and once solved. *)
Definition twice : list StandingsRow :=
  [edge; student "alice" (Some ["attempted"]);
         student "alice" (Some ["solved"]); edge].

Definition table : list StandingsRow :=
  [edge; student "alice" (Some ["solved"]);
         student " bob " (Some ["first"; "solved"]);
         student "carol" (Some ["attempted"]);
         student "dave" None; edge].

Definition today : date := mkdate 2024 1 5.
Definition start_time : datetime := mkdt 2024 1 5 9 0 0.
Definition end_time : datetime := mkdt 2024 1 5 12 0 0.
Definition roster : Roster :=
  mkRoster {["alice"; "bob"]} {["carol"]} {["dave"]}.

Definition sub (who : option string) (id_ time : string)
    (red yellow ac : bool) : SubmissionRow :=
  {| sub_class := None; sub_id := Some id_; sub_time := Some time;
     sub_author := who; sub_red := red; sub_yellow := yellow;
     sub_accepted := ac |}.

(** A test-case detail row: no cells of its own to read. *)
Definition detail : SubmissionRow :=
  {| sub_class := Some ["testcases-row"]; sub_id := None; sub_time := None;
     sub_author := None; sub_red := true; sub_yellow := true;
     sub_accepted := false |}.

Definition page0 : list SubmissionRow :=
  [ sub (Some "dave") "31" "13:05:00" false false false;
    detail;
    sub (Some " bob ") " 27 " "2024-01-05 11:40:00" true true true ].

Definition page1_before : list SubmissionRow :=
  [ sub (Some "alice") "21" "2024-01-05 10:30:00" false false false;
    sub (Some "zed") "19" "2024-01-05 10:00:00" true true true;
    sub None "18" "2024-01-05 09:50:00" true true true;
    sub (Some "alice") "15" "2024-01-05 09:30:00" false true true;
    sub (Some "carol") "14" "2024-01-05 09:10:00" false false false ].

Definition old_row : SubmissionRow :=
  sub (Some "alice") "9" "2024-01-05 08:59:59" true true true.

Definition page1_after : list SubmissionRow :=
  [ sub (Some "bob") "8" "2024-01-05 08:00:00" true true true ].

Definition feed (page : nat) : result (list SubmissionRow) :=
  match page with
  | 0%nat => Ok page0
  | 1%nat => Ok (page1_before ++ old_row :: page1_after)
  | _ => Raise RequestException
  end.

(** A second page on which the row before [old_row] is timed exactly
    [start_time]. *)
Definition page1_edge : list SubmissionRow :=
  [ sub (Some "carol") "41" "2024-01-05 09:00:01" false true false;
    sub (Some "bob") "40" "09:00:00" true false true ].

Definition feed_edge (page : nat) : result (list SubmissionRow) :=
  match page with
  | 0%nat => Ok page0
  | 1%nat => Ok (page1_edge ++ old_row :: page1_after)
  | _ => Raise RequestException
  end.

(** The variables after scanning [feed]. *)
Definition final : ScanState :=
  mkScan (<["alice" := "15"]> (<["bob" := "27"]> ∅))
         {["bob"]} {["alice"; "bob"]} {["dave"]} (Some "carol").

(** A feed whose only row in the window is a rejected submission. *)
Definition feed_rejected (page : nat) : result (list SubmissionRow) :=
  match page with
  | 0%nat => Ok [ sub (Some "alice") "21" "2024-01-05 10:30:00" false false false;
                  old_row ]
  | _ => Raise RequestException
  end.

Definition final_rejected : ScanState :=
  mkScan (<["alice" := "21"]> ∅) ∅ ∅ ∅ (Some "alice").

(** Two accepted students, the older submission being [alice]'s. *)
Definition feed_two (page : nat) : result (list SubmissionRow) :=
  match page with
  | 0%nat => Ok [ sub (Some "bob") "4" "2024-01-05 11:00:00" false false true;
                  sub (Some "alice") "2" "2024-01-05 10:00:00" false false true;
                  old_row ]
  | _ => Raise RequestException
  end.

Definition final_two : ScanState :=
  mkScan (<["alice" := "2"]> (<["bob" := "4"]> ∅)) ∅ ∅ ∅ (Some "alice").

(** The local directory of the reconciliation example. *)
Definition local : list entry := [("1", true); ("2", true); ("3", true)].

(** A [.kattisrc] whose token is there but empty. *)
Definition kattisrc : Login.config :=
  {[ "user" := {[ "username" := "alice"; "token" := "" ]};
     "kattis" := {[ "hostname" := "open.kattis.com" ]} ]}.

(** A [.kattisrc] with a percent sign in the password, and a login URL
    written with a reference to the hostname. *)
Definition kattisrc_percent : Login.config :=
  {[ "user" := {[ "username" := "alice"; "password" := "100%sure";
                  "token" := "abc" ]};
     "kattis" := {[ "hostname" := "open.kattis.com";
                    "loginurl" := "https://%(HostName)s/login?x=50%%" ]} ]}.

End Sample.

(** * Properties *)

#[local] Set Warnings "-clear-no-such-hyp".

(** ** The standings parser *)

Section StandingsFacts.

Variable question : Z.

Lemma classify_file_under R student R' :
  classify question R student = Ok R' →
  ∃ u b, Py.strip <$> st_link student = Some u ∧
         bucket question student = Some b ∧ (b < 3)%nat ∧
         R' = file_under b u R.
Proof.
  unfold bucket, classify.
  destruct (st_link student) as [link|]; simpl; [|discriminate].
  destruct (st_cells student) as [cells|]; simpl; [|discriminate].
  destruct (Py.index cells question) as [[cl|]|]; [| |discriminate].
  - destruct (has_class "attempted" cl).
    { intros [= <-]. exists (Py.strip link), 1%nat.
      rewrite bool_decide_true by done.
      rewrite bool_decide_false by set_solver. auto with lia. }
    destruct (has_class "solved" cl).
    { intros [= <-]. exists (Py.strip link), 0%nat.
      rewrite bool_decide_false by set_solver. auto with lia. }
    destruct (has_class "first" cl); [|discriminate].
    intros [= <-]. exists (Py.strip link), 0%nat.
    rewrite bool_decide_false by set_solver. auto with lia.
  - intros [= <-]. exists (Py.strip link), 2%nat.
    rewrite !bool_decide_true by done. auto with lia.
Qed.

Lemma file_under_accepted b u R v :
  v ∈ accepted (file_under b u R) ↔ (b = 0%nat ∧ v = u) ∨ v ∈ accepted R.
Proof.
  destruct b as [|[|b]]; simpl;
    rewrite ?elem_of_union, ?elem_of_singleton; intuition congruence.
Qed.

Lemma file_under_attempted b u R v :
  v ∈ attempted (file_under b u R) ↔ (b = 1%nat ∧ v = u) ∨ v ∈ attempted R.
Proof.
  destruct b as [|[|b]]; simpl;
    rewrite ?elem_of_union, ?elem_of_singleton; intuition congruence.
Qed.

Lemma file_under_no_submission b u R v :
  (b < 3)%nat →
  v ∈ no_submission (file_under b u R) ↔
  (b = 2%nat ∧ v = u) ∨ v ∈ no_submission R.
Proof.
  destruct b as [|[|[|b]]]; simpl; intros;
    rewrite ?elem_of_union, ?elem_of_singleton; intuition (congruence || lia).
Qed.

(** What the loop has filed where, in terms of the rows it went through. *)
Lemma classify_all_sets l : ∀ R R',
  classify_all question R l = Ok R' →
  (∀ r, r ∈ l → is_Some (Py.strip <$> st_link r) ∧ is_Some (bucket question r)) ∧
  ∀ v,
    (v ∈ accepted R' ↔ v ∈ accepted R ∨
       ∃ r, r ∈ l ∧ Py.strip <$> st_link r = Some v ∧ bucket question r = Some 0%nat) ∧
    (v ∈ attempted R' ↔ v ∈ attempted R ∨
       ∃ r, r ∈ l ∧ Py.strip <$> st_link r = Some v ∧ bucket question r = Some 1%nat) ∧
    (v ∈ no_submission R' ↔ v ∈ no_submission R ∨
       ∃ r, r ∈ l ∧ Py.strip <$> st_link r = Some v ∧ bucket question r = Some 2%nat).
Proof.
  induction l as [|student l IH]; intros R R'; simpl.
  - intros [= <-]. split; [intros r Hr; inversion Hr|].
    intros v. repeat split; try tauto; intros [?|(r & Hr & _)]; auto;
      inversion Hr.
  - destruct (classify question R student) as [R1|] eqn:Hc; simpl; [|discriminate].
    intros Hall. destruct (IH _ _ Hall) as [Hok Hsets].
    destruct (classify_file_under _ _ _ Hc) as (u & b & Hu & Hb & Hlt & ->).
    split.
    + intros r [->|Hr]%elem_of_cons; [rewrite Hu, Hb; eauto | auto].
    + intros v. destruct (Hsets v) as (Ha & Ht & Hn).
      rewrite Ha, Ht, Hn, file_under_accepted, file_under_attempted,
        file_under_no_submission by done.
      repeat split.
      all: try (intros [[[-> ->]|?]|(r & Hr & ?)];
                [right; exists student; rewrite elem_of_cons; auto
                | auto
                | right; exists r; rewrite elem_of_cons; auto]).
      all: intros [?|(r & [->|Hr]%elem_of_cons & Hv & Hbr)]; auto;
           [left; left; split; congruence | right; eauto].
Qed.

Lemma elem_of_usernames l v :
  v ∈ usernames l ↔ ∃ r, r ∈ l ∧ Py.strip <$> st_link r = Some v.
Proof. unfold usernames. rewrite list_elem_of_omap. reflexivity. Qed.

(** Rows with distinct usernames are consistent. *)
Lemma NoDup_usernames_consistent l :
  NoDup (usernames l) → consistent question l.
Proof.
  unfold usernames. induction l as [|r l IH]; intros Hnd r1 r2 u H1 H2 Hu1 Hu2.
  { inversion H1. }
  csimpl in Hnd.
  assert (∀ x, x ∈ l → Py.strip <$> st_link x = Some u →
               Py.strip <$> st_link r = Some u → False) as Hclash.
  { intros x Hx Hxu Hru. rewrite Hru in Hnd.
    apply NoDup_cons in Hnd as [Hnot _]. apply Hnot.
    apply list_elem_of_omap. by exists x. }
  assert (NoDup (omap (λ student, Py.strip <$> st_link student) l)) as Hnd'.
  { destruct (Py.strip <$> st_link r); [by apply NoDup_cons in Hnd as [_ ?]|done]. }
  apply elem_of_cons in H1 as [->|H1], H2 as [->|H2].
  - done.
  - by destruct (Hclash r2).
  - by destruct (Hclash r1).
  - by apply (IH Hnd' r1 r2 u).
Qed.

Lemma bucket_lt student b : bucket question student = Some b → (b < 3)%nat.
Proof.
  unfold bucket. destruct (classify question _ student); [|discriminate].
  repeat case_bool_decide; intros [= <-]; lia.
Qed.

(** C1, as amended.  When the loop over the student rows finishes, the union
    of [accepted], [attempted] and [no_submission] is the set of usernames read
    from the student rows, whatever the table holds.  The three sets are
    pairwise disjoint exactly when no username is read from two rows that are
    filed under different sets, as is the case when the usernames of the rows
    are distinct. *)
Theorem standings_partition trs R :
  standings question trs = Ok R →
  student_list R = list_to_set (usernames (Py.slice_1_m1 trs)) ∧
  (accepted R ## attempted R ∧
   accepted R ## no_submission R ∧
   attempted R ## no_submission R ↔
   consistent question (Py.slice_1_m1 trs)) ∧
  (NoDup (usernames (Py.slice_1_m1 trs)) →
   consistent question (Py.slice_1_m1 trs)).
Proof.
  unfold standings. intros Hst.
  destruct (classify_all_sets _ _ _ Hst) as [Hok Hsets].
  split; [|split; [split|apply NoDup_usernames_consistent]].
  - apply set_eq. intros v. unfold student_list.
    rewrite elem_of_list_to_set, elem_of_usernames, !elem_of_union.
    destruct (Hsets v) as (Ha & Ht & Hn). rewrite Ha, Ht, Hn.
    split.
    + intros [[[?|(r & ? & ? & _)]|[?|(r & ? & ? & _)]]|[?|(r & ? & ? & _)]];
        try set_solver; eauto.
    + intros (r & Hr & Hv).
      destruct (Hok r Hr) as [_ [b Hb]].
      pose proof (bucket_lt _ _ Hb) as Hlt.
      destruct b as [|[|[|b]]]; [| | |lia].
      * left; left; right; eauto.
      * left; right; right; eauto.
      * right; right; eauto.
  - intros (Hat & Han & Htn) r1 r2 u H1 H2 Hu1 Hu2.
    destruct (Hok r1 H1) as [_ [b1 Hb1]], (Hok r2 H2) as [_ [b2 Hb2]].
    pose proof (bucket_lt _ _ Hb1) as Hlt1.
    pose proof (bucket_lt _ _ Hb2) as Hlt2.
    rewrite Hb1, Hb2. f_equal.
    destruct (Hsets u) as (Ha & Ht & Hn).
    assert (∀ r b, r ∈ Py.slice_1_m1 trs → Py.strip <$> st_link r = Some u →
                   bucket question r = Some b →
                   match b with
                   | 0 => u ∈ accepted R
                   | 1 => u ∈ attempted R
                   | _ => u ∈ no_submission R
                   end%nat) as Hin.
    { intros r b Hr Hu Hb. pose proof (bucket_lt _ _ Hb).
      destruct b as [|[|[|b]]]; [apply Ha|apply Ht|apply Hn|lia]; eauto. }
    pose proof (Hin r1 b1 H1 Hu1 Hb1) as Hin1.
    pose proof (Hin r2 b2 H2 Hu2 Hb2) as Hin2.
    destruct b1 as [|[|[|b1]]], b2 as [|[|[|b2]]]; try lia; try done;
      exfalso;
      first [by apply (Hat u)|by apply (Han u)|by apply (Htn u)].
  - intros Hcons.
    assert (Hclash : ∀ v r1 r2 b1 b2,
              r1 ∈ Py.slice_1_m1 trs → r2 ∈ Py.slice_1_m1 trs →
              Py.strip <$> st_link r1 = Some v → Py.strip <$> st_link r2 = Some v →
              bucket question r1 = Some b1 → bucket question r2 = Some b2 →
              b1 = b2).
    { intros v r1 r2 b1 b2 H1 H2 Hv1 Hv2 Hb1 Hb2.
      pose proof (Hcons r1 r2 v H1 H2 Hv1 Hv2) as He. congruence. }
    repeat split.
    + intros v Ha Ht. apply Hsets in Ha, Ht.
      destruct Ha as [Ha|(r1 & ? & ? & ?)]; [set_solver|].
      destruct Ht as [Ht|(r2 & ? & ? & ?)]; [set_solver|].
      assert (0 = 1)%nat by eauto. discriminate.
    + intros v Ha Hn. apply Hsets in Ha, Hn.
      destruct Ha as [Ha|(r1 & ? & ? & ?)]; [set_solver|].
      destruct Hn as [Hn|(r2 & ? & ? & ?)]; [set_solver|].
      assert (0 = 2)%nat by eauto. discriminate.
    + intros v Ht Hn. apply Hsets in Ht, Hn.
      destruct Ht as [Ht|(r1 & ? & ? & ?)]; [set_solver|].
      destruct Hn as [Hn|(r2 & ? & ? & ?)]; [set_solver|].
      assert (1 = 2)%nat by eauto. discriminate.
Qed.

End StandingsFacts.

(** C1 as stated fails: a table on which one name appears on two student
    rows, attempted on one and solved on the other, puts the name in both
    [accepted] and [attempted]. *)
Lemma standings_not_disjoint :
  standings 0 Sample.twice = Ok (mkRoster {["alice"]} {["alice"]} ∅) ∧
  ¬ ({["alice"]} : gset string) ## {["alice"]}.
Proof.
  split; [vm_compute; reflexivity|].
  intros H. apply (H "alice"); apply elem_of_singleton; reflexivity.
Qed.

Lemma sample_table_consistent : consistent 0 (Py.slice_1_m1 Sample.table).
Proof.
  intros r1 r2 u H1 H2 Hu1 Hu2.
  apply list_elem_of_In in H1, H2. simpl in H1, H2.
  intuition subst; vm_compute in Hu1, Hu2; simplify_eq; reflexivity.
Defined.

Lemma standings_partition_witness :
  let R := mkRoster {["alice"; "bob"]} {["carol"]} {["dave"]} in
  let R2 := mkRoster {["alice"]} {["alice"]} ∅ in
  (student_list R = list_to_set (usernames (Py.slice_1_m1 Sample.table)) ∧
   accepted R ## attempted R ∧
   accepted R ## no_submission R ∧
   attempted R ## no_submission R) ∧
  (student_list R2 = list_to_set (usernames (Py.slice_1_m1 Sample.twice)) ∧
   ¬ consistent 0 (Py.slice_1_m1 Sample.twice)).
Proof.
  intros R R2.
  assert (standings 0 Sample.table = Ok R) as H1 by (vm_compute; reflexivity).
  assert (standings 0 Sample.twice = Ok R2) as H2 by (vm_compute; reflexivity).
  destruct (standings_partition 0 Sample.table R H1) as (Hu1 & Hd1 & _).
  destruct (standings_partition 0 Sample.twice R2 H2) as (Hu2 & Hd2 & _).
  split.
  - split; [exact Hu1|]. apply Hd1. exact sample_table_consistent.
  - split; [exact Hu2|]. intros Hc. apply Hd2 in Hc as (Hc & _).
    assert ("alice" ∈ ({["alice"]} : gset string)) as Hin
      by (apply elem_of_singleton; reflexivity).
    exact (Hc "alice" Hin Hin).
Defined.

(** ** Ordering of datetimes *)

Lemma lex_compare_refl a : Datetime.lex_compare a a = Eq.
Proof. induction a as [|x a IH]; simpl; [done|]. by rewrite N.compare_refl. Qed.

Lemma lex_compare_antisym a : ∀ b,
  Datetime.lex_compare b a = CompOpp (Datetime.lex_compare a b).
Proof.
  induction a as [|x a IH]; intros [|y b]; simpl; try done.
  rewrite (N.compare_antisym x y). destruct (x ?= y); simpl; auto.
Qed.

Lemma lex_compare_trans a : ∀ b c,
  Datetime.lex_compare a b ≠ Gt → Datetime.lex_compare b c ≠ Gt →
  Datetime.lex_compare a c ≠ Gt.
Proof.
  induction a as [|x a IH]; intros [|y b] [|z c]; simpl; try done.
  destruct (N.compare_spec x y) as [Hxy|Hxy|Hxy],
    (N.compare_spec y z) as [Hyz|Hyz|Hyz]; subst; try done.
  - rewrite N.compare_refl. apply IH.
  - intros _ _. by apply N.compare_lt_iff in Hyz as ->.
  - intros _ _. by apply N.compare_lt_iff in Hxy as ->.
  - intros _ _. assert (x < z) as ->%N.compare_lt_iff by lia. done.
Qed.

Lemma ltb_irrefl t : Datetime.ltb t t = false.
Proof. unfold Datetime.ltb, Datetime.compare. by rewrite lex_compare_refl. Qed.

(** [ltb b a = false] reads [a ≤ b]. *)
Lemma ltb_false_trans a b c :
  Datetime.ltb b a = false → Datetime.ltb c b = false → Datetime.ltb c a = false.
Proof.
  unfold Datetime.ltb, Datetime.compare. intros Hab Hbc.
  pose proof (lex_compare_trans (Datetime.fields a) (Datetime.fields b)
                (Datetime.fields c)) as Ht.
  rewrite (lex_compare_antisym (Datetime.fields a) (Datetime.fields b)) in Hab.
  rewrite (lex_compare_antisym (Datetime.fields b) (Datetime.fields c)) in Hbc.
  rewrite (lex_compare_antisym (Datetime.fields a) (Datetime.fields c)).
  destruct (Datetime.lex_compare (Datetime.fields a) (Datetime.fields b)),
    (Datetime.lex_compare (Datetime.fields b) (Datetime.fields c)),
    (Datetime.lex_compare (Datetime.fields a) (Datetime.fields c));
    simpl in *; try done; exfalso; apply Ht; done.
Qed.

(** ** The submission scan *)

Import Scan.

Section ScanFacts.

Variable today : date.
Variables start_time end_time : datetime.
Variable R : Roster.

Abbreviation scan_row := (Scan.scan_row today start_time end_time R).
Abbreviation scan_rows := (Scan.scan_rows today start_time end_time R).
Abbreviation scan_pages := (Scan.scan_pages today start_time end_time R).
Abbreviation scan := (Scan.scan today start_time end_time R).
Abbreviation stops := (Scan.stops today start_time).
Abbreviation submit_time := (Scan.submit_time today).
Abbreviation submitted_by := (Scan.submitted_by today).
Abbreviation before_stop := (Scan.before_stop today start_time).
Abbreviation scanned_from := (Scan.scanned_from today start_time).
Abbreviation scanned := (Scan.scanned today start_time).
Abbreviation record_row := (Scan.record_row end_time R).
Abbreviation times := (Scan.times today).
Abbreviation newest_first := (Scan.newest_first today).

Implicit Types (st : ScanState) (r : SubmissionRow).
Implicit Types (feed : nat → result (list SubmissionRow)).

Lemma scan_row_stops st r : stops r = true → scan_row st r = Break st.
Proof.
  unfold Scan.stops, Scan.scan_row.
  destruct (is_testcases_row r); simpl; [done|].
  destruct (submit_time r) as [t|]; [|done]. by intros ->.
Qed.

Lemma scan_row_break st r st' :
  scan_row st r = Break st' → stops r = true ∧ st' = st.
Proof.
  unfold Scan.stops, Scan.scan_row.
  destruct (is_testcases_row r); simpl; [done|].
  destruct (submit_time r) as [t|]; [|done].
  destruct (Datetime.ltb t start_time); [by intros [= ->]|].
  destruct (sub_author r) as [a|]; [|done].
  unfold Scan.record_row. case_bool_decide; [|done].
  by destruct (if bool_decide (Py.strip a ∈ accepted R) then _ else _).
Qed.

Lemma scan_rows_app st l1 l2 :
  scan_rows st (l1 ++ l2) =
  match scan_rows st l1 with
  | Next st' => scan_rows st' l2
  | other => other
  end.
Proof.
  revert st. induction l1 as [|r l1 IH]; intros st; simpl; [done|].
  destruct (scan_row st r); auto.
Qed.

Lemma scan_rows_no_break st l st' :
  Forall (λ r, stops r = false) l → scan_rows st l ≠ Break st'.
Proof.
  intros Hl. revert st. induction Hl as [|r l Hr _ IH]; intros st; simpl; [done|].
  destruct (scan_row st r) as [st1|st1|e] eqn:Hrow; [apply IH| |done].
  apply scan_row_break in Hrow as [Hs _]. congruence.
Qed.

(** The loop leaves at a row that [stops], with what the rows before it
    have produced. *)
Lemma scan_rows_at_stop st pre r post :
  Forall (λ x, stops x = false) pre → stops r = true →
  scan_rows st (pre ++ r :: post) =
  match scan_rows st pre with
  | Next st' => Break st'
  | other => other
  end.
Proof.
  intros Hpre Hr. rewrite scan_rows_app.
  destruct (scan_rows st pre) eqn:Hp; [|done..].
  simpl. by rewrite scan_row_stops.
Qed.

Lemma before_stop_found l pre :
  before_stop l = (pre, true) →
  Forall (λ x, stops x = false) pre ∧
  ∃ r post, l = pre ++ r :: post ∧ stops r = true.
Proof.
  revert pre. induction l as [|x l IH]; intros pre; simpl; [done|].
  destruct (stops x) eqn:Hx.
  - intros [= <-]. split; [constructor|]. by exists x, l.
  - destruct (before_stop l) as [pre' found]. intros [= <- ->].
    destruct (IH pre' eq_refl) as (Hpre & r & post & -> & Hr).
    split; [by constructor|]. by exists r, post.
Qed.

Lemma before_stop_none l pre :
  before_stop l = (pre, false) → pre = l ∧ Forall (λ x, stops x = false) l.
Proof.
  revert pre. induction l as [|x l IH]; intros pre; simpl.
  - intros [= <-]. by split.
  - destruct (stops x) eqn:Hx; [done|].
    destruct (before_stop l) as [pre' found]. intros [= <- ->].
    destruct (IH pre' eq_refl) as [-> Hl]. split; [done|by constructor].
Qed.

(** A scan that ends normally has run the loop body over the rows of
    [scanned_from], to its end and without leaving the loop. *)
Lemma scan_pages_scanned feed fuel : ∀ page st st',
  scan_pages feed fuel page st = Some (Ok st') →
  scan_rows st (scanned_from feed fuel page) = Next st' ∧
  Forall (λ x, stops x = false) (scanned_from feed fuel page).
Proof.
  induction fuel as [|fuel IH]; intros page st st'; simpl; [done|].
  destruct (feed page) as [l|]; [|done].
  destruct (before_stop l) as [pre found] eqn:Hb. destruct found.
  - apply before_stop_found in Hb as (Hpre & r & post & -> & Hr).
    rewrite scan_rows_at_stop by done.
    destruct (scan_rows st pre) as [st1|st1|e] eqn:Hp; [| |done].
    + by intros [= <-].
    + by apply scan_rows_no_break in Hp.
  - apply before_stop_none in Hb as [-> Hl].
    destruct (scan_rows st l) as [st1|st1|e] eqn:Hp; [| |done].
    + intros Hrest. apply IH in Hrest as [Hrest Hnone].
      rewrite scan_rows_app, Hp. split; [done|]. by apply Forall_app.
    + by apply scan_rows_no_break in Hp.
Qed.

(** *** One row *)

Lemma submitted_by_dec r u :
  (∃ t, submitted_by r u t) ∨ (∀ t, ¬ submitted_by r u t).
Proof.
  unfold Scan.submitted_by.
  destruct (is_testcases_row r); [right; intros t (? & _); done|].
  destruct (submit_time r) as [t|e]; [|right; intros t (_ & ? & _); done].
  destruct (decide (Scan.row_author r = Some u)) as [Hu|Hu].
  - left. by exists t.
  - right. intros t' (_ & _ & ?). done.
Qed.

Lemma submitted_by_inj r u t u' t' :
  submitted_by r u t → submitted_by r u' t' → u = u' ∧ t = t'.
Proof. intros (_ & Ht & Hu) (_ & Ht' & Hu'). split; congruence. Qed.

(** A row that is not left at is either passed over or recorded. *)
Lemma scan_row_next st r st' :
  scan_row st r = Next st' →
  (st' = st ∧ ∀ u t, ¬ submitted_by r u t) ∨
  (∃ u t, submitted_by r u t ∧ record_row st r t u = Next st').
Proof.
  unfold Scan.scan_row, Scan.submitted_by, Scan.row_author.
  destruct (is_testcases_row r).
  { intros [= <-]. left. split; [done|]. intros u t (? & _). done. }
  destruct (submit_time r) as [t|]; [|done].
  destruct (Datetime.ltb t start_time); [done|].
  destruct (sub_author r) as [a|]; simpl.
  - intros Hrec. right. by exists (Py.strip a), t.
  - intros [= <-]. left. split; [done|]. intros u t' (_ & _ & ?). done.
Qed.

(** Lines 249-262 in terms of the variables they update. *)
Lemma record_row_next st r t u st' :
  record_row st r t u = Next st' →
  author st' = Some u ∧
  late_submission st' =
    (if Datetime.gtb t end_time && bool_decide (u ∈ no_submission R)
     then {[u]} ∪ late_submission st else late_submission st) ∧
  red_plagiarism st' =
    (if bool_decide (u ∈ student_list R) && sub_red r
     then {[u]} ∪ red_plagiarism st else red_plagiarism st) ∧
  yellow_plagiarism st' =
    (if bool_decide (u ∈ student_list R) && sub_yellow r
     then {[u]} ∪ yellow_plagiarism st else yellow_plagiarism st) ∧
  (u ∈ accepted R →
     ∃ id_, sub_id r = Some id_ ∧
            submission_dict st' = <[u := Py.strip id_]> (submission_dict st)) ∧
  (u ∉ accepted R → submission_dict st' = submission_dict st).
Proof.
  unfold Scan.record_row, student_list.
  case_bool_decide as Hin; simpl.
  - case_bool_decide as Hacc; simpl.
    + destruct (sub_id r) as [id_|]; simpl; [|done].
      intros [= <-]; simpl. repeat split; [by eauto|done].
    + intros [= <-]; simpl. repeat split; done.
  - intros [= <-]; simpl.
    rewrite bool_decide_false by set_solver. rewrite andb_false_r.
    repeat split. intros ?. set_solver.
Qed.

(** *** The sets after a run of rows *)

Lemma scan_rows_late l : ∀ st st',
  scan_rows st l = Next st' →
  ∀ u, u ∈ late_submission st' ↔
       u ∈ late_submission st ∨
       ∃ r t, r ∈ l ∧ submitted_by r u t ∧
              Datetime.gtb t end_time = true ∧ u ∈ no_submission R.
Proof.
  induction l as [|r l IH]; intros st st'; simpl.
  - intros [= <-] u. split; [auto|]. intros [?|(r & t & Hr & _)]; [done|].
    inversion Hr.
  - destruct (scan_row st r) as [st1| |] eqn:Hrow; [|done..].
    intros Hrest u. rewrite (IH _ _ Hrest u).
    apply scan_row_next in Hrow as [[-> Hno]|(a & t & Hby & Hrec)].
    + split; (intros [?|(x & t & Hx & Hxby & ?)]; [by left|right]).
      * exists x, t. rewrite elem_of_cons. auto.
      * apply elem_of_cons in Hx as [->|Hx]; [by apply Hno in Hxby|].
        by exists x, t.
    + apply record_row_next in Hrec as (_ & -> & _).
      split.
      * intros [Hu|(x & t' & Hx & Hxby & ?)].
        -- destruct (Datetime.gtb t end_time) eqn:Hgt; simpl in Hu; [|by left].
           case_bool_decide as Hns; [|by left].
           apply elem_of_union in Hu as [->%elem_of_singleton|Hu]; [|by left].
           right. exists r, t. rewrite elem_of_cons. auto.
        -- right. exists x, t'. rewrite elem_of_cons. auto.
      * intros [Hu|(x & t' & [->|Hx]%elem_of_cons & Hxby & Hgt & Hns)].
        -- left. destruct (_ && _); [|done]. apply elem_of_union. by right.
        -- destruct (submitted_by_inj _ _ _ _ _ Hby Hxby) as [-> ->].
           left. rewrite Hgt, bool_decide_true by done. simpl.
           apply elem_of_union. left. by apply elem_of_singleton.
        -- right. by exists x, t'.
Qed.

(** One statement for the two plagiarism sets: [flag] is [sub_red] with
    [proj] the red set, or [sub_yellow] with the yellow one. *)
Lemma scan_rows_flagged (flag : SubmissionRow → bool)
    (proj : ScanState → gset string) :
  (∀ st r t u st', record_row st r t u = Next st' →
     proj st' = if bool_decide (u ∈ student_list R) && flag r
                then {[u]} ∪ proj st else proj st) →
  ∀ l st st',
  scan_rows st l = Next st' →
  ∀ u, u ∈ proj st' ↔
       u ∈ proj st ∨
       ∃ r t, r ∈ l ∧ submitted_by r u t ∧
              u ∈ student_list R ∧ flag r = true.
Proof.
  intros Hproj. induction l as [|r l IH]; intros st st'; simpl.
  - intros [= <-] u. split; [auto|]. intros [?|(r & t & Hr & _)]; [done|].
    inversion Hr.
  - destruct (scan_row st r) as [st1| |] eqn:Hrow; [|done..].
    intros Hrest u. rewrite (IH _ _ Hrest u).
    apply scan_row_next in Hrow as [[-> Hno]|(a & t & Hby & Hrec)].
    + split; (intros [?|(x & t & Hx & Hxby & ?)]; [by left|right]).
      * exists x, t. rewrite elem_of_cons. auto.
      * apply elem_of_cons in Hx as [->|Hx]; [by apply Hno in Hxby|].
        by exists x, t.
    + rewrite (Hproj _ _ _ _ _ Hrec).
      split.
      * intros [Hu|(x & t' & Hx & Hxby & ?)].
        -- case_bool_decide as Hin; simpl in Hu; [|by left].
           destruct (flag r) eqn:Hf; [|by left].
           apply elem_of_union in Hu as [->%elem_of_singleton|Hu]; [|by left].
           right. exists r, t. rewrite elem_of_cons. auto.
        -- right. exists x, t'. rewrite elem_of_cons. auto.
      * intros [Hu|(x & t' & [->|Hx]%elem_of_cons & Hxby & Hin & Hf)].
        -- left. destruct (_ && _); [|done]. apply elem_of_union. by right.
        -- destruct (submitted_by_inj _ _ _ _ _ Hby Hxby) as [-> ->].
           left. rewrite Hf, bool_decide_true by done. simpl.
           apply elem_of_union. left. by apply elem_of_singleton.
        -- right. by exists x, t'.
Qed.

Lemma scan_rows_red l st st' :
  scan_rows st l = Next st' →
  ∀ u, u ∈ red_plagiarism st' ↔
       u ∈ red_plagiarism st ∨
       ∃ r t, r ∈ l ∧ submitted_by r u t ∧
              u ∈ student_list R ∧ sub_red r = true.
Proof.
  apply (scan_rows_flagged sub_red red_plagiarism).
  intros ????? Hrec. by apply record_row_next in Hrec as (_ & _ & -> & _).
Qed.

Lemma scan_rows_yellow l st st' :
  scan_rows st l = Next st' →
  ∀ u, u ∈ yellow_plagiarism st' ↔
       u ∈ yellow_plagiarism st ∨
       ∃ r t, r ∈ l ∧ submitted_by r u t ∧
              u ∈ student_list R ∧ sub_yellow r = true.
Proof.
  apply (scan_rows_flagged sub_yellow yellow_plagiarism).
  intros ????? Hrec. by apply record_row_next in Hrec as (_ & _ & _ & -> & _).
Qed.

(** *** The dictionary after a run of rows *)

Lemma scan_rows_dict_keep u l : ∀ st st',
  scan_rows st l = Next st' →
  (∀ x t, x ∈ l → ¬ submitted_by x u t) →
  submission_dict st' !! u = submission_dict st !! u.
Proof.
  induction l as [|r l IH]; intros st st'; simpl; [by intros [= <-]|].
  destruct (scan_row st r) as [st1| |] eqn:Hrow; [|done..].
  intros Hrest Hno. rewrite (IH _ _ Hrest).
  2:{ intros x t Hx. apply Hno. by right. }
  apply scan_row_next in Hrow as [[-> _]|(a & t & Hby & Hrec)]; [done|].
  assert (a ≠ u) as Hne.
  { intros ->. by apply (Hno r t); [left|]. }
  apply record_row_next in Hrec as (_ & _ & _ & _ & Hacc & Hnacc).
  destruct (decide (a ∈ accepted R)) as [Ha|Ha].
  - destruct (Hacc Ha) as (id_ & _ & ->). by rewrite lookup_insert_ne.
  - by rewrite (Hnacc Ha).
Qed.

Lemma scan_rows_dict_source l : ∀ st st' u v,
  scan_rows st l = Next st' →
  submission_dict st' !! u = Some v →
  submission_dict st !! u = Some v ∨
  (u ∈ accepted R ∧
   ∃ r t id_, r ∈ l ∧ submitted_by r u t ∧
              sub_id r = Some id_ ∧ v = Py.strip id_).
Proof.
  induction l as [|r l IH]; intros st st' u v; simpl.
  { intros [= <-]. by left. }
  destruct (scan_row st r) as [st1| |] eqn:Hrow; [|done..].
  intros Hrest Hv.
  destruct (IH _ _ _ _ Hrest Hv) as [Hv1|(Hu & x & t & id_ & Hx & ?)].
  2:{ right. split; [done|]. exists x, t, id_. rewrite elem_of_cons. auto. }
  apply scan_row_next in Hrow as [[-> _]|(a & t & Hby & Hrec)]; [by left|].
  apply record_row_next in Hrec as (_ & _ & _ & _ & Hacc & Hnacc).
  destruct (decide (a ∈ accepted R)) as [Ha|Ha].
  - destruct (Hacc Ha) as (id_ & Hid & Hd). rewrite Hd in Hv1.
    destruct (decide (a = u)) as [->|Hne].
    + rewrite lookup_insert_eq in Hv1. injection Hv1 as <-.
      right. split; [done|]. exists r, t, id_. rewrite elem_of_cons. auto.
    + rewrite lookup_insert_ne in Hv1 by done. by left.
  - rewrite (Hnacc Ha) in Hv1. by left.
Qed.

(** Last write wins: the entry of [u] is the one written at the last row
    by [u]. *)
Lemma scan_rows_dict_last pre r post st st' u t :
  scan_rows st (pre ++ r :: post) = Next st' →
  submitted_by r u t → u ∈ accepted R →
  (∀ x t', x ∈ post → ¬ submitted_by x u t') →
  ∃ id_, sub_id r = Some id_ ∧ submission_dict st' !! u = Some (Py.strip id_).
Proof.
  rewrite scan_rows_app.
  destruct (scan_rows st pre) as [st1| |]; [|done..]. simpl.
  destruct (scan_row st1 r) as [st2| |] eqn:Hrow; [|done..].
  intros Hpost Hby Hu Hno.
  rewrite (scan_rows_dict_keep u _ _ _ Hpost Hno).
  apply scan_row_next in Hrow as [[_ Hnone]|(a & t' & Hby' & Hrec)].
  { by apply Hnone in Hby. }
  destruct (submitted_by_inj _ _ _ _ _ Hby Hby') as [<- <-].
  apply record_row_next in Hrec as (_ & _ & _ & _ & Hacc & _).
  destruct (Hacc Hu) as (id_ & Hid & ->).
  exists id_. by rewrite lookup_insert_eq.
Qed.

Lemma last_submitted_by u l :
  (∃ r t, r ∈ l ∧ submitted_by r u t) →
  ∃ pre r post t,
    l = pre ++ r :: post ∧ submitted_by r u t ∧
    ∀ x t', x ∈ post → ¬ submitted_by x u t'.
Proof.
  induction l as [|x l IH] using rev_ind.
  { intros (r & t & Hr & _). inversion Hr. }
  intros (r & t & Hr & Hby).
  destruct (submitted_by_dec x u) as [[tx Hx]|Hx].
  - exists l, x, [], tx. repeat split; [apply Hx..|].
    intros y t' Hy. inversion Hy.
  - apply elem_of_app in Hr as [Hr|Hr%list_elem_of_singleton].
    2:{ subst. by apply Hx in Hby. }
    destruct IH as (pre & r' & post & t' & -> & Hby' & Hno); [by eauto|].
    exists pre, r', (post ++ [x]), t'. rewrite <- app_assoc. simpl.
    repeat split; [apply Hby'..|].
    intros y ty [Hy|Hy%list_elem_of_singleton]%elem_of_app; [by eapply Hno|].
    subst. apply Hx.
Qed.

(** *** Pages *)

Lemma before_stop_all l :
  Forall (λ x, stops x = false) l → before_stop l = (l, false).
Proof.
  induction 1 as [|x l Hx _ IH]; simpl; [done|]. by rewrite Hx, IH.
Qed.

Lemma before_stop_at pre r post :
  Forall (λ x, stops x = false) pre → stops r = true →
  before_stop (pre ++ r :: post) = (pre, true).
Proof.
  induction 1 as [|x l Hx _ IH]; simpl; intros Hr; [by rewrite Hr|].
  by rewrite Hx, IH.
Qed.

(** Pages without a row that [stops] are gone through one after the other. *)
Lemma scan_pages_through feed pages : ∀ fuel page st,
  (∀ i rows, pages !! i = Some rows → feed (page + i)%nat = Ok rows) →
  Forall (λ x, stops x = false) (concat pages) →
  scan_pages feed (length pages + fuel) page st =
  match scan_rows st (concat pages) with
  | Next st' => scan_pages feed fuel (page + length pages) st'
  | Break st' => Some (Ok st')
  | Fail e => Some (Raise e)
  end.
Proof.
  induction pages as [|rows pages IH]; intros fuel page st Hfeed Hno; simpl.
  { by rewrite Nat.add_0_r. }
  rewrite <- (Nat.add_0_r page) at 1. rewrite (Hfeed 0%nat rows eq_refl).
  apply Forall_app in Hno as [Hrows Hrest].
  rewrite scan_rows_app.
  destruct (scan_rows st rows) as [st1| |]; [|done..].
  rewrite IH; [|intros i l Hl; rewrite <- (Hfeed (S i) l Hl); f_equal; lia|done].
  by rewrite Nat.add_succ_r.
Qed.

Lemma scanned_from_through feed pages : ∀ fuel page,
  (∀ i rows, pages !! i = Some rows → feed (page + i)%nat = Ok rows) →
  Forall (λ x, stops x = false) (concat pages) →
  scanned_from feed (length pages + fuel) page =
  concat pages ++ scanned_from feed fuel (page + length pages).
Proof.
  induction pages as [|rows pages IH]; intros fuel page Hfeed Hno; simpl.
  { by rewrite Nat.add_0_r. }
  rewrite <- (Nat.add_0_r page) at 1. rewrite (Hfeed 0%nat rows eq_refl).
  apply Forall_app in Hno as [Hrows Hrest].
  rewrite before_stop_all by done.
  rewrite IH; [|intros i l Hl; rewrite <- (Hfeed (S i) l Hl); f_equal; lia|done].
  by rewrite Nat.add_succ_r, app_assoc.
Qed.

Lemma stops_ext r r' :
  sub_class r' = sub_class r → sub_time r' = sub_time r → stops r' = stops r.
Proof.
  unfold Scan.stops, is_testcases_row, Scan.submit_time. by intros -> ->.
Qed.

Lemma scan_reaches_stop feed fuel pages pre r post :
  (∀ i rows, pages !! i = Some rows → feed i = Ok rows) →
  feed (length pages) = Ok (pre ++ r :: post) →
  stops r = true →
  Forall (λ x, stops x = false) (concat pages ++ pre) →
  (length pages < fuel)%nat →
  scan feed fuel = Some (finish (scan_rows scan_init (concat pages ++ pre))) ∧
  scanned feed fuel = concat pages ++ pre.
Proof.
  intros Hfeed Hlast Hr Hno Hfuel.
  apply Forall_app in Hno as [Hpages Hpre].
  unfold Scan.scan, Scan.scanned.
  replace fuel with (length pages + S (fuel - S (length pages)))%nat by lia.
  rewrite scan_pages_through, scanned_from_through by done.
  rewrite scan_rows_app. simpl. rewrite Hlast.
  rewrite before_stop_at by done. split; [|done].
  destruct (scan_rows scan_init (concat pages)) as [st1|st1|e] eqn:Hp; [| |done].
  - rewrite scan_rows_at_stop by done.
    by destruct (scan_rows st1 pre).
  - by apply scan_rows_no_break in Hp.
Qed.

(** *** The scan as a whole *)

Lemma scan_scanned feed fuel st :
  scan feed fuel = Some (Ok st) →
  scan_rows scan_init (scanned feed fuel) = Next st ∧
  Forall (λ x, stops x = false) (scanned feed fuel).
Proof. apply scan_pages_scanned. Qed.

(** Rows that are read to the end: the loop body goes on after each. *)
Lemma scan_rows_runs l : ∀ st,
  (∀ x, x ∈ l → is_testcases_row x = false →
        ∃ t, submit_time x = Ok t ∧ Datetime.ltb t start_time = false) →
  (∀ x u t, x ∈ l → submitted_by x u t → u ∈ accepted R →
            is_Some (sub_id x)) →
  ∃ st', scan_rows st l = Next st'.
Proof.
  induction l as [|r l IH]; intros st Htime Hid; simpl; [by eauto|].
  assert (∃ st1, scan_row st r = Next st1) as [st1 ->].
  { unfold Scan.scan_row.
    destruct (is_testcases_row r) eqn:Htc; [by eauto|].
    destruct (Htime r) as (t & Ht & Hlt); [by left|done|].
    rewrite Ht, Hlt.
    destruct (sub_author r) as [a|] eqn:Ha; [|by eauto].
    unfold Scan.record_row. case_bool_decide; [|by eauto].
    case_bool_decide as Hacc; [|by eauto].
    destruct (Hid r (Py.strip a) t) as [id_ ->]; [by left| |done|by eauto].
    unfold Scan.submitted_by, Scan.row_author. by rewrite Ha. }
  apply IH.
  - intros x Hx. apply Htime. by right.
  - intros x u t Hx. apply Hid. by right.
Qed.

(** The dictionary after a run of rows from the start: the entry of [u] is
    the stripped id of the last row by [u]. *)
Lemma scan_rows_dict_exact l st' u v :
  scan_rows scan_init l = Next st' →
  submission_dict st' !! u = Some v ↔
  u ∈ accepted R ∧
  ∃ before x after t id_,
    l = before ++ x :: after ∧ submitted_by x u t ∧
    (∀ y t', y ∈ after → ¬ submitted_by y u t') ∧
    sub_id x = Some id_ ∧ v = Py.strip id_.
Proof.
  intros Hrows. split.
  - intros Hv.
    destruct (scan_rows_dict_source _ _ _ _ _ Hrows Hv)
      as [He|(Hu & r & t & id_ & Hr & Hby & _)].
    { simpl in He. by rewrite lookup_empty in He. }
    split; [done|].
    destruct (last_submitted_by u l) as (before & x & after & tx & Hl & Hx & Hno);
      [by eauto|].
    rewrite Hl in Hrows.
    destruct (scan_rows_dict_last _ _ _ _ _ _ _ Hrows Hx Hu Hno)
      as (idx & Hidx & Hd).
    exists before, x, after, tx, idx.
    refine (conj Hl (conj Hx (conj Hno (conj Hidx _)))). congruence.
  - intros (Hu & before & x & after & t & id_ & -> & Hby & Hno & Hid & ->).
    destruct (scan_rows_dict_last _ _ _ _ _ _ _ Hrows Hby Hu Hno)
      as (idx & Hidx & Hd).
    congruence.
Qed.

(** C2.  Let [r] be the first row of the feed that is a submission row with
    a timestamp strictly before [start_time], on the page after [pages]: the
    submission rows before it have a readable timestamp that is not before
    [start_time] (it may be [start_time] itself), and an id where the author
    is in [accepted].  Then the scan ends at [r], however many pages it could
    still request.  Every row before [r] has been processed and nothing else
    has: the four collections hold exactly what the rows before [r]
    contribute.  The outcome is the same for any feed that has the same rows
    before [r] and a row with the class and timestamp of [r] in its place,
    whatever the other fields of that row, the rows after it and the later
    pages are.  Rows need not even be in decreasing order. *)
Theorem scan_stops_at_first_old_row feed fuel pages pre r post tr :
  (∀ i rows, pages !! i = Some rows → feed i = Ok rows) →
  feed (length pages) = Ok (pre ++ r :: post) →
  is_testcases_row r = false →
  submit_time r = Ok tr →
  Datetime.ltb tr start_time = true →
  (∀ x, x ∈ concat pages ++ pre → is_testcases_row x = false →
        ∃ t, submit_time x = Ok t ∧ Datetime.ltb t start_time = false) →
  (∀ x u t, x ∈ concat pages ++ pre → submitted_by x u t → u ∈ accepted R →
            is_Some (sub_id x)) →
  (length pages < fuel)%nat →
  ∃ st,
    scan feed fuel = Some (Ok st) ∧
    (∀ u, u ∈ late_submission st ↔
          ∃ x t, x ∈ concat pages ++ pre ∧ submitted_by x u t ∧
                 Datetime.gtb t end_time = true ∧ u ∈ no_submission R) ∧
    (∀ u, u ∈ red_plagiarism st ↔
          ∃ x t, x ∈ concat pages ++ pre ∧ submitted_by x u t ∧
                 u ∈ student_list R ∧ sub_red x = true) ∧
    (∀ u, u ∈ yellow_plagiarism st ↔
          ∃ x t, x ∈ concat pages ++ pre ∧ submitted_by x u t ∧
                 u ∈ student_list R ∧ sub_yellow x = true) ∧
    (∀ u v, submission_dict st !! u = Some v ↔
            u ∈ accepted R ∧
            ∃ before x after t id_,
              concat pages ++ pre = before ++ x :: after ∧
              submitted_by x u t ∧
              (∀ y t', y ∈ after → ¬ submitted_by y u t') ∧
              sub_id x = Some id_ ∧ v = Py.strip id_) ∧
    (∀ feed' fuel' r' post',
       (∀ i rows, pages !! i = Some rows → feed' i = Ok rows) →
       feed' (length pages) = Ok (pre ++ r' :: post') →
       sub_class r' = sub_class r → sub_time r' = sub_time r →
       (length pages < fuel')%nat →
       scan feed' fuel' = scan feed fuel).
Proof.
  intros Hfeed Hlast Htc Htr Hlt Htime Hid Hfuel.
  assert (stops r = true) as Hr.
  { unfold Scan.stops. by rewrite Htc, Htr. }
  assert (Forall (λ x, stops x = false) (concat pages ++ pre)) as Hno.
  { apply Forall_forall. intros x Hx. unfold Scan.stops.
    destruct (is_testcases_row x) eqn:Hx'; [done|].
    by destruct (Htime x Hx Hx') as (t & -> & ->). }
  destruct (scan_reaches_stop _ _ _ _ _ _ Hfeed Hlast Hr Hno Hfuel)
    as [Hscan _].
  destruct (scan_rows_runs _ scan_init Htime Hid) as [st Hst].
  exists st. rewrite Hscan, Hst. split; [done|].
  split; [|split; [|split; [|split]]].
  - intros u. rewrite (scan_rows_late _ _ _ Hst u). simpl.
    rewrite elem_of_empty. tauto.
  - intros u. rewrite (scan_rows_red _ _ _ Hst u). simpl.
    rewrite elem_of_empty. tauto.
  - intros u. rewrite (scan_rows_yellow _ _ _ Hst u). simpl.
    rewrite elem_of_empty. tauto.
  - intros u v. by apply scan_rows_dict_exact.
  - intros feed' fuel' r' post' Hfeed' Hlast' Hcls Htime' Hfuel'.
    rewrite <- Hst.
    apply (scan_reaches_stop _ _ _ _ _ _ Hfeed' Hlast'); [|done..].
    by rewrite (stops_ext r r').
Qed.

(** C3.  After the scan, [late_submission] is a subset of [no_submission]:
    it holds exactly the members of [no_submission] who are the author of a
    scanned submission row with a time after [end_time]. *)
Theorem late_submission_subset feed fuel st :
  scan feed fuel = Some (Ok st) →
  late_submission st ⊆ no_submission R ∧
  ∀ u, u ∈ late_submission st ↔
       ∃ r t, r ∈ scanned feed fuel ∧ submitted_by r u t ∧
              Datetime.gtb t end_time = true ∧ u ∈ no_submission R.
Proof.
  intros [Hrows _]%scan_scanned.
  pose proof (scan_rows_late _ _ _ Hrows) as Hlate.
  assert (∀ u, u ∈ late_submission st ↔
       ∃ r t, r ∈ scanned feed fuel ∧ submitted_by r u t ∧
              Datetime.gtb t end_time = true ∧ u ∈ no_submission R) as Hiff.
  { intros u. rewrite Hlate. simpl. split; [|by right].
    intros [Hu|?]; [|done]. by apply not_elem_of_empty in Hu. }
  split; [|done].
  intros u (_ & _ & _ & _ & _ & Hu)%Hiff. done.
Qed.

(** C4, as amended.  The keys of the final [submission_dict] are the members
    of [accepted] who are the author of a scanned submission row, and every
    value is the stripped submission id of a scanned submission row by its
    key.  The verdict of the row plays no part in the scan: the row is an
    accepted one when the feed holds accepted rows only. *)
Theorem accepted_map_entries feed fuel st :
  scan feed fuel = Some (Ok st) →
  (∀ u, is_Some (submission_dict st !! u) ↔
        u ∈ accepted R ∧ ∃ r t, r ∈ scanned feed fuel ∧ submitted_by r u t) ∧
  (∀ u v, submission_dict st !! u = Some v →
          u ∈ accepted R ∧
          ∃ r t id_, r ∈ scanned feed fuel ∧ submitted_by r u t ∧
                     sub_id r = Some id_ ∧ v = Py.strip id_ ∧
                     (Forall (λ x, sub_accepted x = true) (scanned feed fuel) →
                      sub_accepted r = true)).
Proof.
  intros [Hrows _]%scan_scanned.
  assert (∀ u v, submission_dict st !! u = Some v →
          u ∈ accepted R ∧
          ∃ r t id_, r ∈ scanned feed fuel ∧ submitted_by r u t ∧
                     sub_id r = Some id_ ∧ v = Py.strip id_ ∧
                     (Forall (λ x, sub_accepted x = true) (scanned feed fuel) →
                      sub_accepted r = true)) as Hsrc.
  { intros u v Hv.
    destruct (scan_rows_dict_source _ _ _ _ _ Hrows Hv)
      as [He|(Hu & r & t & id_ & Hr & Hby & Hid & ->)].
    { simpl in He. by rewrite lookup_empty in He. }
    split; [done|]. exists r, t, id_. repeat split; try done; try apply Hby.
    intros Hall. rewrite Forall_forall in Hall. by apply Hall. }
  split; [|done].
  intros u. split.
  - intros [v (Hu & r & t & _ & Hr & Hby & _)%Hsrc]. eauto.
  - intros [Hu Hex].
    destruct (last_submitted_by u _ Hex) as (pre & r & post & t & Heq & Hby & Hno).
    rewrite Heq in Hrows.
    destruct (scan_rows_dict_last _ _ _ _ _ _ _ Hrows Hby Hu Hno) as (id_ & _ & ->).
    eauto.
Qed.

Lemma times_app l1 l2 : times (l1 ++ l2) = times l1 ++ times l2.
Proof. apply omap_app. Qed.

Lemma elem_of_times x u t l : x ∈ l → submitted_by x u t → t ∈ times l.
Proof.
  intros Hx (Htc & Ht & _). apply list_elem_of_omap. exists x.
  by rewrite Htc, Ht.
Qed.

(** C5.  Let the scanned rows be newest first and let [u], a member of
    [accepted], be the author of a scanned submission row inside the contest
    window.  Then the final entry of [u] is the stripped id of the last
    scanned submission row by [u], whatever was written before; that row is
    the oldest scanned one by [u] and lies inside the window. *)
Theorem accepted_map_last_write feed fuel st u :
  scan feed fuel = Some (Ok st) →
  newest_first (scanned feed fuel) →
  u ∈ accepted R →
  (∃ r t, r ∈ scanned feed fuel ∧ submitted_by r u t ∧
          Datetime.gtb t end_time = false) →
  ∃ pre r post t id_,
    scanned feed fuel = pre ++ r :: post ∧
    submitted_by r u t ∧
    (∀ x t', x ∈ post → ¬ submitted_by x u t') ∧
    sub_id r = Some id_ ∧
    submission_dict st !! u = Some (Py.strip id_) ∧
    (∀ x t', x ∈ scanned feed fuel → submitted_by x u t' →
             Datetime.ltb t' t = false) ∧
    Datetime.ltb t start_time = false ∧ Datetime.gtb t end_time = false.
Proof.
  intros [Hrows Hnostop]%scan_scanned Hsorted Hu (r0 & t0 & Hr0 & Hby0 & Hwin).
  destruct (last_submitted_by u (scanned feed fuel)) as
    (pre & r & post & t & Heq & Hby & Hno); [by eauto|].
  rewrite Heq in Hrows.
  destruct (scan_rows_dict_last _ _ _ _ _ _ _ Hrows Hby Hu Hno)
    as (id_ & Hid & Hd).
  assert (Hold : ∀ x t', x ∈ scanned feed fuel → submitted_by x u t' →
                         Datetime.ltb t' t = false).
  { intros x t' Hx Hxby. rewrite Heq in Hx.
    apply elem_of_app in Hx as [Hx|[->|Hx]%elem_of_cons].
    - unfold Scan.newest_first in Hsorted. rewrite Heq, times_app in Hsorted.
      eapply (StronglySorted_app_1_elem_of _ _ _ t' t Hsorted).
      + by eapply elem_of_times.
      + eapply elem_of_times; [|done]. by left.
    - destruct (submitted_by_inj _ _ _ _ _ Hby Hxby) as [_ ->].
      apply ltb_irrefl.
    - by apply Hno in Hxby. }
  exists pre, r, post, t, id_. repeat split; try done; try apply Hby.
  - rewrite Forall_forall in Hnostop.
    assert (r ∈ scanned feed fuel) as Hr by (rewrite Heq; set_solver).
    specialize (Hnostop r Hr). destruct Hby as (Htc & Ht & _).
    unfold Scan.stops in Hnostop. by rewrite Htc, Ht in Hnostop.
  - unfold Datetime.gtb in *.
    eapply ltb_false_trans; [|exact Hwin]. by eapply Hold.
Qed.

Lemma sorted_set_spec (X : gset string) :
  StronglySorted String.le (sorted_set X) ∧ NoDup (sorted_set X) ∧
  ∀ u, u ∈ sorted_set X ↔ u ∈ X.
Proof.
  unfold sorted_set, Py.sorted. repeat split.
  - apply StronglySorted_merge_sort; apply _.
  - rewrite merge_sort_Permutation. apply NoDup_elements.
  - rewrite merge_sort_Permutation. apply elem_of_elements.
  - rewrite merge_sort_Permutation. apply elem_of_elements.
Qed.

(** C6.  A scanned submission row by a roster member that carries both
    markers puts its author in [red_plagiarism] and in [yellow_plagiarism];
    the yellow line of the report is the sorted list, without repetition, of
    the members of [yellow_plagiarism] that are not in [red_plagiarism]. *)
Theorem plagiarism_both_sets_yellow_line feed fuel st :
  scan feed fuel = Some (Ok st) →
  (∀ r u t, r ∈ scanned feed fuel → submitted_by r u t →
            u ∈ student_list R → sub_red r = true → sub_yellow r = true →
            u ∈ red_plagiarism st ∧ u ∈ yellow_plagiarism st) ∧
  ∃ line,
    report_line "Yellow Plagiarism Notices" R st = Some line ∧
    line = Py.sorted (elements (yellow_plagiarism st ∖ red_plagiarism st)) ∧
    StronglySorted String.le line ∧ NoDup line ∧
    (∀ u, u ∈ line ↔ u ∈ yellow_plagiarism st ∧ u ∉ red_plagiarism st).
Proof.
  intros [Hrows _]%scan_scanned. split.
  - intros r u t Hr Hby Hu Hred Hyellow. split.
    + apply (scan_rows_red _ _ _ Hrows). right. by exists r, t.
    + apply (scan_rows_yellow _ _ _ Hrows). right. by exists r, t.
  - exists (sorted_set (yellow_plagiarism st ∖ red_plagiarism st)).
    destruct (sorted_set_spec (yellow_plagiarism st ∖ red_plagiarism st))
      as (Hs & Hn & Hin).
    split; [reflexivity|]. split; [reflexivity|].
    split; [done|]. split; [done|].
    intros u. by rewrite Hin, elem_of_difference.
Qed.

(** C10.  After the scan, [red_plagiarism] and [yellow_plagiarism] hold
    roster members only; and a row whose author is not read, or is not in the
    roster, leaves both sets as they are. *)
Theorem plagiarism_within_roster feed fuel st :
  scan feed fuel = Some (Ok st) →
  red_plagiarism st ⊆ student_list R ∧
  yellow_plagiarism st ⊆ student_list R ∧
  ∀ st0 st1 r,
    row_author r = None ∨ (∃ a, row_author r = Some a ∧ a ∉ student_list R) →
    scan_row st0 r = Next st1 →
    red_plagiarism st1 = red_plagiarism st0 ∧
    yellow_plagiarism st1 = yellow_plagiarism st0.
Proof.
  intros [Hrows _]%scan_scanned. split; [|split].
  - intros u [Hu|(_ & _ & _ & _ & ? & _)]%(scan_rows_red _ _ _ Hrows); [|done].
    by apply not_elem_of_empty in Hu.
  - intros u [Hu|(_ & _ & _ & _ & ? & _)]%(scan_rows_yellow _ _ _ Hrows); [|done].
    by apply not_elem_of_empty in Hu.
  - intros st0 st1 r Hout Hrow.
    apply scan_row_next in Hrow as [[-> _]|(u & t & Hby & Hrec)]; [done|].
    assert (u ∉ student_list R) as Hu.
    { destruct Hby as (_ & _ & Hau).
      destruct Hout as [Hnone|(a & Ha & Hnot)]; congruence. }
    apply record_row_next in Hrec as (_ & _ & -> & -> & _).
    by rewrite bool_decide_false.
Qed.

End ScanFacts.

(** *** The scan on the sample feed *)

Lemma sample_scan :
  Scan.scan Sample.today Sample.start_time Sample.end_time Sample.roster
    Sample.feed 2 = Some (Ok Sample.final).
Proof. vm_compute. reflexivity. Qed.

Lemma scan_stops_at_first_old_row_witness :
  Scan.submit_time Sample.today
    (Sample.sub (Some "bob") "40" "09:00:00" true false true) =
    Ok Sample.start_time ∧
  ∃ st,
    Scan.scan Sample.today Sample.start_time Sample.end_time Sample.roster
      Sample.feed_edge 2 = Some (Ok st) ∧
    (∀ u, u ∈ late_submission st ↔
          ∃ x t, x ∈ concat [Sample.page0] ++ Sample.page1_edge ∧
                 Scan.submitted_by Sample.today x u t ∧
                 Datetime.gtb t Sample.end_time = true ∧
                 u ∈ no_submission Sample.roster) ∧
    (∀ u, u ∈ red_plagiarism st ↔
          ∃ x t, x ∈ concat [Sample.page0] ++ Sample.page1_edge ∧
                 Scan.submitted_by Sample.today x u t ∧
                 u ∈ student_list Sample.roster ∧ sub_red x = true) ∧
    (∀ u, u ∈ yellow_plagiarism st ↔
          ∃ x t, x ∈ concat [Sample.page0] ++ Sample.page1_edge ∧
                 Scan.submitted_by Sample.today x u t ∧
                 u ∈ student_list Sample.roster ∧ sub_yellow x = true) ∧
    (∀ u v, submission_dict st !! u = Some v ↔
            u ∈ accepted Sample.roster ∧
            ∃ before x after t id_,
              concat [Sample.page0] ++ Sample.page1_edge =
                before ++ x :: after ∧
              Scan.submitted_by Sample.today x u t ∧
              (∀ y t', y ∈ after → ¬ Scan.submitted_by Sample.today y u t') ∧
              sub_id x = Some id_ ∧ v = Py.strip id_) ∧
    (∀ feed' fuel' r' post',
       (∀ i rows, [Sample.page0] !! i = Some rows → feed' i = Ok rows) →
       feed' (length [Sample.page0]) = Ok (Sample.page1_edge ++ r' :: post') →
       sub_class r' = sub_class Sample.old_row →
       sub_time r' = sub_time Sample.old_row →
       (length [Sample.page0] < fuel')%nat →
       Scan.scan Sample.today Sample.start_time Sample.end_time Sample.roster
         feed' fuel' =
       Scan.scan Sample.today Sample.start_time Sample.end_time Sample.roster
         Sample.feed_edge 2).
Proof.
  split; [vm_compute; reflexivity|].
  apply (scan_stops_at_first_old_row Sample.today Sample.start_time
           Sample.end_time Sample.roster Sample.feed_edge 2 [Sample.page0]
           Sample.page1_edge Sample.old_row Sample.page1_after
           (mkdt 2024 1 5 8 59 59)).
  - intros [|i] rows; simpl; [|by destruct i]. by intros [= <-].
  - reflexivity.
  - reflexivity.
  - vm_compute; reflexivity.
  - vm_compute; reflexivity.
  - intros x Hx. apply list_elem_of_In in Hx. simpl in Hx.
    destruct Hx as [<-|[<-|[<-|[<-|[<-|[]]]]]]; intros Htc;
      try discriminate Htc; eexists; split; vm_compute; reflexivity.
  - intros x u t Hx. apply list_elem_of_In in Hx. simpl in Hx.
    destruct Hx as [<-|[<-|[<-|[<-|[<-|[]]]]]]; intros (Htc & _) _;
      try discriminate Htc; simpl; eauto.
  - simpl; lia.
Defined.

Lemma late_submission_subset_witness :
  late_submission Sample.final ⊆ no_submission Sample.roster ∧
  ∀ u, u ∈ late_submission Sample.final ↔
       ∃ r t, r ∈ Scan.scanned Sample.today Sample.start_time Sample.feed 2 ∧
              Scan.submitted_by Sample.today r u t ∧
              Datetime.gtb t Sample.end_time = true ∧
              u ∈ no_submission Sample.roster.
Proof.
  apply (late_submission_subset Sample.today Sample.start_time Sample.end_time
           Sample.roster Sample.feed 2 Sample.final).
  vm_compute; reflexivity.
Defined.

(** C4 as stated fails: on a feed whose only row inside the window is a
    rejected submission by a member of [accepted], the scan ends with an
    entry for that member although no scanned row is an accepted one. *)
Lemma accepted_map_rejected_entry :
  Scan.scan Sample.today Sample.start_time Sample.end_time Sample.roster
    Sample.feed_rejected 1 = Some (Ok Sample.final_rejected) ∧
  submission_dict Sample.final_rejected !! "alice" = Some "21" ∧
  ∀ r, r ∈ Scan.scanned Sample.today Sample.start_time Sample.feed_rejected 1 →
       sub_accepted r = false.
Proof.
  split; [vm_compute; reflexivity|]. split; [vm_compute; reflexivity|].
  intros r Hr. apply list_elem_of_In in Hr. vm_compute in Hr.
  destruct Hr as [<-|[]]. reflexivity.
Qed.

Lemma accepted_map_entries_witness :
  (∀ u, is_Some (submission_dict Sample.final !! u) ↔
        u ∈ accepted Sample.roster ∧
        ∃ r t, r ∈ Scan.scanned Sample.today Sample.start_time Sample.feed 2 ∧
               Scan.submitted_by Sample.today r u t) ∧
  (∀ u v, submission_dict Sample.final !! u = Some v →
          u ∈ accepted Sample.roster ∧
          ∃ r t id_,
            r ∈ Scan.scanned Sample.today Sample.start_time Sample.feed 2 ∧
            Scan.submitted_by Sample.today r u t ∧
            sub_id r = Some id_ ∧ v = Py.strip id_ ∧
            (Forall (λ x, sub_accepted x = true)
               (Scan.scanned Sample.today Sample.start_time Sample.feed 2) →
             sub_accepted r = true)).
Proof.
  apply (accepted_map_entries Sample.today Sample.start_time Sample.end_time
           Sample.roster Sample.feed 2 Sample.final).
  vm_compute; reflexivity.
Defined.

Lemma accepted_map_last_write_witness :
  ∃ pre r post t id_,
    Scan.scanned Sample.today Sample.start_time Sample.feed 2 =
      pre ++ r :: post ∧
    Scan.submitted_by Sample.today r "alice" t ∧
    (∀ x t', x ∈ post → ¬ Scan.submitted_by Sample.today x "alice" t') ∧
    sub_id r = Some id_ ∧
    submission_dict Sample.final !! "alice" = Some (Py.strip id_) ∧
    (∀ x t', x ∈ Scan.scanned Sample.today Sample.start_time Sample.feed 2 →
             Scan.submitted_by Sample.today x "alice" t' →
             Datetime.ltb t' t = false) ∧
    Datetime.ltb t Sample.start_time = false ∧
    Datetime.gtb t Sample.end_time = false.
Proof.
  apply (accepted_map_last_write Sample.today Sample.start_time Sample.end_time
           Sample.roster Sample.feed 2 Sample.final "alice").
  - vm_compute; reflexivity.
  - unfold Scan.newest_first. vm_compute. repeat constructor.
  - vm_compute. reflexivity.
  - exists (Sample.sub (Some "alice") "15" "2024-01-05 09:30:00" false true true),
      (mkdt 2024 1 5 9 30 0).
    split; [apply list_elem_of_In; vm_compute; tauto|].
    split; [|vm_compute; reflexivity].
    repeat split; vm_compute; reflexivity.
Defined.

Lemma plagiarism_both_sets_yellow_line_witness :
  (∀ r u t, r ∈ Scan.scanned Sample.today Sample.start_time Sample.feed 2 →
            Scan.submitted_by Sample.today r u t →
            u ∈ student_list Sample.roster →
            sub_red r = true → sub_yellow r = true →
            u ∈ red_plagiarism Sample.final ∧
            u ∈ yellow_plagiarism Sample.final) ∧
  ∃ line,
    report_line "Yellow Plagiarism Notices" Sample.roster Sample.final =
      Some line ∧
    line = Py.sorted (elements (yellow_plagiarism Sample.final ∖
                                red_plagiarism Sample.final)) ∧
    StronglySorted String.le line ∧ NoDup line ∧
    (∀ u, u ∈ line ↔ u ∈ yellow_plagiarism Sample.final ∧
                     u ∉ red_plagiarism Sample.final).
Proof.
  apply (plagiarism_both_sets_yellow_line Sample.today Sample.start_time
           Sample.end_time Sample.roster Sample.feed 2 Sample.final).
  vm_compute; reflexivity.
Defined.

Lemma plagiarism_within_roster_witness :
  red_plagiarism Sample.final ⊆ student_list Sample.roster ∧
  yellow_plagiarism Sample.final ⊆ student_list Sample.roster ∧
  ∀ st0 st1 r,
    Scan.row_author r = None ∨
    (∃ a, Scan.row_author r = Some a ∧ a ∉ student_list Sample.roster) →
    Scan.scan_row Sample.today Sample.start_time Sample.end_time Sample.roster
      st0 r = Next st1 →
    red_plagiarism st1 = red_plagiarism st0 ∧
    yellow_plagiarism st1 = yellow_plagiarism st0.
Proof.
  apply (plagiarism_within_roster Sample.today Sample.start_time
           Sample.end_time Sample.roster Sample.feed 2 Sample.final).
  vm_compute; reflexivity.
Defined.

(** ** Reconciliation with the local directory *)

Lemma remove_redundant_ok rmtree ids dir :
  (∀ name, (name, true) ∈ dir → name ∉ ids → rmtree name = None) →
  remove_redundant rmtree ids dir = (wanted ids dir, None).
Proof.
  unfold wanted. induction dir as [|[name isdir] dir IH]; intros Hrm; [done|].
  simpl. rewrite filter_cons. simpl.
  rewrite IH by (intros n Hn; apply Hrm; by right).
  case_bool_decide as Hid; destruct isdir; simpl.
  - rewrite Hrm by (done || by left).
    destruct (decide _) as [[?|?]|?]; done.
  - destruct (decide _) as [?|Hn]; [done|]. destruct Hn. by right.
  - destruct (decide _) as [?|Hn]; [done|]. destruct Hn. left.
    by destruct (decide (name ∈ ids)).
  - destruct (decide _) as [?|Hn]; [done|]. destruct Hn. by right.
Qed.

Lemma remove_redundant_raises rmtree ids dir kept e :
  remove_redundant rmtree ids dir = (kept, Some e) →
  ∃ name, (name, true) ∈ dir ∧ (name ∉ ids) ∧ rmtree name = Some e.
Proof.
  revert kept. induction dir as [|[name isdir] dir IH]; intros kept; [done|].
  simpl. case_bool_decide as Hid; destruct isdir; simpl.
  - destruct (rmtree name) as [x|] eqn:Hrm.
    + intros [= <- <-]. exists name. split; [by left|done].
    + intros (n & ? & ?)%IH. exists n. split; [by right|done].
  - destruct (remove_redundant rmtree ids dir) as [k x].
    intros [= <- ->]. destruct (IH k eq_refl) as (n & ? & ?).
    exists n. split; [by right|done].
  - destruct (remove_redundant rmtree ids dir) as [k x].
    intros [= <- ->]. destruct (IH k eq_refl) as (n & ? & ?).
    exists n. split; [by right|done].
  - destruct (remove_redundant rmtree ids dir) as [k x].
    intros [= <- ->]. destruct (IH k eq_refl) as (n & ? & ?).
    exists n. split; [by right|done].
Qed.

(** Running the first loop again on what it left does the same: it removes
    nothing more, and ends as it did. *)
Lemma remove_redundant_idem rmtree ids dir kept x :
  remove_redundant rmtree ids dir = (kept, x) →
  remove_redundant rmtree ids kept = (kept, x).
Proof.
  revert kept. induction dir as [|e dir IH]; intros kept.
  { by intros [= <- <-]. }
  simpl. destruct (bool_decide (fst e ∉ ids) && snd e) eqn:Hred.
  - destruct (rmtree (fst e)) as [y|] eqn:Hrm; [|by apply IH].
    intros [= <- <-]. simpl. by rewrite Hred, Hrm.
  - destruct (remove_redundant rmtree ids dir) as [k y].
    intros [= <- <-]. simpl. by rewrite Hred, (IH k eq_refl).
Qed.

(** Whatever is missing, the list printed holds the last author read by the
    scan, once per missing id. *)
Lemma collect_missing_author a dir ids :
  collect_missing (Some a) dir ids =
  Ok (replicate (length (filter (λ i, i ∉ names dir) ids)) a).
Proof.
  induction ids as [|id_ ids IH]; simpl; [done|].
  rewrite filter_cons. case_bool_decide as Hin.
  - destruct (decide (id_ ∉ names dir)); [|done]. by rewrite IH.
  - destruct (decide (id_ ∉ names dir)); done.
Qed.

(** C7, on the directories 1, 2, 3, all of which [shutil.rmtree] can remove,
    and a dictionary with the values 2 and 4 (the scan of [Sample.feed_two]):
    directories 1 and 3 are removed and 2 is kept, but the list of missing
    submissions holds ["alice"], the author that line 246 read last, where
    the missing id is 4. *)
Theorem reconcile_reports_last_author :
  Scan.scan Sample.today Sample.start_time Sample.end_time Sample.roster
    Sample.feed_two 1 = Some (Ok Sample.final_two) ∧
  Py.sorted (submission_id_list Sample.final_two) = ["2"; "4"] ∧
  reconcile (λ _, None) (Ok Sample.local) Sample.final_two =
    Ok (mkReconciled (Some [("2", true)]) ["alice"]).
Proof. repeat split; vm_compute; reflexivity. Qed.

(** ** [get_file.py] *)

Lemma split_on_prefix sep s rest :
  GetFile.has_char sep s = false →
  Py.split_on sep (s +:+ String sep rest) = s :: Py.split_on sep rest.
Proof.
  induction s as [|c s IH]; simpl.
  - intros _. by rewrite Ascii.eqb_refl.
  - intros [Hc Hs]%orb_false_elim. rewrite Hc, (IH Hs). done.
Qed.

Lemma split_on_single sep s :
  GetFile.has_char sep s = false → Py.split_on sep s = [s].
Proof.
  induction s as [|c s IH]; simpl; [done|].
  intros [Hc Hs]%orb_false_elim. by rewrite Hc, (IH Hs).
Qed.

(** Splitting undoes joining when no component holds the separator. *)
Lemma split_on_join sep segs :
  segs ≠ [] →
  Forall (λ s, GetFile.has_char sep s = false) segs →
  Py.split_on sep (Py.join (String sep EmptyString) segs) = segs.
Proof.
  intros Hne Hall. induction Hall as [|s segs Hs Hall IH]; [done|].
  destruct segs as [|s' segs]; simpl.
  - by apply split_on_single.
  - change (String sep EmptyString +:+ ?x) with (String sep x).
    rewrite split_on_prefix by done. f_equal. by apply IH.
Qed.

Lemma last_item_last {A} (l : list A) : Py.last_item l = last l.
Proof.
  unfold Py.last_item, Py.index. simpl.
  destruct l as [|x l]; [done|].
  replace (Z.of_nat (length (x :: l)) + -1 <? 0)%Z with false
    by (symmetry; apply Z.ltb_ge; simpl; lia).
  replace (Z.to_nat (Z.of_nat (length (x :: l)) + -1)) with (length l)
    by (simpl; lia).
  revert x. induction l as [|y l IH]; intros x; [done|].
  simpl length. change (nth_error (x :: y :: l) (S (length l)))
    with (nth_error (y :: l) (length l)).
  rewrite IH. done.
Qed.

(** C9, as amended.  For a URL path [/s1/s2/.../sn] (components without a
    slash), the script writes the downloaded text to
    [cwd/submissions/s1/sn]: the directory is named by the element of index 1
    of [path.split("/")], which is the first component after the leading
    slash, and the file by the last one.  When no component is empty, the
    components are the segments of the path, so that the directory is the
    first segment. *)
Theorem get_file_target cwd isdir text first rest file :
  Forall (λ s, GetFile.has_char "/" s = false) (first :: rest) →
  last (first :: rest) = Some file →
  GetFile.written cwd isdir
    (Some ("/" +:+ Py.join "/" (first :: rest))) text =
  Some (Py.path_join cwd ["submissions"; first; file], text) ∧
  (Forall (λ s, s ≠ EmptyString) (first :: rest) →
   GetFile.segments ("/" +:+ Py.join "/" (first :: rest)) = first :: rest).
Proof.
  intros Hall Hlast.
  assert (Py.split_on "/" ("/" +:+ Py.join "/" (first :: rest)) =
          EmptyString :: first :: rest) as Hsplit.
  { change ("/" +:+ ?x) with (EmptyString +:+ String "/" x).
    rewrite split_on_prefix by done. f_equal. by apply (split_on_join "/"). }
  split.
  2:{ intros Hne. unfold GetFile.segments. rewrite Hsplit.
      rewrite filter_cons, decide_False by (intros H; by apply H).
      generalize (first :: rest), Hne. clear. intros l Hl.
      induction Hl as [|x l Hx _ IH]; [done|].
      by rewrite filter_cons, decide_True, IH. }
  unfold GetFile.written, GetFile.run, deref, bind. rewrite Hsplit.
  change (Py.index (EmptyString :: first :: rest) 1) with (Some first).
  rewrite last_item_last.
  change (last (EmptyString :: first :: rest)) with (last (first :: rest)).
  rewrite Hlast. destruct (isdir _); reflexivity.
Qed.

Lemma get_file_target_witness :
  GetFile.written "/home/u" (λ _, false)
    (Some ("/" +:+ Py.join "/" ["user"; "repo"; "main"; "Main.java"]))
    "class Main {}" =
  Some (Py.path_join "/home/u" ["submissions"; "user"; "Main.java"],
        "class Main {}") ∧
  (Forall (λ s, s ≠ EmptyString) ["user"; "repo"; "main"; "Main.java"] →
   GetFile.segments ("/" +:+ Py.join "/" ["user"; "repo"; "main"; "Main.java"]) =
   ["user"; "repo"; "main"; "Main.java"]).
Proof.
  apply (get_file_target "/home/u" (λ _, false) "class Main {}"
           "user" ["repo"; "main"; "Main.java"] "Main.java").
  - repeat constructor.
  - reflexivity.
Defined.

(** C9 as stated fails: for the path [/user/repo/main/Main.java] the
    non-empty components are user, repo, main, Main.java; the file is written
    under [submissions/user], not under [submissions/repo]. *)
Lemma get_file_not_second_segment :
  GetFile.segments "/user/repo/main/Main.java" =
    ["user"; "repo"; "main"; "Main.java"] ∧
  GetFile.written "/home/u" (λ _, false) (Some "/user/repo/main/Main.java")
    "class Main {}" =
    Some ("/home/u/submissions/user/Main.java", "class Main {}") ∧
  Py.path_join "/home/u" ["submissions"; "repo"; "Main.java"] ≠
    "/home/u/submissions/user/Main.java".
Proof. repeat split; try (vm_compute; reflexivity). vm_compute. discriminate. Qed.

(** ** Timestamps *)

#[local] Arguments String.append !s1 s2 : simpl nomatch.

Section StringFacts.

Lemma string_app_assoc (a b c : string) : (a +:+ b) +:+ c = a +:+ (b +:+ c).
Proof. induction a as [|x a IH]; simpl; [done|]. by rewrite IH. Qed.

Lemma string_app_nil_r (a : string) : a +:+ EmptyString = a.
Proof. induction a as [|x a IH]; simpl; [done|]. by rewrite IH. Qed.

Lemma string_length_app (a b : string) :
  String.length (a +:+ b) = (String.length a + String.length b)%nat.
Proof. induction a as [|x a IH]; simpl; [done|]. by rewrite IH. Qed.

Lemma count_char_app c (a b : string) :
  Datetime.count_char c (a +:+ b) =
  (Datetime.count_char c a + Datetime.count_char c b)%nat.
Proof. induction a as [|x a IH]; simpl; [done|]. rewrite IH. lia. Qed.

(** A rest shorter than the appended part lies inside it. *)
Lemma short_suffix (s x m r : string) :
  s +:+ x = m +:+ r → (String.length r < String.length x)%nat →
  ∃ m', x = m' +:+ r.
Proof.
  revert m. induction s as [|c s IH]; intros m; simpl.
  - intros -> _. by exists m.
  - destruct m as [|c' m]; simpl.
    + intros <- Hlen. simpl in Hlen. rewrite string_length_app in Hlen. lia.
    + intros [= _ Heq]. by apply (IH m).
Qed.

End StringFacts.

Section MatchFacts.

Import Datetime.

Lemma separator_not_space c : separator c → Py.isspace c = false.
Proof. by intros [-> | ->]. Qed.

Lemma lower_separator c x : separator c → lower x = c → x = c.
Proof.
  intros [-> | ->]; destruct x as [[] [] [] [] [] [] [] []];
    vm_compute; congruence.
Qed.

Lemma eqb_nocase_separator c a b :
  separator c → eqb_nocase a b = true → Ascii.eqb b c = Ascii.eqb a c.
Proof.
  unfold eqb_nocase. intros Hc Hab%Ascii.eqb_eq.
  assert (lower c = c) as Hlc by (by destruct Hc as [-> | ->]).
  destruct (Ascii.eqb_spec a c) as [->|Ha], (Ascii.eqb_spec b c) as [->|Hb];
    try done.
  - exfalso. apply Hb. apply (lower_separator c b Hc). congruence.
  - exfalso. apply Ha. apply (lower_separator c a Hc). congruence.
Qed.

Lemma alternatives_reject c d :
  separator c → Forall (Forall (λ p : ascii → bool, p c = false)) (alternatives d).
Proof. intros [-> | ->]; destruct d; repeat constructor. Qed.

Lemma match_classes_split cls : ∀ s m r,
  match_classes cls s = Some (m, r) →
  s = m +:+ r ∧
  ∀ c, Forall (λ p : ascii → bool, p c = false) cls → count_char c m = 0%nat.
Proof.
  induction cls as [|p cls IH]; intros s m r; simpl.
  - intros [= <- <-]. by split.
  - destruct s as [|a s]; [done|].
    destruct (p a) eqn:Hp; [|done].
    destruct (match_classes cls s) as [[m' r']|] eqn:Hm; simpl; [|done].
    intros [= <- <-]. destruct (IH _ _ _ Hm) as [-> Hcount].
    split; [done|]. intros c [Hpc Hcls]%Forall_cons. simpl.
    rewrite (Hcount c Hcls).
    destruct (Ascii.eqb_spec a c) as [->|]; [congruence|done].
Qed.

Lemma match_field_split d s m r :
  In (m, r) (match_field d s) →
  s = m +:+ r ∧ ∀ c, separator c → count_char c m = 0%nat.
Proof.
  unfold match_field. intros Hin%list_elem_of_In%list_elem_of_omap.
  destruct Hin as (alt & Halt & Hm).
  destruct (match_classes_split _ _ _ _ Hm) as [-> Hcount].
  split; [done|]. intros c Hc. apply Hcount.
  pose proof (alternatives_reject c d Hc) as Hall.
  rewrite Forall_forall in Hall. by apply Hall.
Qed.

Lemma spaces_rests_split s : ∀ r,
  In r (spaces_rests s) →
  ∃ m, s = m +:+ r ∧ ∀ c, Py.isspace c = false → count_char c m = 0%nat.
Proof.
  induction s as [|a s IH]; intros r; simpl; [done|].
  destruct (Py.isspace a) eqn:Ha; [|done].
  intros [Hr|[<-|[]]]%in_app_or.
  - destruct (IH r Hr) as (m & -> & Hcount). exists (String a m).
    split; [done|]. intros c Hc. simpl. rewrite (Hcount c Hc).
    destruct (Ascii.eqb_spec a c) as [->|]; [congruence|done].
  - exists (String a EmptyString). split; [done|]. intros c Hc. simpl.
    destruct (Ascii.eqb_spec a c) as [->|]; [congruence|done].
Qed.

(** Every match consumes a prefix of the text that holds each separator as
    often as the format does, and captures the fields of the format. *)
Lemma match_items_split its : ∀ s caps r,
  In (caps, r) (match_items its s) →
  ∃ m, s = m +:+ r ∧
       (∀ c, separator c → count_char c m = count_lit c its) ∧
       caps.*1 = fields_of its.
Proof.
  induction its as [|it its IH]; intros s caps r; simpl.
  - intros [[= <- <-]|[]]. by exists EmptyString.
  - destruct it as [d|c'|].
    + intros ([m1 r1] & H1 & Hin)%in_flat_map.
      apply in_map_iff in Hin as ([caps' r'] & [= <- <-] & Hin).
      destruct (match_field_split _ _ _ _ H1) as [-> Hc1].
      destruct (IH _ _ _ Hin) as (m2 & -> & Hc2 & Hf).
      exists (m1 +:+ m2). rewrite string_app_assoc. split; [done|]. split.
      * intros c Hc. rewrite count_char_app, (Hc1 c Hc), (Hc2 c Hc). done.
      * by rewrite fmap_cons, Hf.
    + destruct s as [|a s]; [done|].
      destruct (eqb_nocase c' a) eqn:Hca; [|done].
      intros Hin. destruct (IH _ _ _ Hin) as (m2 & -> & Hc2 & Hf).
      exists (String a m2). split; [done|]. split; [|done].
      intros c Hc. simpl. rewrite (Hc2 c Hc).
      by rewrite (eqb_nocase_separator c c' a Hc Hca).
    + intros (r1 & H1 & Hin)%in_flat_map.
      destruct (spaces_rests_split _ _ H1) as (m1 & -> & Hc1).
      destruct (IH _ _ _ Hin) as (m2 & -> & Hc2 & Hf).
      exists (m1 +:+ m2). rewrite string_app_assoc. split; [done|].
      split; [|done]. intros c Hc.
      rewrite count_char_app, (Hc1 c (separator_not_space c Hc)), (Hc2 c Hc).
      done.
Qed.

(** A text accepted by [strptime] holds each separator as often as the
    format does. *)
Lemma strptime_separators s fmt its t c :
  compile false fmt = Some its →
  strptime s fmt = Some t →
  separator c → count_char c s = count_lit c its.
Proof.
  unfold strptime. intros -> Hs Hc. simpl in Hs.
  destruct (match_items its s) as [|[caps r] l] eqn:Hm; [done|].
  destruct r; [|done].
  destruct (match_items_split its s caps EmptyString) as (m & -> & Hcount & _).
  { rewrite Hm. by left. }
  rewrite string_app_nil_r. by apply Hcount.
Qed.

(** *** Appending to the text *)

Lemma filter_flat_map {A B} (P : B → Prop) `{!∀ y, Decision (P y)}
    (f : A → list B) l :
  filter P (flat_map f l) = flat_map (λ a, filter P (f a)) l.
Proof. induction l as [|a l IH]; simpl; [done|]. by rewrite filter_app, IH. Qed.

Lemma flat_map_map {A B C} (h : A → B) (f : B → list C) l :
  flat_map f (map h l) = flat_map (λ a, f (h a)) l.
Proof. induction l as [|a l IH]; simpl; [done|]. by rewrite IH. Qed.

Lemma map_flat_map {A B C} (h : B → C) (f : A → list B) l :
  map h (flat_map f l) = flat_map (λ a, map h (f a)) l.
Proof. induction l as [|a l IH]; simpl; [done|]. by rewrite map_app, IH. Qed.

Lemma flat_map_flat_map {A B C} (g : A → list B) (f : B → list C) l :
  flat_map f (flat_map g l) = flat_map (λ a, flat_map f (g a)) l.
Proof. induction l as [|a l IH]; simpl; [done|]. by rewrite flat_map_app, IH. Qed.

Lemma filter_none {A} (P : A → Prop) `{!∀ y, Decision (P y)} l :
  (∀ y, In y l → ¬ P y) → filter P l = [].
Proof.
  induction l as [|a l IH]; intros Hl; [done|].
  rewrite filter_cons, decide_False by (apply Hl; by left).
  apply IH. intros y Hy. apply Hl. by right.
Qed.

(** Elements on which [f] yields nothing can be filtered out first. *)
Lemma flat_map_filter {A B} (P : A → Prop) `{!∀ y, Decision (P y)}
    (f : A → list B) l :
  (∀ y, In y l → ¬ P y → f y = []) →
  flat_map f l = flat_map f (filter P l).
Proof.
  induction l as [|a l IH]; intros Hl; [done|].
  rewrite filter_cons. simpl.
  rewrite IH by (intros y Hy; apply Hl; by right).
  destruct (decide (P a)) as [Ha|Ha]; [done|].
  by rewrite (Hl a (or_introl eq_refl) Ha).
Qed.

(** [grow x] puts [x] back after the rest of a match. *)
Let grow {A} (x : string) (cr : A * string) : A * string :=
  (cr.1, cr.2 +:+ x).

Lemma match_classes_ext cls : ∀ s x',
  Forall (λ p : ascii → bool, p ":"%char = false) cls →
  match_classes cls (s +:+ String ":" x') =
  grow (String ":" x') <$> match_classes cls s.
Proof.
  induction cls as [|p cls IH]; intros s x' Hcls; simpl; [done|].
  apply Forall_cons in Hcls as [Hp Hcls].
  destruct s as [|a s]; simpl; [by rewrite Hp|].
  destruct (p a); [|done]. rewrite IH by done.
  by destruct (match_classes cls s) as [[m r]|].
Qed.

Lemma match_field_ext d s x' :
  match_field d (s +:+ String ":" x') =
  map (grow (String ":" x')) (match_field d s).
Proof.
  unfold match_field.
  pose proof (alternatives_reject ":" d (or_introl eq_refl)) as Hall.
  induction Hall as [|alt alts Halt _ IH]; [done|].
  csimpl. rewrite match_classes_ext by done.
  destruct (match_classes alt s) as [[m r]|]; csimpl; by rewrite IH.
Qed.

Lemma spaces_rests_ext s x' :
  spaces_rests (s +:+ String ":" x') =
  map (λ r, r +:+ String ":" x') (spaces_rests s).
Proof.
  induction s as [|a s IH]; simpl; [done|].
  destruct (Py.isspace a); [|done]. by rewrite IH, map_app.
Qed.

Lemma match_items_rest_length its s caps r :
  In (caps, r) (match_items its s) → (String.length r ≤ String.length s)%nat.
Proof.
  intros (m & -> & _)%match_items_split. rewrite string_length_app. lia.
Qed.

(** The matches on [s +:+ x] that leave all of [x] are the matches on [s],
    in the same order. *)
Lemma match_items_ext its : ∀ s x',
  filter (λ cr, (String.length (String ":" x') ≤ String.length cr.2)%nat)
         (match_items its (s +:+ String ":" x')) =
  map (grow (String ":" x')) (match_items its s).
Proof.
  induction its as [|it its IH]; intros s x'.
  { simpl match_items. rewrite filter_cons, decide_True; [done|].
    simpl snd. rewrite string_length_app. lia. }
  destruct it as [d|c'|]; simpl match_items.
  - rewrite match_field_ext, filter_flat_map, flat_map_map, map_flat_map.
    apply flat_map_ext. intros [m r]. unfold grow at 1. simpl fst. simpl snd.
    transitivity
      (map (λ '(caps, r'), ((d, m) :: caps, r'))
         (filter (λ cr : list (directive * string) * string,
                    (String.length (String ":" x') ≤ String.length cr.2)%nat)
            (match_items its (r +:+ String ":" x')))).
    { generalize (match_items its (r +:+ String ":" x')). intros l.
      induction l as [|[caps r'] l IHl]; [done|].
      simpl map. rewrite !filter_cons. simpl snd.
      destruct (decide _); rewrite IHl; reflexivity. }
    rewrite IH, !map_map. apply map_ext. by intros [caps r'].
  - destruct s as [|a s]; simpl.
    + destruct (eqb_nocase c' ":"); [|done].
      apply filter_none. intros [caps r] Hin%match_items_rest_length.
      simpl. lia.
    + destruct (eqb_nocase c' a); [apply IH|done].
  - rewrite spaces_rests_ext, filter_flat_map, flat_map_map, map_flat_map.
    apply flat_map_ext. intros r. apply IH.
Qed.

(** Matching a format in two parts. *)
Lemma match_items_app its1 its2 : ∀ s,
  match_items (its1 ++ its2) s =
  flat_map (λ cr, map (λ cr', (cr.1 ++ cr'.1, cr'.2)) (match_items its2 cr.2))
           (match_items its1 s).
Proof.
  induction its1 as [|it its1 IH]; intros s.
  { simpl. rewrite app_nil_r. rewrite <- (map_id (match_items its2 s)) at 1.
    apply map_ext. by intros [caps r]. }
  destruct it as [d|c'|]; simpl.
  - rewrite flat_map_flat_map. apply flat_map_ext. intros [m r].
    rewrite IH, flat_map_map, map_flat_map.
    apply flat_map_ext. intros [caps r']. simpl. rewrite map_map.
    apply map_ext. by intros [caps' r''].
  - destruct s as [|a s]; [done|]. destruct (eqb_nocase c' a); [apply IH|done].
  - rewrite flat_map_flat_map. apply flat_map_ext. intros r. apply IH.
Qed.

(** *** From minutes to seconds *)

(** If the first match of a format consumes all of [s], the first match of
    the format followed by [:%S] on [s] followed by [:00] consumes all of it
    too, with the same captures and [00] for the seconds. *)
Lemma first_match_seconds its s caps l :
  match_items its s = (caps, EmptyString) :: l →
  ∃ l', match_items (its ++ [Lit ":"; Field dir_S]) (s +:+ ":00") =
        (caps ++ [(dir_S, "00")], EmptyString) :: l'.
Proof.
  intros Hm. rewrite match_items_app.
  rewrite (flat_map_filter
             (λ cr, (String.length ":00" ≤ String.length cr.2)%nat)).
  - rewrite (match_items_ext its s "00"), Hm. simpl. eauto.
  - intros [caps' r] Hin Hshort. simpl in Hshort.
    apply match_items_split in Hin as (m & Heq & _).
    apply short_suffix in Heq as [m' Hm']; [|simpl; lia].
    destruct m' as [|a [|b [|c [|e m']]]]; simpl in Hm'.
    + subst r. simpl in Hshort. lia.
    + injection Hm' as _ <-. reflexivity.
    + injection Hm' as _ _ <-. reflexivity.
    + injection Hm' as _ _ _ <-. reflexivity.
    + discriminate.
Qed.

Lemma fold_set_field_second caps : ∀ t,
  ¬ In dir_S caps.*1 →
  second (fold_left set_field caps t) = second t.
Proof.
  induction caps as [|[d v] caps IH]; intros t Hno; simpl; [done|].
  rewrite fmap_cons in Hno. simpl in Hno.
  rewrite IH by tauto. by destruct d; [..|tauto].
Qed.

Lemma strptime_append_seconds fmt fmt' its s t :
  compile false fmt = Some its →
  compile false fmt' = Some (its ++ [Lit ":"; Field dir_S]) →
  ¬ In dir_S (fields_of its) →
  strptime s fmt = Some t →
  strptime (s +:+ ":00") fmt' = Some t.
Proof.
  unfold strptime. intros -> -> Hno. simpl.
  destruct (match_items its s) as [|[caps r] l] eqn:Hm; [done|].
  destruct r; [|done].
  destruct (first_match_seconds _ _ _ _ Hm) as [l' ->].
  rewrite fold_left_app. simpl.
  assert (second (fold_left set_field caps epoch) = 0) as Hsec.
  { rewrite fold_set_field_second; [done|].
    destruct (match_items_split its s caps EmptyString) as (_ & _ & _ & ->);
      [|done].
    rewrite Hm. by left. }
  destruct (fold_left set_field caps epoch) as [y mo d h mi sec].
  simpl in Hsec. subst sec. done.
Qed.

(** The four formats of the script, compiled. *)
Lemma compile_contest_full :
  compile false DT_FORMAT =
  Some [Field dir_Y; Lit "-"; Field dir_m; Lit "-"; Field dir_d; Spaces;
        Field dir_H; Lit ":"; Field dir_M].
Proof. reflexivity. Qed.

Lemma compile_contest_bare :
  compile false "%H:%M" = Some [Field dir_H; Lit ":"; Field dir_M].
Proof. reflexivity. Qed.

Lemma compile_submit_full :
  compile false "%Y-%m-%d %H:%M:%S" =
  Some ([Field dir_Y; Lit "-"; Field dir_m; Lit "-"; Field dir_d; Spaces;
         Field dir_H; Lit ":"; Field dir_M] ++ [Lit ":"; Field dir_S]).
Proof. reflexivity. Qed.

Lemma compile_submit_bare :
  compile false "%H:%M:%S" =
  Some ([Field dir_H; Lit ":"; Field dir_M] ++ [Lit ":"; Field dir_S]).
Proof. reflexivity. Qed.

Lemma contest_full_no_seconds :
  ¬ In dir_S (fields_of [Field dir_Y; Lit "-"; Field dir_m; Lit "-";
                         Field dir_d; Spaces; Field dir_H; Lit ":";
                         Field dir_M]).
Proof. simpl. intuition discriminate. Qed.

Lemma contest_bare_no_seconds :
  ¬ In dir_S (fields_of [Field dir_H; Lit ":"; Field dir_M]).
Proof. simpl. intuition discriminate. Qed.

(** How often a text accepted by one of the parsers holds [c]. *)
Lemma parse_contest_colons today s t :
  parse_contest today s = Ok t → count_char ":" s = 1%nat.
Proof.
  unfold parse_contest, strptime_fallback.
  destruct (strptime s DT_FORMAT) as [t1|] eqn:H1.
  - intros _.
    apply (strptime_separators _ _ _ _ ":" compile_contest_full H1). by left.
  - destruct (strptime s "%H:%M") as [t2|] eqn:H2; [|done]. intros _.
    apply (strptime_separators _ _ _ _ ":" compile_contest_bare H2). by left.
Qed.

Lemma parse_submit_colons today s t :
  parse_submit today s = Ok t → count_char ":" s = 2%nat.
Proof.
  unfold parse_submit, strptime_fallback.
  destruct (strptime s "%Y-%m-%d %H:%M:%S") as [t1|] eqn:H1.
  - intros _.
    apply (strptime_separators _ _ _ _ ":" compile_submit_full H1). by left.
  - destruct (strptime s "%H:%M:%S") as [t2|] eqn:H2; [|done]. intros _.
    apply (strptime_separators _ _ _ _ ":" compile_submit_bare H2). by left.
Qed.

Lemma parse_raises_ValueError today full bare s :
  (∀ t, strptime_fallback today full bare s ≠ Ok t) →
  strptime_fallback today full bare s = Raise ValueError.
Proof.
  unfold strptime_fallback.
  destruct (strptime s full) as [t1|]; [intros H; by destruct (H t1)|].
  destruct (strptime s bare) as [t2|]; [intros H; by edestruct H|done].
Qed.

End MatchFacts.

(** C8, as amended.  The contest times are parsed with a fallback of the same
    shape as the submission times, but at minute resolution: [%Y-%m-%d %H:%M]
    first, else [%H:%M] with today's date.  No text is accepted by both
    parsers; a text the contest parser accepts is accepted by the submission
    parser, with the same result, once [:00] is appended to it. *)
Theorem contest_time_minute_resolution today s :
  (∀ t, parse_contest today s = Ok t →
        parse_submit today s = Raise ValueError ∧
        parse_submit today (s +:+ ":00") = Ok t) ∧
  (∀ t, parse_submit today s = Ok t →
        parse_contest today s = Raise ValueError).
Proof.
  split.
  - intros t Hc. split.
    + apply parse_raises_ValueError. intros t' Hs.
      apply parse_contest_colons in Hc. apply parse_submit_colons in Hs.
      congruence.
    + revert Hc. unfold parse_contest, parse_submit, strptime_fallback.
      destruct (Datetime.strptime s DT_FORMAT) as [t1|] eqn:H1.
      * intros [= <-].
        by rewrite (strptime_append_seconds _ _ _ _ _ compile_contest_full
                      compile_submit_full contest_full_no_seconds H1).
      * destruct (Datetime.strptime s "%H:%M") as [t2|] eqn:H2; [|done].
        intros [= <-].
        destruct (Datetime.strptime (s +:+ ":00") "%Y-%m-%d %H:%M:%S")
          as [t3|] eqn:H3.
        { pose proof (strptime_separators _ _ _ _ "-" compile_submit_full H3
                        (or_intror eq_refl)) as Hd3.
          pose proof (strptime_separators _ _ _ _ "-" compile_contest_bare H2
                        (or_intror eq_refl)) as Hd2.
          rewrite count_char_app, Hd2 in Hd3. simpl in Hd3. discriminate. }
        by rewrite (strptime_append_seconds _ _ _ _ _ compile_contest_bare
                      compile_submit_bare contest_bare_no_seconds H2).
  - intros t Hs. apply parse_raises_ValueError. intros t' Hc.
    apply parse_contest_colons in Hc. apply parse_submit_colons in Hs.
    congruence.
Qed.

Lemma contest_time_minute_resolution_witness :
  parse_contest Sample.today "2024-01-05 14:30" = Ok (mkdt 2024 1 5 14 30 0) ∧
  parse_submit Sample.today "2024-01-05 14:30" = Raise ValueError ∧
  parse_submit Sample.today ("2024-01-05 14:30" +:+ ":00") =
    Ok (mkdt 2024 1 5 14 30 0).
Proof.
  assert (parse_contest Sample.today "2024-01-05 14:30" =
          Ok (mkdt 2024 1 5 14 30 0)) as Hc by (vm_compute; reflexivity).
  split; [exact Hc|].
  exact (proj1 (contest_time_minute_resolution Sample.today "2024-01-05 14:30")
           _ Hc).
Defined.

(** C8 as stated fails: a timestamp with seconds is read by the submission
    parser and refused by the contest parser, with or without a date, also
    when it stands between a first and a last word as on the standings
    page. *)
Lemma contest_time_refuses_seconds :
  parse_submit Sample.today "2024-01-05 14:30:00" = Ok (mkdt 2024 1 5 14 30 0) ∧
  parse_contest Sample.today "2024-01-05 14:30:00" = Raise ValueError ∧
  parse_submit Sample.today "14:30:00" = Ok (mkdt 2024 1 5 14 30 0) ∧
  parse_contest Sample.today "14:30:00" = Raise ValueError ∧
  contest_time Sample.today (Some "Start: 2024-01-05 14:30:00 CET") =
    Raise ValueError.
Proof. repeat split; vm_compute; reflexivity. Qed.

(** * Further properties *)

(** ** The standings loop *)

Section StandingsMore.

Variable question : Z.

Lemma slice_1_m1_edges {A} (h f : A) rows :
  Py.slice_1_m1 (h :: rows ++ [f]) = rows.
Proof. unfold Py.slice_1_m1. apply removelast_last. Qed.

(** X1.  The first and the last [tr] after the table are never read: the
    result is that of the loop over the rows between them, whatever the two
    hold; with no [tr] or a single one the three sets are empty. *)
Theorem standings_ignores_edges h f rows :
  standings question (h :: rows ++ [f]) =
    classify_all question (mkRoster ∅ ∅ ∅) rows ∧
  standings question [] = Ok (mkRoster ∅ ∅ ∅) ∧
  standings question [h] = Ok (mkRoster ∅ ∅ ∅).
Proof.
  unfold standings. rewrite slice_1_m1_edges. done.
Qed.

(** Whether and how a row fails does not depend on the sets so far. *)
Lemma classify_row_exn R student :
  classify question R student =
  match row_exn question student with
  | Some e => Raise e
  | None =>
      match bucket question student, Py.strip <$> st_link student with
      | Some b, Some u => Ok (file_under b u R)
      | _, _ => Raise RuntimeError
      end
  end.
Proof.
  unfold row_exn, bucket, classify.
  destruct (st_link student) as [link|]; simpl; [|done].
  destruct (st_cells student) as [cells|]; simpl; [|done].
  destruct (Py.index cells question) as [[cl|]|]; [| |done].
  - destruct (has_class "attempted" cl).
    { rewrite bool_decide_true by done.
      by rewrite bool_decide_false by set_solver. }
    destruct (has_class "solved" cl).
    { by rewrite bool_decide_false by set_solver. }
    destruct (has_class "first" cl); [|done].
    by rewrite bool_decide_false by set_solver.
  - by rewrite !bool_decide_true by done.
Qed.

Lemma classify_ok_row_exn R student R' :
  classify question R student = Ok R' → row_exn question student = None.
Proof.
  rewrite classify_row_exn. by destruct (row_exn question student).
Qed.

Lemma file_under_comm b1 u1 b2 u2 R :
  file_under b1 u1 (file_under b2 u2 R) = file_under b2 u2 (file_under b1 u1 R).
Proof.
  destruct R as [A T N].
  destruct b1 as [|[|b1]], b2 as [|[|b2]]; simpl; f_equal;
    apply set_eq; intros x; rewrite !elem_of_union; tauto.
Qed.

Lemma classify_comm R a b :
  (let* R1 := classify question R a in classify question R1 b) =
  (let* R1 := classify question R b in classify question R1 a) ∨
  (∃ e, row_exn question a = Some e) ∨ (∃ e, row_exn question b = Some e).
Proof.
  rewrite (classify_row_exn R a), (classify_row_exn R b).
  destruct (row_exn question a) as [ea|] eqn:Ha; [right; left; eauto|].
  destruct (row_exn question b) as [eb|] eqn:Hb; [right; right; eauto|].
  left.
  destruct (bucket question a) as [ba|] eqn:Hba,
    (Py.strip <$> st_link a) as [ua|] eqn:Hua,
    (bucket question b) as [bb|] eqn:Hbb,
    (Py.strip <$> st_link b) as [ub|] eqn:Hub;
    simpl; rewrite ?classify_row_exn, ?Ha, ?Hb, ?Hba, ?Hua, ?Hbb, ?Hub;
    try done.
  by rewrite file_under_comm.
Qed.

Lemma classify_all_ok_rows l : ∀ R R',
  classify_all question R l = Ok R' → Forall (λ r, row_exn question r = None) l.
Proof.
  induction l as [|a l IH]; intros R R'; simpl; [by constructor|].
  destruct (classify question R a) as [R1|] eqn:Ha; simpl; [|done].
  intros Hl. constructor; [by eapply classify_ok_row_exn|by eapply IH].
Qed.

(** X2.  The three sets do not depend on the order of the student rows. *)
Theorem standings_order_independent h f h' f' rows rows' R :
  rows ≡ₚ rows' →
  standings question (h :: rows ++ [f]) = Ok R →
  standings question (h' :: rows' ++ [f']) = Ok R.
Proof.
  unfold standings. rewrite !slice_1_m1_edges.
  generalize (mkRoster ∅ ∅ ∅). intros R0 Hperm. revert R0 R.
  induction Hperm as [|x l l' _ IH|x y l|l l' l'' _ IH1 _ IH2]; intros R0 R.
  - done.
  - simpl. destruct (classify question R0 x); simpl; [apply IH|done].
  - intros Hall. pose proof (classify_all_ok_rows _ _ _ Hall) as Hok.
    apply Forall_cons in Hok as [Hy [Hx _]%Forall_cons].
    simpl in *.
    destruct (classify_comm R0 x y) as [Hc|[[e He]|[e He]]]; [|congruence..].
    destruct (classify question R0 y) as [Ry|] eqn:Hcy; simpl in *; [|done].
    destruct (classify question R0 x) as [Rx|] eqn:Hcx; simpl in *.
    + destruct (classify question Ry x) as [Ryx|] eqn:Hyx; simpl in *; [|done].
      by rewrite Hc.
    + by rewrite <- Hc in Hall.
  - intros Hall. by apply IH2, IH1.
Qed.

(** X3.  The loop fails exactly when some student row does, and then with
    the exception of the first such row. *)
Theorem standings_first_error trs e :
  standings question trs = Raise e ↔
  head (omap (row_exn question) (Py.slice_1_m1 trs)) = Some e.
Proof.
  unfold standings. generalize (mkRoster ∅ ∅ ∅), (Py.slice_1_m1 trs).
  intros R l. revert R. induction l as [|a l IH]; intros R; csimpl; [done|].
  rewrite classify_row_exn.
  destruct (row_exn question a) as [ea|] eqn:Ha; csimpl.
  - split; congruence.
  - unfold row_exn in Ha.
    destruct (classify question _ a) as [Ra|] eqn:Hc; [|done].
    destruct (classify_file_under _ _ _ _ Hc) as (u & b & Hu & Hb & _ & _).
    rewrite Hb, Hu. simpl. apply IH.
Qed.

End StandingsMore.

Lemma standings_order_independent_witness :
  standings 0
    (Sample.edge ::
     [Sample.student "carol" (Some ["attempted"]);
      Sample.student "alice" (Some ["solved"])] ++ [Sample.edge]) =
  Ok (mkRoster {["alice"]} {["carol"]} ∅).
Proof.
  apply (standings_order_independent 0 Sample.edge Sample.edge Sample.edge
           Sample.edge
           [Sample.student "alice" (Some ["solved"]);
            Sample.student "carol" (Some ["attempted"])]).
  - apply perm_swap.
  - vm_compute; reflexivity.
Defined.

(** ** The scan: how it ends *)

Section ScanMore.

Variable today : date.
Variables start_time end_time : datetime.
Variable R : Roster.

Abbreviation scan_row := (Scan.scan_row today start_time end_time R).
Abbreviation scan_rows := (Scan.scan_rows today start_time end_time R).
Abbreviation scan_pages := (Scan.scan_pages today start_time end_time R).
Abbreviation scan := (Scan.scan today start_time end_time R).
Abbreviation stops := (Scan.stops today start_time).
Abbreviation submit_time := (Scan.submit_time today).
Abbreviation submitted_by := (Scan.submitted_by today).
Abbreviation before_stop := (Scan.before_stop today start_time).
Abbreviation scanned := (Scan.scanned today start_time).
Abbreviation record_row := (Scan.record_row end_time R).
Abbreviation passes := (passes today start_time end_time R).

Implicit Types (st : ScanState) (r : SubmissionRow).
Implicit Types (feed : nat → result (list SubmissionRow)).

Lemma scan_pages_old_row feed fuel : ∀ page st st',
  scan_pages feed fuel page st = Some (Ok st') →
  ∃ pages pre r post,
    (length pages < fuel)%nat ∧
    (∀ i rows, pages !! i = Some rows → feed (page + i)%nat = Ok rows) ∧
    feed (page + length pages)%nat = Ok (pre ++ r :: post) ∧
    stops r = true ∧
    Forall (λ x, stops x = false) (concat pages ++ pre).
Proof.
  induction fuel as [|fuel IH]; intros page st st'; simpl; [done|].
  destruct (feed page) as [l|] eqn:Hfeed; [|done].
  destruct (scan_rows st l) as [st1|st1|e] eqn:Hl; [| |done].
  - intros (pages & pre & r & post & Hlen & Hpages & Hlast & Hr & Hno)%IH.
    exists (l :: pages), pre, r, post. simpl. repeat split.
    + lia.
    + intros [|i] rows; simpl.
      * intros [= <-]. by rewrite Nat.add_0_r.
      * intros Hi. rewrite <- (Hpages i rows Hi). f_equal. lia.
    + rewrite <- Hlast. f_equal. lia.
    + done.
    + rewrite <- app_assoc. apply Forall_app. split; [|done].
      destruct (before_stop l) as [pre' found] eqn:Hb. destruct found.
      * apply before_stop_found in Hb as (Hpre & r' & post' & -> & Hr').
        rewrite scan_rows_at_stop in Hl by done.
        by destruct (Scan.scan_rows _ _ _ _ st pre').
      * by apply before_stop_none in Hb as [_ ?].
  - intros [= <-].
    destruct (before_stop l) as [pre' found] eqn:Hb. destruct found.
    + apply before_stop_found in Hb as (Hpre & r' & post' & -> & Hr').
      exists [], pre', r', post'. simpl. rewrite Nat.add_0_r.
      split; [lia|]. split; [|done]. intros i rows Hi. inversion Hi.
    + apply before_stop_none in Hb as [_ Hno].
      by apply scan_rows_no_break in Hl.
Qed.

(** X4.  The scan ends normally only at a row older than [start_time]: if it
    returns the variables, some page served within the bound holds a row that
    [stops], every page before it was served, and no earlier row stops. *)
Theorem scan_ends_only_at_old_row feed fuel st :
  scan feed fuel = Some (Ok st) →
  ∃ pages pre r post,
    (length pages < fuel)%nat ∧
    (∀ i rows, pages !! i = Some rows → feed i = Ok rows) ∧
    feed (length pages) = Ok (pre ++ r :: post) ∧
    stops r = true ∧
    Forall (λ x, stops x = false) (concat pages ++ pre).
Proof. apply scan_pages_old_row. Qed.

Lemma scan_rows_passes l : ∀ st,
  Forall passes l → ∃ st', scan_rows st l = Next st'.
Proof.
  induction l as [|r l IH]; intros st Hl; simpl; [by eauto|].
  apply Forall_cons in Hl as [Hr Hl].
  destruct (Hr st) as [st1 ->]. by apply IH.
Qed.

(** X5.  An empty page does not end the scan: on a feed that serves every
    page and holds only rows that pass (none at all, say), the loop asks for
    page after page, whatever the bound. *)
Theorem scan_runs_on_without_old_row feed fuel :
  (∀ page, ∃ rows, feed page = Ok rows ∧ Forall passes rows) →
  scan feed fuel = None.
Proof.
  intros Hfeed. unfold Scan.scan. generalize 0%nat, scan_init.
  induction fuel as [|fuel IH]; intros page st; simpl; [done|].
  destruct (Hfeed page) as (rows & -> & Hrows).
  destruct (scan_rows_passes rows st Hrows) as [st' ->]. apply IH.
Qed.

Lemma scan_rows_without_details l : ∀ st,
  scan_rows st (filter (λ r, is_testcases_row r = false) l) = scan_rows st l.
Proof.
  induction l as [|r l IH]; intros st; [done|].
  rewrite filter_cons. destruct (decide (is_testcases_row r = false)) as [Hr|Hr].
  - simpl. destruct (scan_row st r); auto.
  - simpl. unfold Scan.scan_row.
    destruct (is_testcases_row r); [apply IH|done].
Qed.

(** X6.  Rows whose [class] holds [testcases-row] play no part: a feed and
    the same feed without these rows give the same outcome. *)
Theorem scan_ignores_detail_rows feed fuel :
  scan (without_details feed) fuel = scan feed fuel.
Proof.
  unfold Scan.scan. generalize 0%nat, scan_init.
  induction fuel as [|fuel IH]; intros page st; simpl; [done|].
  unfold without_details at 1.
  destruct (feed page) as [l|]; [|done].
  rewrite scan_rows_without_details.
  destruct (Scan.scan_rows _ _ _ _ st l); auto.
Qed.

Lemma before_stop_app l1 l2 :
  before_stop (l1 ++ l2) =
  match before_stop l1 with
  | (pre, true) => (pre, true)
  | (pre, false) => (pre ++ fst (before_stop l2), snd (before_stop l2))
  end.
Proof.
  induction l1 as [|x l1 IH]; simpl.
  { by destruct (before_stop l2). }
  destruct (stops x); [done|]. rewrite IH.
  destruct (before_stop l1) as [pre [|]]; [done|].
  by destruct (before_stop l2).
Qed.

Lemma scan_pages_concat feed pages : ∀ fuel page st,
  (∀ i rows, pages !! i = Some rows → feed (page + i)%nat = Ok rows) →
  (length pages ≤ fuel)%nat →
  snd (before_stop (concat pages)) = true →
  scan_pages feed fuel page st =
  Some (finish (scan_rows st (fst (before_stop (concat pages))))).
Proof.
  induction pages as [|l pages IH]; intros fuel page st Hfeed Hfuel; simpl.
  { done. }
  destruct fuel as [|fuel]; [simpl in Hfuel; lia|]. simpl.
  rewrite <- (Nat.add_0_r page) at 1. rewrite (Hfeed 0%nat l eq_refl).
  rewrite before_stop_app.
  destruct (before_stop l) as [pre found] eqn:Hb. destruct found.
  - intros _. simpl.
    apply before_stop_found in Hb as (Hpre & r & post & -> & Hr).
    rewrite scan_rows_at_stop by done.
    by destruct (Scan.scan_rows _ _ _ _ st pre).
  - simpl. intros Hfound.
    apply before_stop_none in Hb as [-> Hno].
    rewrite scan_rows_app.
    destruct (scan_rows st l) as [st1|st1|e] eqn:Hl; [| |done].
    + apply IH; [|simpl in Hfuel; lia|done].
      intros i rows Hi. rewrite <- (Hfeed (S i) rows Hi). f_equal. lia.
    + by apply scan_rows_no_break in Hl.
Qed.

(** X7.  How the rows are cut into pages plays no part: two feeds that
    serve the same rows in the same order, up to a row older than
    [start_time], give the same outcome, which is that of the loop body over
    the rows before the first such row. *)
Theorem scan_ignores_page_breaks feed1 feed2 pages1 pages2 fuel1 fuel2 :
  (∀ i rows, pages1 !! i = Some rows → feed1 i = Ok rows) →
  (∀ i rows, pages2 !! i = Some rows → feed2 i = Ok rows) →
  concat pages1 = concat pages2 →
  Exists (λ r, stops r = true) (concat pages1) →
  (length pages1 ≤ fuel1)%nat → (length pages2 ≤ fuel2)%nat →
  scan feed1 fuel1 = scan feed2 fuel2 ∧
  scan feed1 fuel1 =
    Some (finish (scan_rows scan_init (fst (before_stop (concat pages1))))).
Proof.
  intros H1 H2 Heq Hex Hf1 Hf2.
  assert (snd (before_stop (concat pages1)) = true) as Hfound.
  { clear -Hex. induction Hex as [x l Hx|x l _ IH]; simpl.
    - by rewrite Hx.
    - destruct (stops x); [done|].
      by destruct (before_stop l) as [pre found]; simpl in *. }
  unfold Scan.scan.
  rewrite (scan_pages_concat feed1 pages1), (scan_pages_concat feed2 pages2);
    try done; [by rewrite Heq|by rewrite <- Heq].
Qed.

(** X8.  The contest window is closed at both ends: a submission row timed
    exactly [start_time] does not end the scan, and one timed exactly
    [end_time] leaves [late_submission] as it is. *)
Theorem window_is_closed st r :
  (submit_time r = Ok start_time → ∀ st', scan_row st r ≠ Break st') ∧
  (submit_time r = Ok end_time →
   ∀ st', scan_row st r = Next st' → late_submission st' = late_submission st).
Proof.
  split.
  - intros Ht st' [Hs _]%scan_row_break.
    unfold Scan.stops in Hs. rewrite Ht, ltb_irrefl in Hs.
    by destruct (is_testcases_row r).
  - intros Ht st' [[-> _]|(u & t & Hby & Hrec)]%scan_row_next; [done|].
    apply record_row_next in Hrec as (_ & -> & _).
    destruct Hby as (_ & Ht' & _). rewrite Ht in Ht'. injection Ht' as <-.
    unfold Datetime.gtb. by rewrite ltb_irrefl.
Qed.

End ScanMore.

Lemma scan_ends_only_at_old_row_witness :
  ∃ pages pre r post,
    (length pages < 2)%nat ∧
    (∀ i rows, pages !! i = Some rows → Sample.feed i = Ok rows) ∧
    Sample.feed (length pages) = Ok (pre ++ r :: post) ∧
    Scan.stops Sample.today Sample.start_time r = true ∧
    Forall (λ x, Scan.stops Sample.today Sample.start_time x = false)
      (concat pages ++ pre).
Proof.
  apply (scan_ends_only_at_old_row Sample.today Sample.start_time
           Sample.end_time Sample.roster Sample.feed 2 Sample.final).
  vm_compute; reflexivity.
Defined.

Lemma scan_runs_on_without_old_row_witness :
  Scan.scan Sample.today Sample.start_time Sample.end_time Sample.roster
    (λ _, Ok []) 7 = None.
Proof.
  apply (scan_runs_on_without_old_row Sample.today Sample.start_time
           Sample.end_time Sample.roster (λ _, Ok []) 7).
  intros page. exists []. split; [reflexivity|constructor].
Defined.

Lemma scan_ignores_page_breaks_witness :
  let one_page := λ page : nat,
    match page with
    | 0%nat => Ok (Sample.page0 ++
                   Sample.page1_before ++ Sample.old_row :: Sample.page1_after)
    | _ => Raise RequestException
    end in
  Scan.scan Sample.today Sample.start_time Sample.end_time Sample.roster
    Sample.feed 2 =
  Scan.scan Sample.today Sample.start_time Sample.end_time Sample.roster
    one_page 1 ∧
  Scan.scan Sample.today Sample.start_time Sample.end_time Sample.roster
    Sample.feed 2 =
  Some (finish
          (Scan.scan_rows Sample.today Sample.start_time Sample.end_time
             Sample.roster scan_init
             (fst (Scan.before_stop Sample.today Sample.start_time
                     (concat [Sample.page0;
                              Sample.page1_before ++
                              Sample.old_row :: Sample.page1_after]))))).
Proof.
  intros one_page.
  apply (scan_ignores_page_breaks Sample.today Sample.start_time
           Sample.end_time Sample.roster Sample.feed one_page
           [Sample.page0;
            Sample.page1_before ++ Sample.old_row :: Sample.page1_after]
           [Sample.page0 ++
            Sample.page1_before ++ Sample.old_row :: Sample.page1_after]).
  - intros [|[|i]] rows; simpl; [by intros [= <-]..|done].
  - intros [|i] rows; simpl; [by intros [= <-]|done].
  - vm_compute; reflexivity.
  - apply Exists_exists. exists Sample.old_row. split.
    + apply list_elem_of_In. vm_compute. tauto.
    + vm_compute; reflexivity.
  - simpl; lia.
  - simpl; lia.
Defined.

(** ** The report and the reconciliation after a scan *)

Section ReportMore.

Variable today : date.
Variables start_time end_time : datetime.
Variable R : Roster.

Abbreviation scan_rows := (Scan.scan_rows today start_time end_time R).
Abbreviation scan := (Scan.scan today start_time end_time R).
Abbreviation submitted_by := (Scan.submitted_by today).
Abbreviation scanned := (Scan.scanned today start_time).

Implicit Types (st : ScanState) (r : SubmissionRow).
Implicit Types (feed : nat → result (list SubmissionRow)).

Lemma scan_dict_keys feed fuel st u :
  scan feed fuel = Some (Ok st) →
  is_Some (submission_dict st !! u) ↔
  u ∈ accepted R ∧ ∃ r t, r ∈ scanned feed fuel ∧ submitted_by r u t.
Proof.
  intros [Hrows _]%scan_scanned. split.
  - intros [v Hv].
    destruct (scan_rows_dict_source _ _ _ _ _ _ _ _ _ Hrows Hv)
      as [He|(Hu & r & t & id_ & Hr & Hby & _)].
    + simpl in He. by rewrite lookup_empty in He.
    + eauto.
  - intros [Hu Hex].
    destruct (last_submitted_by today u _ Hex)
      as (pre & r & post & t & Heq & Hby & Hno).
    rewrite Heq in Hrows.
    destruct (scan_rows_dict_last _ _ _ _ _ _ _ _ _ _ _ Hrows Hby Hu Hno)
      as (id_ & _ & ->).
    eauto.
Qed.

Lemma scan_late_no_submission feed fuel st :
  scan feed fuel = Some (Ok st) → late_submission st ⊆ no_submission R.
Proof.
  intros [Hrows _]%scan_scanned u Hu.
  apply (scan_rows_late _ _ _ _ _ _ _ Hrows) in Hu
    as [Hu|(_ & _ & _ & _ & _ & ?)]; [|done].
  by apply not_elem_of_empty in Hu.
Qed.

(** X9.  When the three primary sets are pairwise disjoint, every student
    of the roster is in exactly one of five places after the scan: the keys
    of [submission_dict], or the lines Early Submission, Late Submission,
    Attempted Only and No Submission of the report; nobody else is.  The line
    Attempted Only then lists all of [attempted]: taking [late_submission]
    out of it removes nobody. *)
Theorem report_partitions_roster feed fuel st :
  scan feed fuel = Some (Ok st) →
  accepted R ## attempted R →
  accepted R ## no_submission R →
  attempted R ## no_submission R →
  ∃ early late att nosub,
    report_line "Early Submission " R st = Some early ∧
    report_line "Late Submission" R st = Some late ∧
    report_line "Attempted Only" R st = Some att ∧
    report_line "No Submission" R st = Some nosub ∧
    att = sorted_set (attempted R) ∧
    NoDup (elements (dom (submission_dict st)) ++
           early ++ late ++ att ++ nosub) ∧
    ∀ u, u ∈ elements (dom (submission_dict st)) ++
             early ++ late ++ att ++ nosub ↔
         u ∈ student_list R.
Proof.
  intros Hscan Hat Han Htn.
  pose proof (scan_late_no_submission _ _ _ Hscan) as Hlate.
  assert (dom (submission_dict st) ⊆ accepted R) as Hdom.
  { intros u Hu%elem_of_dom. by apply (scan_dict_keys _ _ _ u Hscan) in Hu as [? _]. }
  assert (attempted R ∖ late_submission st = attempted R) as Hatt.
  { apply set_eq. intros u. rewrite elem_of_difference.
    split; [tauto|]. intros Hu. split; [done|]. intros Hl%Hlate.
    by apply (Htn u). }
  eexists _, _, _, _.
  split; [reflexivity|]. split; [reflexivity|]. split; [reflexivity|].
  split; [reflexivity|]. split; [by rewrite Hatt|].
  destruct (sorted_set_spec (accepted R ∖ dom (submission_dict st)))
    as (_ & Hn1 & Hi1).
  destruct (sorted_set_spec (late_submission st)) as (_ & Hn2 & Hi2).
  destruct (sorted_set_spec (attempted R ∖ late_submission st))
    as (_ & Hn3 & Hi3).
  destruct (sorted_set_spec (no_submission R ∖ late_submission st))
    as (_ & Hn4 & Hi4).
  split.
  - repeat (apply NoDup_app; split; [|split]); try done.
    + apply NoDup_elements.
    + intros u Hu%elem_of_elements.
      rewrite !elem_of_app, Hi1, Hi2, Hi3, Hi4, !elem_of_difference.
      intros [[_ ?]|[Hl%Hlate|[[Ha _]|[Hns _]]]]; [done|..];
        apply Hdom in Hu; [by apply (Han u)|by apply (Hat u)|by apply (Han u)].
    + intros u [Hu _]%Hi1%elem_of_difference.
      rewrite !elem_of_app, Hi2, Hi3, Hi4, !elem_of_difference.
      intros [Hl%Hlate|[[Ha _]|[Hns _]]];
        [by apply (Han u)|by apply (Hat u)|by apply (Han u)].
    + intros u Hu%Hi2.
      rewrite !elem_of_app, Hi3, Hi4, !elem_of_difference.
      intros [[_ ?]|[_ ?]]; done.
    + intros u [Hu _]%Hi3%elem_of_difference.
      rewrite Hi4, elem_of_difference. intros [Hns _]. by apply (Htn u).
  - intros u. unfold student_list.
    rewrite !elem_of_app, elem_of_elements, Hi1, Hi2, Hi3, Hi4,
      !elem_of_difference, !elem_of_union.
    split.
    + intros [Hu%Hdom|[[? _]|[Hl%Hlate|[[? _]|[? _]]]]]; auto.
    + intros [[Ha|Ht]|Hn].
      * destruct (decide (u ∈ dom (submission_dict st))); auto.
      * destruct (decide (u ∈ late_submission st)); auto 10.
      * destruct (decide (u ∈ late_submission st)); auto 10.
Qed.

(** X10.  The line Early Submission lists the members of [accepted] of whom
    the scan met no submission row. *)
Theorem early_submission_line feed fuel st :
  scan feed fuel = Some (Ok st) →
  ∃ early,
    report_line "Early Submission " R st = Some early ∧
    ∀ u, u ∈ early ↔
         u ∈ accepted R ∧
         ∀ r t, r ∈ scanned feed fuel → ¬ submitted_by r u t.
Proof.
  intros Hscan. eexists. split; [reflexivity|]. intros u.
  destruct (sorted_set_spec (accepted R ∖ dom (submission_dict st)))
    as (_ & _ & ->).
  rewrite elem_of_difference, elem_of_dom, (scan_dict_keys _ _ _ u Hscan).
  split.
  - intros [Hu Hno]. split; [done|]. intros r t Hr Hby. apply Hno. eauto.
  - intros [Hu Hno]. split; [done|]. intros [_ (r & t & Hr & Hby)].
    by apply (Hno r t).
Qed.

Lemma scan_rows_author_bound l : ∀ st st',
  scan_rows st l = Next st' →
  submission_dict st = ∅ ∨ is_Some (author st) →
  submission_dict st' = ∅ ∨ is_Some (author st').
Proof.
  induction l as [|r l IH]; intros st st'; simpl; [by intros [= <-]|].
  destruct (Scan.scan_row _ _ _ _ st r) as [st1| |] eqn:Hrow; [|done..].
  intros Hrest Hst. apply (IH _ _ Hrest).
  apply scan_row_next in Hrow as [[-> _]|(u & t & _ & Hrec)]; [done|].
  apply record_row_next in Hrec as (-> & _). right. eauto.
Qed.

Lemma filter_agree {A} (P Q : A → Prop) `{!∀ x, Decision (P x)}
    `{!∀ x, Decision (Q x)} (l : list A) :
  (∀ x, x ∈ l → (P x ↔ Q x)) → filter P l = filter Q l.
Proof.
  induction l as [|x l IH]; intros Hl; [done|].
  rewrite !filter_cons, IH by (intros y Hy; apply Hl; by right).
  assert (P x ↔ Q x) by (apply Hl; by left).
  destruct (decide (P x)), (decide (Q x)); tauto.
Qed.

Lemma filter_missing_kept ids dir :
  filter (λ i, i ∉ names (wanted ids dir)) ids =
  filter (λ i, i ∉ names dir) ids.
Proof.
  apply filter_agree. intros i Hi.
  unfold names, wanted. rewrite !list_elem_of_fmap.
  split; intros Hno (e & -> & He); apply Hno.
  - exists e. split; [done|]. apply list_elem_of_filter. auto.
  - apply list_elem_of_filter in He as [_ He]. eauto.
Qed.

(** X11.  After a scan that ended normally, the reconciliation raises only
    what [os.listdir] or [shutil.rmtree] raise, a [FileNotFoundError] apart,
    which is caught: line 278 never meets an unbound [author].  When
    [shutil.rmtree] removes whatever it is called on, the directory is left
    with its regular files and the directories named by a value of
    [submission_dict], in their order.  The list printed then has one element
    for every value without a like-named entry, each being the author the
    scan read last; for an empty directory it is empty whatever the values. *)
Theorem reconcile_after_scan feed fuel st rmtree dir :
  scan feed fuel = Some (Ok st) →
  let ids := submission_id_list st in
  (∀ e, reconcile rmtree dir st = Raise e →
        e ≠ FileNotFoundError ∧
        (dir = Raise e ∨
         ∃ entries name,
           dir = Ok entries ∧ (name, true) ∈ entries ∧ (name ∉ ids) ∧
           rmtree name = Some e)) ∧
  (∀ entries,
     dir = Ok entries →
     (∀ name, (name, true) ∈ entries → name ∉ ids → rmtree name = None) →
     ∃ missing,
       reconcile rmtree dir st =
         Ok (mkReconciled (Some (wanted ids entries)) missing) ∧
       (∀ m, m ∈ missing → author st = Some m) ∧
       length missing =
         match entries with
         | [] => 0%nat
         | _ :: _ => length (filter (λ i, i ∉ names entries) ids)
         end).
Proof.
  intros [Hrows _]%scan_scanned ids.
  assert (ids = [] ∨ ∃ a, author st = Some a) as Hauthor.
  { destruct (scan_rows_author_bound _ _ _ Hrows) as [He|[a Ha]].
    - by left.
    - left. unfold ids, submission_id_list. rewrite He.
      by rewrite map_to_list_empty.
    - right. eauto. }
  assert (∀ kept, ∃ missing,
            collect_missing (author st) kept ids = Ok missing ∧
            (∀ m, m ∈ missing → author st = Some m) ∧
            length missing = length (filter (λ i, i ∉ names kept) ids))
    as Hcollect.
  { intros kept. destruct Hauthor as [->|[a Ha]].
    - exists []. repeat split; try done. intros m Hm. inversion Hm.
    - rewrite Ha, collect_missing_author. eexists. split; [done|].
      split; [|by rewrite length_replicate].
      by intros m [-> _]%elem_of_replicate. }
  split.
  - intros e. unfold reconcile. fold ids.
    destruct dir as [[|e0 entries]|e0]; [done| |].
    + destruct (remove_redundant rmtree ids (e0 :: entries))
        as [kept [x|]] eqn:Hrem.
      * apply remove_redundant_raises in Hrem as (name & Hin & Hid & Hrm).
        destruct x; try done; intros [= <-]; (split; [done|]); right;
          by exists (e0 :: entries), name.
      * destruct (Hcollect kept) as (missing & -> & _). done.
    + destruct e0; try done; intros [= <-]; (split; [done|]); by left.
  - intros entries -> Hrm. unfold reconcile. fold ids.
    destruct entries as [|e0 entries].
    { exists []. repeat split; try done. intros m Hm. inversion Hm. }
    rewrite (remove_redundant_ok _ _ _ Hrm).
    destruct (Hcollect (wanted ids (e0 :: entries))) as (missing & -> & ? & Hlen).
    exists missing. split; [done|]. split; [done|].
    by rewrite Hlen, filter_missing_kept.
Qed.

(** X12.  Reconciling a second time changes nothing: nothing more is
    removed, and the same list is printed again unless the first run left the
    directory empty. *)
Theorem reconcile_twice rmtree dir st rec :
  reconcile rmtree (Ok dir) st = Ok rec →
  ∃ kept,
    dir_after rec = Some kept ∧
    fst (remove_redundant rmtree (submission_id_list st) kept) = kept ∧
    (kept ≠ [] → reconcile rmtree (Ok kept) st = Ok rec).
Proof.
  intros Hrec. destruct dir as [|e0 dir'].
  { injection Hrec as <-. exists []. by repeat split. }
  unfold reconcile in Hrec.
  destruct (remove_redundant rmtree (submission_id_list st) (e0 :: dir'))
    as [kept x] eqn:Hrem.
  pose proof (remove_redundant_idem _ _ _ _ _ Hrem) as Hidem.
  exists kept.
  assert (dir_after rec = Some kept) as Hdir.
  { destruct x as [[]|]; try done; [by injection Hrec as <-|].
    destruct (collect_missing _ _ _); [|done]. by injection Hrec as <-. }
  split; [done|]. split; [by rewrite Hidem|].
  intros Hne. unfold reconcile. destruct kept as [|k kept']; [done|].
  by rewrite Hidem.
Qed.

End ReportMore.

Lemma sample_roster_disjoint :
  accepted Sample.roster ## attempted Sample.roster ∧
  accepted Sample.roster ## no_submission Sample.roster ∧
  attempted Sample.roster ## no_submission Sample.roster.
Proof.
  split; [|split]; apply (bool_decide_unpack _); vm_compute; exact I.
Defined.

Lemma report_partitions_roster_witness :
  ∃ early late att nosub,
    report_line "Early Submission " Sample.roster Sample.final = Some early ∧
    report_line "Late Submission" Sample.roster Sample.final = Some late ∧
    report_line "Attempted Only" Sample.roster Sample.final = Some att ∧
    report_line "No Submission" Sample.roster Sample.final = Some nosub ∧
    att = sorted_set (attempted Sample.roster) ∧
    NoDup (elements (dom (submission_dict Sample.final)) ++
           early ++ late ++ att ++ nosub) ∧
    ∀ u, u ∈ elements (dom (submission_dict Sample.final)) ++
             early ++ late ++ att ++ nosub ↔
         u ∈ student_list Sample.roster.
Proof.
  apply (report_partitions_roster Sample.today Sample.start_time
           Sample.end_time Sample.roster Sample.feed 2 Sample.final).
  - vm_compute; reflexivity.
  - apply sample_roster_disjoint.
  - apply sample_roster_disjoint.
  - apply sample_roster_disjoint.
Defined.

Lemma early_submission_line_witness :
  ∃ early,
    report_line "Early Submission " Sample.roster Sample.final = Some early ∧
    ∀ u, u ∈ early ↔
         u ∈ accepted Sample.roster ∧
         ∀ r t, r ∈ Scan.scanned Sample.today Sample.start_time Sample.feed 2 →
                ¬ Scan.submitted_by Sample.today r u t.
Proof.
  apply (early_submission_line Sample.today Sample.start_time Sample.end_time
           Sample.roster Sample.feed 2 Sample.final).
  vm_compute; reflexivity.
Defined.

Lemma reconcile_after_scan_witness :
  let ids := submission_id_list Sample.final_two in
  let rmtree : string → option exn := λ _, None in
  (∀ e, reconcile rmtree (Ok Sample.local) Sample.final_two = Raise e →
        e ≠ FileNotFoundError ∧
        (Ok Sample.local = Raise e ∨
         ∃ entries name,
           Ok Sample.local = Ok entries ∧ (name, true) ∈ entries ∧
           (name ∉ ids) ∧ rmtree name = Some e)) ∧
  (∀ entries,
     Ok Sample.local = Ok entries →
     (∀ name, (name, true) ∈ entries → name ∉ ids → rmtree name = None) →
     ∃ missing,
       reconcile rmtree (Ok Sample.local) Sample.final_two =
         Ok (mkReconciled (Some (wanted ids entries)) missing) ∧
       (∀ m, m ∈ missing → author Sample.final_two = Some m) ∧
       length missing =
         match entries with
         | [] => 0%nat
         | _ :: _ => length (filter (λ i, i ∉ names entries) ids)
         end).
Proof.
  apply (reconcile_after_scan Sample.today Sample.start_time Sample.end_time
           Sample.roster Sample.feed_two 1 Sample.final_two (λ _, None)
           (Ok Sample.local)).
  vm_compute; reflexivity.
Defined.

Lemma reconcile_twice_witness :
  ∃ kept,
    dir_after (mkReconciled (Some [("2", true)]) ["alice"]) = Some kept ∧
    fst (remove_redundant (λ _, None) (submission_id_list Sample.final_two)
           kept) = kept ∧
    (kept ≠ [] →
     reconcile (λ _, None) (Ok kept) Sample.final_two =
     Ok (mkReconciled (Some [("2", true)]) ["alice"])).
Proof.
  apply (reconcile_twice (λ _, None) Sample.local Sample.final_two).
  vm_compute; reflexivity.
Defined.

(** ** Timestamps: whose date *)

Lemma strptime_fallback_date today full bare itsf itsb s t :
  Datetime.compile false full = Some itsf →
  Datetime.compile false bare = Some itsb →
  Datetime.count_lit "-" itsb = 0%nat →
  strptime_fallback today full bare s = Ok t →
  (Datetime.count_char "-" s = Datetime.count_lit "-" itsf ∧
   ∀ today', strptime_fallback today' full bare s = Ok t) ∨
  (Datetime.count_char "-" s = 0%nat ∧
   (year t, month t, day t) = (d_year today, d_month today, d_day today) ∧
   ∀ today', strptime_fallback today' full bare s =
             Ok (Datetime.replace_date t today')).
Proof.
  intros Hf Hb Hnone. unfold strptime_fallback.
  destruct (Datetime.strptime s full) as [t1|] eqn:H1.
  - intros [= <-]. left. split; [|done].
    apply (strptime_separators _ _ _ _ "-" Hf H1). by right.
  - destruct (Datetime.strptime s bare) as [t2|] eqn:H2; [|done].
    intros [= <-]. right. split; [|done].
    rewrite <- Hnone. apply (strptime_separators _ _ _ _ "-" Hb H2). by right.
Qed.

(** X13.  A timestamp is read with its own date or with today's, and the
    text tells which.  A text with two dashes is read the same whatever
    today's date is.  A text without a dash gets the year, month and day of
    today, only the time of day coming from the text: read on another day, it
    is a time of that day.  No other text is accepted, by either parser. *)
Theorem timestamp_date today s t :
  (parse_submit today s = Ok t →
   (Datetime.count_char "-" s = 2%nat ∧
    ∀ today', parse_submit today' s = Ok t) ∨
   (Datetime.count_char "-" s = 0%nat ∧
    (year t, month t, day t) = (d_year today, d_month today, d_day today) ∧
    ∀ today', parse_submit today' s = Ok (Datetime.replace_date t today'))) ∧
  (parse_contest today s = Ok t →
   (Datetime.count_char "-" s = 2%nat ∧
    ∀ today', parse_contest today' s = Ok t) ∨
   (Datetime.count_char "-" s = 0%nat ∧
    (year t, month t, day t) = (d_year today, d_month today, d_day today) ∧
    ∀ today', parse_contest today' s = Ok (Datetime.replace_date t today'))).
Proof.
  split.
  - apply (strptime_fallback_date _ _ _ _ _ _ _
             compile_submit_full compile_submit_bare eq_refl).
  - apply (strptime_fallback_date _ _ _ _ _ _ _
             compile_contest_full compile_contest_bare eq_refl).
Qed.

Lemma timestamp_date_witness :
  let t := mkdt 2024 1 5 23 59 59 in
  parse_submit Sample.today "23:59:59" = Ok t ∧
  ((Datetime.count_char "-" "23:59:59" = 2%nat ∧
    ∀ today', parse_submit today' "23:59:59" = Ok t) ∨
   (Datetime.count_char "-" "23:59:59" = 0%nat ∧
    (year t, month t, day t) =
      (d_year Sample.today, d_month Sample.today, d_day Sample.today) ∧
    ∀ today', parse_submit today' "23:59:59" =
              Ok (Datetime.replace_date t today'))).
Proof.
  intros t.
  assert (parse_submit Sample.today "23:59:59" = Ok t) as Hp
    by (vm_compute; reflexivity).
  split; [exact Hp|].
  exact (proj1 (timestamp_date Sample.today "23:59:59" t) Hp).
Defined.

(** X14.  A contest-start (or contest-end) element with fewer than three
    words makes the script fail with [ValueError]: nothing is left between
    the first and the last word. *)
Theorem contest_time_few_words today text :
  (length (Py.split text) ≤ 2)%nat →
  contest_time today (Some text) = Raise ValueError.
Proof.
  intros Hlen. unfold contest_time, inner_words. simpl.
  assert (Py.slice_1_m1 (Py.split text) = []) as ->; [|reflexivity].
  destruct (Py.split text) as [|a [|b [|c l]]]; try done.
  simpl in Hlen. lia.
Qed.

Lemma contest_time_few_words_witness :
  contest_time Sample.today (Some "09:00 CET") = Raise ValueError.
Proof.
  apply (contest_time_few_words Sample.today "09:00 CET").
  vm_compute. lia.
Defined.

(** ** [get_file.py]: when it fails *)

Lemma split_on_two sep s :
  GetFile.has_char sep s = true → ∃ a b l, Py.split_on sep s = a :: b :: l.
Proof.
  induction s as [|c s IH]; simpl; [done|].
  destruct (Ascii.eqb c sep); simpl.
  - intros _. destruct s as [|c' s]; simpl; [by eauto|].
    destruct (Ascii.eqb c' sep); [by eauto|].
    destruct (Py.split_on sep s); by eauto.
  - intros (a & b & l & ->)%IH. by eauto.
Qed.

(** X15.  The script gets to writing exactly when the URL has a path that
    holds a slash; a URL without path fails with [AttributeError] and a path
    without slash with [IndexError], in both cases after the download and
    before any file is touched. *)
Theorem get_file_errors cwd isdir path text :
  (GetFile.run cwd isdir path text = Raise AttributeError ↔ path = None) ∧
  (GetFile.run cwd isdir path text = Raise IndexError ↔
   ∃ p, path = Some p ∧ GetFile.has_char "/" p = false) ∧
  ((∃ calls, GetFile.run cwd isdir path text = Ok calls) ↔
   ∃ p, path = Some p ∧ GetFile.has_char "/" p = true).
Proof.
  unfold GetFile.run. destruct path as [p|]; simpl.
  2:{ split; [done|]. split; split.
      - done.
      - by intros (p & [=] & _).
      - by intros [calls [=]].
      - by intros (p & [=] & _). }
  destruct (GetFile.has_char "/" p) eqn:Hp.
  - destruct (split_on_two _ _ Hp) as (a & b & l & ->).
    change (Py.index (a :: b :: l) 1) with (Some b).
    rewrite last_item_last.
    destruct (last (a :: b :: l)) as [file|] eqn:Hlast.
    2:{ by rewrite !last_cons in Hlast; destruct (last l). }
    split; [done|]. split; split.
    + done.
    + intros (p' & [= <-] & ?). congruence.
    + eauto.
    + eauto.
  - rewrite (split_on_single _ _ Hp).
    change (Py.index [p] 1) with (@None string).
    split; [done|]. split; split.
    + eauto.
    + done.
    + by intros [calls [=]].
    + intros (p' & [= <-] & ?). congruence.
Qed.

(** ** Configuration and login *)

Section LoginFacts.

Import Login.

Implicit Types (cfg : config) (sec : gmap string string).

(** *** Interpolation *)

Lemma key_match_length s name rest :
  key_match s = Some (name, rest) →
  (String.length rest < String.length s)%nat.
Proof.
  revert name. induction s as [|c s IH]; intros name; simpl; [done|].
  destruct (Ascii.eqb c ")").
  - destruct s as [|c' s']; [done|]. destruct (Ascii.eqb c' "s"); [|done].
    intros [= _ <-]. simpl. lia.
  - destruct (key_match s) as [[n r]|]; [|done].
    intros [= _ <-]. specialize (IH n eq_refl). lia.
Qed.

(** The bound on the iterations plays no part once it is the length of the
    text or more. *)
Lemma interpolate_loop_fuel map deeper : ∀ n m rest,
  (String.length rest ≤ n)%nat → (String.length rest ≤ m)%nat →
  interpolate_loop map deeper n rest = interpolate_loop map deeper m rest.
Proof.
  induction n as [|n IH]; intros m rest Hn Hm.
  { destruct rest; [by destruct m|simpl in Hn; lia]. }
  destruct rest as [|c r]; [by destruct m|].
  destruct m as [|m]; [simpl in Hm; lia|].
  simpl in Hn, Hm |- *.
  destruct (Ascii.eqb c "%").
  2:{ by rewrite (IH m r) by lia. }
  destruct r as [|c' r']; [done|]. simpl in Hn, Hm.
  destruct (Ascii.eqb c' "%"); [by rewrite (IH m r') by lia|].
  destruct (Ascii.eqb c' "("); [|done].
  destruct (key_match r') as [[[|k name] rest']|] eqn:Hkey; try done.
  apply key_match_length in Hkey.
  by rewrite (IH m rest') by lia.
Qed.

Lemma interpolate_loop_plain map deeper v : ∀ n,
  GetFile.has_char "%" v = false → (String.length v ≤ n)%nat →
  interpolate_loop map deeper n v = Done v.
Proof.
  induction v as [|c v IH]; intros n Hv Hn; [by destruct n|].
  destruct n as [|n]; [simpl in Hn; lia|].
  simpl in Hv, Hn |- *. apply orb_false_iff in Hv as [-> Hv].
  rewrite IH by (done || lia). done.
Qed.

Lemma before_get_plain d raw :
  GetFile.has_char "%" raw = false → before_get d raw = Done raw.
Proof. intros Hraw. by apply interpolate_loop_plain. Qed.

Lemma interpolate_loop_errors map deeper e : ∀ n rest,
  (∀ v, deeper v = Error e → interpolation_error e = true) →
  interpolate_loop map deeper n rest = Error e →
  interpolation_error e = true.
Proof.
  assert (∀ x r, emit x r = Error e → r = Error e) as Hemit.
  { intros x [y|e']; simpl; congruence. }
  induction n as [|n IH]; intros rest Hd; [by destruct rest|].
  destruct rest as [|c r]; [done|]. simpl.
  destruct (Ascii.eqb c "%").
  2:{ intros He%Hemit. by apply (IH r). }
  destruct r as [|c' r']; [by intros [= <-]|].
  destruct (Ascii.eqb c' "%").
  { intros He%Hemit. by apply (IH r'). }
  destruct (Ascii.eqb c' "("); [|by intros [= <-]].
  destruct (key_match r') as [[[|k name] rest']|]; try by intros [= <-].
  destruct (map !! _) as [v|]; [|by intros [= <-]].
  destruct (GetFile.has_char "%" v).
  - destruct (deeper v) as [x|e'] eqn:Hv.
    + intros He%Hemit. by apply (IH rest').
    + intros [= ->]. by apply (Hd v).
  - intros He%Hemit. by apply (IH rest').
Qed.

(** Interpolation fails with an [InterpolationError] only. *)
Lemma before_get_errors d raw e :
  before_get d raw = Error e → interpolation_error e = true.
Proof.
  unfold before_get. generalize MAX_INTERPOLATION_DEPTH. intros left.
  revert raw. induction left as [|left IH]; intros raw; simpl.
  { by intros [= <-]. }
  apply interpolate_loop_errors. intros v. apply IH.
Qed.

(** *** Lookups *)

Lemma has_option_seen cfg section opt sec :
  String.eqb section EmptyString || String.eqb section default_section = false →
  cfg !! section = Some sec →
  has_option cfg section opt =
  bool_decide (is_Some ((sec ∪ defaults cfg) !! optionxform opt)).
Proof.
  unfold has_option. intros -> ->.
  rewrite <- bool_decide_or. apply bool_decide_ext.
  by rewrite lookup_union_is_Some.
Qed.

Lemma get_seen cfg section opt sec :
  String.eqb section default_section = false →
  cfg !! section = Some sec →
  get cfg section opt =
  match (sec ∪ defaults cfg) !! optionxform opt with
  | Some raw => before_get (sec ∪ defaults cfg) raw
  | None => Error NoOptionError
  end.
Proof. unfold get, unify_values. by intros -> ->. Qed.

Lemma get_no_section cfg section opt :
  String.eqb section default_section = false →
  cfg !! section = None → get cfg section opt = Error NoSectionError.
Proof. unfold get, unify_values. by intros -> ->. Qed.

Lemma optionxform_literals :
  optionxform "hostname" = "hostname" ∧ optionxform "username" = "username" ∧
  optionxform "password" = "password" ∧ optionxform "token" = "token".
Proof. repeat split; vm_compute; reflexivity. Qed.

(** X16.  [get_url] returns the option of section [kattis] when the section
    or the defaults set it, whatever the case of the letters of its name and
    also when there is no hostname; otherwise the URL made of the hostname and
    the default path.  Either value is interpolated first, which leaves a
    value without a percent sign as it is.  The call fails with
    [NoSectionError] exactly when there is no section [kattis], with
    [NoOptionError] exactly when neither the option nor a hostname is set,
    with an [InterpolationError] exactly when the interpolation of the value
    it uses does, and in no other way. *)
Theorem get_url_cases cfg opt default :
  (get_url cfg opt default = Error NoSectionError ↔ cfg !! "kattis" = None) ∧
  (∀ sec,
     cfg !! "kattis" = Some sec →
     let d := sec ∪ defaults cfg in
     (get_url cfg opt default = Error NoOptionError ↔
      d !! optionxform opt = None ∧ d !! "hostname" = None) ∧
     (∀ v, get_url cfg opt default = Done v ↔
           (∃ raw, d !! optionxform opt = Some raw ∧
                   before_get d raw = Done v) ∨
           (d !! optionxform opt = None ∧
            ∃ raw h, d !! "hostname" = Some raw ∧ before_get d raw = Done h ∧
                     v = "https://" +:+ h +:+ "/" +:+ default)) ∧
     (∀ e, interpolation_error e = true →
           (get_url cfg opt default = Error e ↔
            (∃ raw, d !! optionxform opt = Some raw ∧
                    before_get d raw = Error e) ∨
            (d !! optionxform opt = None ∧
             ∃ raw, d !! "hostname" = Some raw ∧
                    before_get d raw = Error e)))) ∧
  get_url cfg opt default ≠ Error ConfigError ∧
  (∀ d raw, GetFile.has_char "%" raw = false → before_get d raw = Done raw).
Proof.
  destruct optionxform_literals as (Hhost & _).
  assert (∀ d raw e, before_get d raw = Error e →
            e ≠ NoSectionError ∧ e ≠ NoOptionError ∧ e ≠ ConfigError) as Hkind.
  { intros d raw e He%before_get_errors. by destruct e. }
  unfold get_url.
  destruct (cfg !! "kattis") as [sec|] eqn:Hk.
  2:{ assert (has_option cfg "kattis" opt = false) as ->
        by (unfold has_option; simpl; by rewrite Hk).
      rewrite get_no_section by done.
      split; [done|]. split; [done|]. split; [done|]. apply before_get_plain. }
  rewrite (has_option_seen _ "kattis" _ _ eq_refl Hk), !(get_seen _ "kattis" _ _ eq_refl Hk).
  rewrite Hhost. set (d := sec ∪ defaults cfg).
  split; [|split; [|split; [|apply before_get_plain]]].
  - split; [|done]. destruct (d !! optionxform opt) as [raw|] eqn:Ho.
    + rewrite bool_decide_true by eauto. by intros []%Hkind.
    + rewrite bool_decide_false by (by intros [? ?]).
      destruct (d !! "hostname") as [raw|]; [|done].
      destruct (before_get d raw) as [h|e] eqn:Hb; [done|].
      intros [= ->]. by apply Hkind in Hb as [].
  - intros sec' [= <-]. fold d. simpl.
    destruct (d !! optionxform opt) as [raw|] eqn:Ho.
    + rewrite bool_decide_true by eauto.
      split; [|split].
      * split; [by intros (_ & [] & _)%Hkind|by intros [[=] _]].
      * intros v. split; [by eauto|].
        intros [(raw' & [= <-] & ?)|[[=] _]]. done.
      * intros e He. split; [by eauto|].
        intros [(raw' & [= <-] & ?)|[[=] _]]. done.
    + rewrite bool_decide_false by (by intros [? ?]).
      destruct (d !! "hostname") as [raw|] eqn:Hh.
      * destruct (before_get d raw) as [h|e] eqn:Hb.
        -- split; [|split].
           ++ split; [done|by intros [_ [=]]].
           ++ intros v. split.
              ** intros [= <-]. right. split; [done|]. by exists raw, h.
              ** intros [(raw' & [=] & _)|(_ & raw' & h' & [= <-] & Hb' & ->)].
                 congruence.
           ++ intros e He. split; [done|].
              intros [(raw' & [=] & _)|(_ & raw' & [= <-] & ?)]. congruence.
        -- split; [|split].
           ++ split; [|by intros [_ [=]]].
              intros [= ->]. by apply Hkind in Hb as (_ & [] & _).
           ++ intros v. split; [done|].
              intros [(raw' & [=] & _)|(_ & raw' & h' & [= <-] & Hb' & _)].
              congruence.
           ++ intros e' He. split.
              ** intros [= ->]. right. split; [done|]. by exists raw.
              ** intros [(raw' & [=] & _)|(_ & raw' & [= <-] & ?)]. congruence.
      * split; [|split].
        -- done.
        -- intros v. split; [done|].
           intros [(raw' & [=] & _)|(_ & raw' & h' & [=] & _)].
        -- intros e He. split; [by intros [= <-]|].
           intros [(raw' & [=] & _)|(_ & raw' & [=] & _)].
  - destruct (d !! optionxform opt) as [raw|] eqn:Ho.
    + rewrite bool_decide_true by eauto. by intros (_ & _ & [])%Hkind.
    + rewrite bool_decide_false by (by intros [? ?]).
      destruct (d !! "hostname") as [raw|]; [|done].
      destruct (before_get d raw) as [h|e] eqn:Hb; [done|].
      intros [= ->]. by apply Hkind in Hb as (_ & _ & []).
Qed.

Lemma login_data login_url username password token :
  let data := req_data (login login_url username password token) in
  req_url (login login_url username password token) = login_url ∧
  data !! "user" = Some username ∧
  data !! "script" = Some "true" ∧
  (∀ p, data !! "password" = Some p ↔ password = Some p ∧ p ≠ EmptyString) ∧
  (∀ t, data !! "token" = Some t ↔ token = Some t ∧ t ≠ EmptyString) ∧
  dom data ⊆ {["user"; "script"; "password"; "token"]}.
Proof.
  unfold login.
  destruct password as [[|c p]|], token as [[|c' t]|]; simpl;
    (split; [done|]); (split; [done|]); (split; [done|]);
    (split; [|split]);
    try (intros x; split; [intros Hx; simplify_map_eq; done
                          |intros [Hx ?]; simplify_map_eq; done]);
    rewrite ?dom_insert_L, ?dom_empty_L; set_solver.
Qed.

Lemma get_or_none_done cfg section opt x :
  get_or_none cfg section opt = Done x →
  (∀ v, x = Some v ↔ get cfg section opt = Done v) ∧
  (x = None ↔ get cfg section opt = Error NoOptionError).
Proof.
  unfold get_or_none.
  destruct (get cfg section opt) as [v0|[]]; intros [= <-];
    (split; [intros v; split; congruence|split; congruence]).
Qed.

Lemma get_or_none_error cfg section opt e :
  get_or_none cfg section opt = Error e ↔
  get cfg section opt = Error e ∧ e ≠ NoOptionError.
Proof.
  unfold get_or_none.
  destruct (get cfg section opt) as [v0|[]]; split;
    try (intros [= <-]; done); intros [[=] ?]; subst; done.
Qed.

(** X17.  When [login_from_config] sends a request, it goes to the login URL
    that [get_url] yields, with the username that [cfg.get] returns and
    [script=true]; a password or token is sent exactly when [cfg.get] returns
    one that is not empty, and nothing else is sent.  So a file whose password
    or token is there but empty passes the check of lines 87-91 and logs in
    without credentials. *)
Theorem login_from_config_request cfg r :
  login_from_config cfg = Done r →
  ∃ u,
    get cfg "user" "username" = Done u ∧
    ((∃ p, get cfg "user" "password" = Done p) ∨
     (∃ t, get cfg "user" "token" = Done t)) ∧
    get_url cfg "loginurl" "login" = Done (req_url r) ∧
    req_data r !! "user" = Some u ∧
    req_data r !! "script" = Some "true" ∧
    (∀ p, req_data r !! "password" = Some p ↔
          get cfg "user" "password" = Done p ∧ p ≠ EmptyString) ∧
    (∀ t, req_data r !! "token" = Some t ↔
          get cfg "user" "token" = Done t ∧ t ≠ EmptyString) ∧
    dom (req_data r) ⊆ {["user"; "script"; "password"; "token"]}.
Proof.
  unfold login_from_config.
  destruct (get cfg "user" "username") as [u|]; [|done].
  destruct (get_or_none cfg "user" "password") as [pw|] eqn:Hpw; [|done].
  destruct (get_or_none cfg "user" "token") as [tk|] eqn:Htk; [|done].
  apply get_or_none_done in Hpw as [Hpw _], Htk as [Htk _].
  destruct (get_url cfg "loginurl" "login") as [url|e] eqn:Hurl.
  2:{ by destruct pw, tk. }
  intros Hr. exists u.
  assert (r = login url u pw tk ∧ (is_Some pw ∨ is_Some tk)) as [-> Hcred].
  { destruct pw, tk; simplify_eq; eauto. }
  destruct (login_data url u pw tk) as (Hurl' & ? & ? & Hp & Ht & ?).
  rewrite Hurl'. split; [done|]. split.
  { destruct Hcred as [[p ->]|[t ->]]; [left; exists p|right; exists t];
      by (apply Hpw || apply Htk). }
  split; [done|]. split; [done|]. split; [done|].
  split; [|split; [|done]].
  - intros p. by rewrite Hp, Hpw.
  - intros t. by rewrite Ht, Htk.
Qed.

Lemma login_from_config_errors_in cfg sec e :
  cfg !! "user" = Some sec →
  let d := sec ∪ defaults cfg in
  let value := λ opt, before_get d <$> d !! opt in
  login_from_config cfg = Error e ↔
  (value "username" = None ∧ e = NoOptionError) ∨
  value "username" = Some (Error e) ∨
  (∃ u, value "username" = Some (Done u)) ∧
  (value "password" = Some (Error e) ∨
   (∀ e', value "password" ≠ Some (Error e')) ∧
   (value "token" = Some (Error e) ∨
    (∀ e', value "token" ≠ Some (Error e')) ∧
    ((value "password" = None ∧ value "token" = None ∧ e = ConfigError) ∨
     ((is_Some (value "password") ∨ is_Some (value "token")) ∧
      get_url cfg "loginurl" "login" = Error e)))).
Proof.
  destruct optionxform_literals as (_ & Hu & Hp & Ht).
  intros Hsec d value.
  assert (∀ opt,
            match value (optionxform opt) with
            | None => get_or_none cfg "user" opt = Done None
            | Some (Done v) => get_or_none cfg "user" opt = Done (Some v)
            | Some (Error e') => get_or_none cfg "user" opt = Error e'
            end) as Hget.
  { intros opt. unfold value, get_or_none.
    rewrite (get_seen _ "user" _ _ eq_refl Hsec). fold d.
    destruct (d !! optionxform opt) as [raw|]; simpl; [|done].
    destruct (before_get d raw) as [v|e'] eqn:Hb; [done|].
    apply before_get_errors in Hb. by destruct e'. }
  pose proof (Hget "password") as Hpw. pose proof (Hget "token") as Htk.
  rewrite Hp in Hpw. rewrite Ht in Htk.
  assert (get cfg "user" "username" =
          match value "username" with
          | None => Error NoOptionError
          | Some r => r
          end) as Hun.
  { unfold value. rewrite (get_seen _ "user" _ _ eq_refl Hsec), Hu. fold d.
    by destruct (d !! "username"). }
  unfold login_from_config. rewrite Hun. clear Hun Hget.
  destruct (value "username") as [[u|eu]|];
    destruct (value "password") as [[p|ep]|]; rewrite ?Hpw;
    destruct (value "token") as [[t|et]|]; rewrite ?Htk;
    destruct (get_url cfg "loginurl" "login") as [url|eurl];
    clear; naive_solver.
Qed.

(** X18.  How [login_from_config] fails before it sends a request, in this
    order: with [NoSectionError] when there is no section [user]; with
    [NoOptionError] when no username is set; with the [InterpolationError]
    of the first of username, password and token whose value does not
    interpolate (a password such as [100%sure], say, even when there is a
    token); with [ConfigError] when neither password nor token is set; and
    otherwise only as [get_url] does for the login URL.  The credentials are
    checked before the URL is looked up. *)
Theorem login_from_config_errors cfg e :
  login_from_config cfg = Error e ↔
  (cfg !! "user" = None ∧ e = NoSectionError) ∨
  ∃ sec,
    cfg !! "user" = Some sec ∧
    let d := sec ∪ defaults cfg in
    let value := λ opt, before_get d <$> d !! opt in
    (value "username" = None ∧ e = NoOptionError) ∨
    value "username" = Some (Error e) ∨
    (∃ u, value "username" = Some (Done u)) ∧
    (value "password" = Some (Error e) ∨
     (∀ e', value "password" ≠ Some (Error e')) ∧
     (value "token" = Some (Error e) ∨
      (∀ e', value "token" ≠ Some (Error e')) ∧
      ((value "password" = None ∧ value "token" = None ∧ e = ConfigError) ∨
       ((is_Some (value "password") ∨ is_Some (value "token")) ∧
        get_url cfg "loginurl" "login" = Error e)))).
Proof.
  destruct (cfg !! "user") as [sec|] eqn:Hsec.
  - pose proof (login_from_config_errors_in cfg sec e Hsec) as H.
    cbv zeta in H |- *. rewrite H. split.
    + intros H'. right. by exists sec.
    + intros [[[=] _]|(sec' & [= <-] & H')]. done.
  - unfold login_from_config. rewrite (get_no_section _ "user") by done. split.
    + intros [= <-]. by left.
    + intros [[_ ->]|(sec & [=] & _)]. done.
Qed.

Lemma setting_read cfg file section opt :
  setting (Some (read cfg file)) section opt =
  setting file section opt ∪ setting (Some cfg) section opt.
Proof.
  unfold setting, read. destruct file as [t|]; simpl.
  2:{ destruct (cfg !! section) as [old|]; simpl; [|done].
      by destruct (old !! opt). }
  rewrite lookup_union_with.
  destruct (t !! section) as [new|], (cfg !! section) as [old|]; simpl;
    try done.
  - rewrite lookup_union. by destruct (new !! opt), (old !! opt).
  - by destruct (new !! opt).
  - by destruct (old !! opt).
Qed.

(** X19.  [get_config] fails, with [ConfigError], exactly when neither the
    file of the home directory nor the one beside the script is there: the
    system-wide file alone is not enough.  Otherwise every option has the
    value of the file beside the script if that gives one, else that of the
    home directory, else that of the system-wide file. *)
Theorem get_config_precedence system home script :
  (get_config system home script = Error ConfigError ↔
   home = None ∧ script = None) ∧
  ∀ cfg, get_config system home script = Done cfg →
         ∀ section opt,
           setting (Some cfg) section opt =
           setting script section opt ∪ setting home section opt ∪
           setting system section opt.
Proof.
  unfold get_config. split.
  - destruct home, script; split; try done; intros [? ?]; done.
  - intros cfg Hcfg section opt.
    assert (cfg = read (read (read ∅ system) home) script) as ->.
    { destruct home, script; simplify_eq; done. }
    rewrite !setting_read.
    assert (setting (Some ∅) section opt = None) as ->.
    { unfold setting. simpl. by rewrite lookup_empty. }
    destruct (setting script section opt), (setting home section opt),
      (setting system section opt); done.
Qed.

End LoginFacts.

Lemma get_url_cases_witness :
  let sec : gmap string string :=
    {[ "hostname" := "open.kattis.com";
       "loginurl" := "https://%(HostName)s/login?x=50%%" ]} in
  let d := sec ∪ Login.defaults Sample.kattisrc_percent in
  Login.get_url Sample.kattisrc_percent "LOGINURL" "login" =
    Login.Done "https://open.kattis.com/login?x=50%" ∧
  ((∃ raw, d !! Login.optionxform "LOGINURL" = Some raw ∧
           Login.before_get d raw =
             Login.Done "https://open.kattis.com/login?x=50%") ∨
   (d !! Login.optionxform "LOGINURL" = None ∧
    ∃ raw h, d !! "hostname" = Some raw ∧
             Login.before_get d raw = Login.Done h ∧
             "https://open.kattis.com/login?x=50%" =
               "https://" +:+ h +:+ "/" +:+ "login")).
Proof.
  intros sec d.
  assert (Sample.kattisrc_percent !! "kattis" = Some sec) as Hk
    by (vm_compute; reflexivity).
  assert (Login.get_url Sample.kattisrc_percent "LOGINURL" "login" =
          Login.Done "https://open.kattis.com/login?x=50%") as Hget
    by (vm_compute; reflexivity).
  split; [exact Hget|].
  exact (proj1 (proj1 (proj2 (proj1 (proj2
           (get_url_cases Sample.kattisrc_percent "LOGINURL" "login"))
           sec Hk)) _) Hget).
Defined.

Lemma login_from_config_request_witness :
  ∃ u,
    Login.get Sample.kattisrc "user" "username" = Login.Done u ∧
    ((∃ p, Login.get Sample.kattisrc "user" "password" = Login.Done p) ∨
     (∃ t, Login.get Sample.kattisrc "user" "token" = Login.Done t)) ∧
    Login.get_url Sample.kattisrc "loginurl" "login" =
      Login.Done "https://open.kattis.com/login" ∧
    ({[ "script" := "true"; "user" := "alice" ]} : gmap string string)
      !! "user" = Some u ∧
    ({[ "script" := "true"; "user" := "alice" ]} : gmap string string)
      !! "script" = Some "true" ∧
    (∀ p, ({[ "script" := "true"; "user" := "alice" ]} : gmap string string)
            !! "password" = Some p ↔
          Login.get Sample.kattisrc "user" "password" = Login.Done p ∧
          p ≠ EmptyString) ∧
    (∀ t, ({[ "script" := "true"; "user" := "alice" ]} : gmap string string)
            !! "token" = Some t ↔
          Login.get Sample.kattisrc "user" "token" = Login.Done t ∧
          t ≠ EmptyString) ∧
    dom ({[ "script" := "true"; "user" := "alice" ]} : gmap string string) ⊆
      {["user"; "script"; "password"; "token"]}.
Proof.
  assert (Login.login_from_config Sample.kattisrc =
          Login.Done (Login.mkRequest "https://open.kattis.com/login"
                        {[ "script" := "true"; "user" := "alice" ]})) as H
    by (vm_compute; reflexivity).
  exact (login_from_config_request Sample.kattisrc _ H).
Defined.

Lemma login_from_config_errors_witness :
  let cfg := Sample.kattisrc_percent in
  let e := Login.InterpolationSyntaxError in
  Login.login_from_config cfg = Login.Error e ∧
  ((cfg !! "user" = None ∧ e = Login.NoSectionError) ∨
   ∃ sec,
     cfg !! "user" = Some sec ∧
     let d := sec ∪ Login.defaults cfg in
     let value := λ opt, Login.before_get d <$> d !! opt in
     (value "username" = None ∧ e = Login.NoOptionError) ∨
     value "username" = Some (Login.Error e) ∨
     (∃ u, value "username" = Some (Login.Done u)) ∧
     (value "password" = Some (Login.Error e) ∨
      (∀ e', value "password" ≠ Some (Login.Error e')) ∧
      (value "token" = Some (Login.Error e) ∨
       (∀ e', value "token" ≠ Some (Login.Error e')) ∧
       ((value "password" = None ∧ value "token" = None ∧
         e = Login.ConfigError) ∨
        ((is_Some (value "password") ∨ is_Some (value "token")) ∧
         Login.get_url cfg "loginurl" "login" = Login.Error e))))).
Proof.
  intros cfg e.
  assert (Login.login_from_config cfg = Login.Error e) as H
    by (vm_compute; reflexivity).
  split; [exact H|].
  exact (proj1 (login_from_config_errors cfg e) H).
Defined.

(** ** The command line *)

(** X20.  The letter given with [-q] selects the column by its place in the
    alphabet, counted from 0, in upper or lower case alike; only the first
    character counts. *)
Theorem question_of_letter k rest :
  (k < 26)%N →
  question_of (String (ascii_of_N (65 + k)) rest) = Ok (Z.of_N k) ∧
  question_of (String (ascii_of_N (97 + k)) rest) = Ok (Z.of_N k).
Proof.
  intros Hk. rewrite <- (N2Nat.id k).
  assert (N.to_nat k < 26)%nat as Hn by lia.
  generalize dependent (N.to_nat k). clear. intros n Hn.
  do 26 (destruct n as [|n]; [split; reflexivity|]). lia.
Qed.

Lemma question_of_letter_witness :
  question_of "C" = Ok 2%Z ∧ question_of "c" = Ok 2%Z.
Proof. apply (question_of_letter 2 EmptyString). reflexivity. Defined.

Section LinkFacts.

Abbreviation no_newline a := (GetFile.has_char "010" a = false).

Lemma in_rests_lit w : ∀ s r, In r (Re.rests (Re.lit w) s) ↔ s = w +:+ r.
Proof.
  induction w as [|c w IH]; intros s r; simpl.
  { split; [by intros [->|[]]|intros ->; by left]. }
  destruct s as [|c' s]; simpl; [by split|].
  destruct (Ascii.eqb_spec c c') as [->|Hne]; simpl.
  - rewrite app_nil_r, IH. split; [by intros ->|by intros [= ->]].
  - split; [done|]. by intros [= ? _].
Qed.

Lemma in_any_rests s : ∀ r,
  In r (Re.any_rests s) ↔ ∃ a, s = a +:+ r ∧ no_newline a.
Proof.
  induction s as [|c s IH]; intros r; simpl.
  { split.
    - intros [<-|[]]. by exists EmptyString.
    - intros ([|c a] & Heq & _); [left; by rewrite Heq|done]. }
  destruct (Ascii.eqb_spec c "010") as [->|Hne].
  - split.
    + intros [<-|[]]. by exists EmptyString.
    + intros ([|c a] & Heq & Ha); [left; by rewrite Heq|].
      injection Heq as <- _. simpl in Ha. done.
  - rewrite in_app_iff, IH. split.
    + intros [(a & -> & Ha)|[<-|[]]].
      * exists (String c a). split; [done|]. simpl.
        by destruct (Ascii.eqb_spec c "010").
      * by exists EmptyString.
    + intros ([|c' a] & Heq & Ha).
      * right. left. by rewrite Heq.
      * injection Heq as <- ->. left. exists a. split; [done|].
        simpl in Ha. by apply orb_false_elim in Ha as [_ ?].
Qed.

Lemma no_newline_app a b :
  no_newline a → no_newline b → no_newline (a +:+ b).
Proof.
  induction a as [|c a IH]; simpl; [done|].
  intros [Hc Ha]%orb_false_elim Hb. by rewrite Hc, IH.
Qed.

Lemma matches_iff r s : Re.matches r s = true ↔ ∃ x, In x (Re.rests r s).
Proof.
  unfold Re.matches. destruct (Re.rests r s) as [|x l].
  - split; [done|]. by intros [x []].
  - split; [|done]. intros _. exists x. by left.
Qed.

Let scheme : Re.re :=
  Re.Cat (Re.lit "http") (Re.Cat (Re.Opt (Re.Chr "s")) (Re.lit "://")).

Let link_re (w : string) : Re.re :=
  Re.Cat (Re.Opt scheme)
    (Re.Cat Re.AnyStar
       (Re.Cat (Re.lit ".kattis.com/")
          (Re.Cat Re.AnyStar (Re.Cat (Re.lit w) (Re.Opt (Re.Chr "/")))))).

Lemma in_rests_chr c s r : In r (Re.rests (Re.Chr c) s) ↔ s = String c r.
Proof.
  simpl. destruct s as [|c' s]; [by split|].
  destruct (Ascii.eqb_spec c c') as [->|Hne].
  - split; [by intros [->|[]]|intros [= ->]; by left].
  - split; [done|]. by intros [= ? _].
Qed.

Lemma in_rests_opt a s r :
  In r (Re.rests (Re.Opt a) s) ↔ In r (Re.rests a s) ∨ r = s.
Proof.
  simpl. rewrite in_app_iff. split; intros [?|H]; auto.
  - destruct H as [<-|[]]. by right.
  - right. left. done.
Qed.

Lemma in_rests_cat a b s r :
  In r (Re.rests (Re.Cat a b) s) ↔
  ∃ m, In m (Re.rests a s) ∧ In r (Re.rests b m).
Proof. simpl. apply in_flat_map. Qed.

Lemma in_rests_scheme s r :
  In r (Re.rests (Re.Opt scheme) s) → ∃ a, s = a +:+ r ∧ no_newline a.
Proof.
  intros [Hin| ->]%in_rests_opt; [|by exists EmptyString].
  unfold scheme in Hin.
  apply in_rests_cat in Hin as (r1 & ->%in_rests_lit & Hin).
  apply in_rests_cat in Hin as (r2 & H2%in_rests_opt & ->%in_rests_lit).
  destruct H2 as [->%in_rests_chr| <-].
  - by exists "https://".
  - by exists "http://".
Qed.

Lemma link_re_matches w link :
  Re.matches (link_re w) link = true ↔
  ∃ a b c, link = a +:+ ".kattis.com/" +:+ b +:+ w +:+ c ∧
           no_newline a ∧ no_newline b.
Proof.
  rewrite matches_iff. unfold link_re. split.
  - intros (x & Hx). cbn [Re.rests] in Hx.
    apply in_flat_map in Hx as (r0 & (a0 & -> & Ha0)%in_rests_scheme & Hx).
    apply in_flat_map in Hx as (r1 & (a1 & -> & Ha1)%in_any_rests & Hx).
    apply in_flat_map in Hx as (r2 & ->%in_rests_lit & Hx).
    apply in_flat_map in Hx as (r3 & (b & -> & Hb)%in_any_rests & Hx).
    apply in_flat_map in Hx as (r4 & ->%in_rests_lit & _).
    exists (a0 +:+ a1), b, r4. rewrite string_app_assoc.
    split; [done|]. split; [by apply no_newline_app|done].
  - intros (a & b & c & -> & Ha & Hb). exists c. cbn [Re.rests].
    apply in_flat_map. eexists. split; [apply in_app_iff; right; by left|].
    apply in_flat_map. eexists. split; [apply in_any_rests; by exists a|].
    apply in_flat_map. eexists. split; [by apply in_rests_lit|].
    apply in_flat_map. eexists. split; [apply in_any_rests; by exists b|].
    apply in_flat_map. eexists. split; [by apply in_rests_lit|].
    apply in_app_iff. right. by left.
Qed.

(** X21.  A link passes as a problems link (as a standings link) exactly
    when it holds [.kattis.com/] and, somewhere after it, [/problems]
    ([/standings]), with no line break before either: the scheme is not
    needed and not checked, and whatever follows the word is accepted. *)
Theorem link_patterns link :
  (Re.matches problems_re link = true ↔
   ∃ a b c, link = a +:+ ".kattis.com/" +:+ b +:+ "/problems" +:+ c ∧
            no_newline a ∧ no_newline b) ∧
  (Re.matches standings_re link = true ↔
   ∃ a b c, link = a +:+ ".kattis.com/" +:+ b +:+ "/standings" +:+ c ∧
            no_newline a ∧ no_newline b).
Proof.
  split.
  - apply (link_re_matches "/problems").
  - apply (link_re_matches "/standings").
Qed.

End LinkFacts.

Section PathFacts.

Lemma upto_last_slash_none leaf :
  GetFile.has_char "/" leaf = false → Posix.upto_last_slash leaf = EmptyString.
Proof.
  induction leaf as [|c leaf IH]; simpl; [done|].
  intros [Hc Hl]%orb_false_elim. by rewrite (IH Hl), Hc.
Qed.

Lemma upto_last_slash_app base leaf :
  GetFile.has_char "/" leaf = false →
  Posix.upto_last_slash (base +:+ String "/" leaf) = base +:+ "/".
Proof.
  intros Hl. induction base as [|c base IH]; simpl.
  - by rewrite (upto_last_slash_none _ Hl).
  - rewrite IH. by destruct base.
Qed.

Lemma all_slashes_app base :
  base ≠ EmptyString → Py.endswith_slash base = false →
  Posix.all_slashes (base +:+ "/") = false.
Proof.
  induction base as [|c base IH]; [done|]. intros _. simpl.
  destruct base as [|c' base].
  - intros ->. done.
  - intros Hb. rewrite IH by done. apply andb_false_r.
Qed.

Lemma rstrip_slashes_app base :
  base ≠ EmptyString → Py.endswith_slash base = false →
  Posix.rstrip_slashes (base +:+ "/") = base.
Proof.
  induction base as [|c base IH]; [done|]. intros _. simpl.
  destruct base as [|c' base].
  - intros ->. done.
  - intros Hb. by rewrite IH.
Qed.

(** [dirname] takes off the last component and the slash before it. *)
Lemma dirname_app base leaf :
  base ≠ EmptyString → Py.endswith_slash base = false →
  GetFile.has_char "/" leaf = false →
  Posix.dirname (base +:+ String "/" leaf) = base.
Proof.
  intros Hne Hend Hl. unfold Posix.dirname.
  rewrite upto_last_slash_app by done.
  rewrite all_slashes_app by done.
  destruct (String.eqb_spec (base +:+ "/") EmptyString) as [He|_].
  { by destruct base. }
  by apply rstrip_slashes_app.
Qed.

(** X22.  For a link that passes as a problems link, the script goes on
    with the link whose last component, the text after the last slash, is
    replaced by [standings].  That component is [problems] for a link ending
    in [/problems]; for one ending in [/problems/] it is empty, and the link
    becomes [.../problems/standings]. *)
Theorem standings_link_of_problems base leaf :
  Re.matches problems_re (base +:+ String "/" leaf) = true →
  base ≠ EmptyString → Py.endswith_slash base = false →
  GetFile.has_char "/" leaf = false →
  standings_link (base +:+ String "/" leaf) = Some (base +:+ "/standings").
Proof.
  intros Hm Hne Hend Hl. unfold standings_link. rewrite Hm.
  rewrite dirname_app by done. unfold Py.path_join. simpl.
  destruct (String.eqb_spec base EmptyString) as [?|_]; [done|].
  by rewrite Hend.
Qed.

Lemma standings_link_of_problems_witness :
  standings_link
    ("https://open.kattis.com/contests/abc/problems" +:+ String "/" "") =
  Some ("https://open.kattis.com/contests/abc/problems" +:+ "/standings").
Proof.
  apply (standings_link_of_problems
           "https://open.kattis.com/contests/abc/problems" "");
    [vm_compute; reflexivity|discriminate|reflexivity|reflexivity].
Defined.

End PathFacts.

Section ProblemFacts.

Lemma norm_fold initial l : ∀ acc,
  Forall (λ s, s ≠ "..") l →
  fold_left (Posix.norm_step initial) l acc =
  acc ++ filter (λ s, s ≠ EmptyString ∧ s ≠ ".") l.
Proof.
  induction l as [|s l IH]; intros acc Hl; simpl.
  { by rewrite app_nil_r. }
  apply Forall_cons in Hl as [Hs Hl]. rewrite IH by done.
  rewrite filter_cons. unfold Posix.norm_step.
  destruct (decide (s ≠ EmptyString ∧ s ≠ ".")) as [[He Hd]|Hn].
  - apply String.eqb_neq in He, Hd, Hs. rewrite He, Hd, Hs. simpl.
    by rewrite <- app_assoc.
  - destruct (String.eqb_spec s EmptyString); [done|].
    destruct (String.eqb_spec s "."); [done|]. tauto.
Qed.

Lemma join_snoc sep init c :
  init ≠ [] → Py.join sep (init ++ [c]) = Py.join sep init +:+ sep +:+ c.
Proof.
  induction init as [|x init IH]; [done|]. intros _.
  destruct init as [|y init]; [done|].
  change (Py.join sep ((x :: y :: init) ++ [c]))
    with (x +:+ sep +:+ Py.join sep ((y :: init) ++ [c])).
  rewrite IH by done.
  change (Py.join sep (x :: y :: init))
    with (x +:+ sep +:+ Py.join sep (y :: init)).
  by rewrite !string_app_assoc.
Qed.

Lemma has_char_app_slash pre c :
  GetFile.has_char "/" (pre +:+ String "/" c) = true.
Proof. induction pre as [|x pre IH]; simpl; [done|]. by rewrite IH, orb_true_r. Qed.

Lemma after_last_slash_app pre c :
  GetFile.has_char "/" c = false →
  Posix.after_last_slash (pre +:+ String "/" c) = c.
Proof.
  intros Hc. induction pre as [|x pre IH]; simpl.
  - by rewrite Hc.
  - by rewrite has_char_app_slash.
Qed.

(** X23.  The problem name taken from the link of the column header is the
    last component of the link's path that is neither empty nor a dot (the
    path being absolute and without [..]): slashes at the end or doubled, and
    [.] components, make no difference. *)
Theorem problem_of_path raw c :
  Forall (λ s, GetFile.has_char "/" s = false) raw →
  Forall (λ s, s ≠ "..") raw →
  last (filter (λ s, s ≠ EmptyString ∧ s ≠ ".") raw) = Some c →
  problem_of ("/" +:+ Py.join "/" raw) = c.
Proof.
  intros Hslash Hdots Hlast.
  assert (raw ≠ []) as Hraw by (by intros ->).
  assert (GetFile.has_char "/" c = false) as Hc.
  { apply last_Some in Hlast as [init Hinit].
    assert (c ∈ raw) as Hin.
    { apply (list_elem_of_filter (λ s, s ≠ EmptyString ∧ s ≠ ".")).
      rewrite Hinit. apply elem_of_app. right. by left. }
    rewrite Forall_forall in Hslash. by apply Hslash. }
  assert (Py.split_on "/" ("/" +:+ Py.join "/" raw) = EmptyString :: raw)
    as Hsplit.
  { change ("/" +:+ ?x) with (EmptyString +:+ String "/" x).
    rewrite split_on_prefix by done. f_equal. by apply (split_on_join "/"). }
  assert (Posix.initial_slashes ("/" +:+ Py.join "/" raw) = 1%nat ∨
          Posix.initial_slashes ("/" +:+ Py.join "/" raw) = 2%nat) as Hi.
  { change ("/" +:+ ?x) with (String "/" x). unfold Posix.initial_slashes.
    destruct (Py.join "/" raw) as [|x [|y s]]; auto;
      destruct x as [[] [] [] [] [] [] [] []]; auto;
      destruct y as [[] [] [] [] [] [] [] []]; auto. }
  unfold problem_of, Posix.normpath, Posix.basename.
  change (String.eqb ("/" +:+ Py.join "/" raw) EmptyString) with false.
  cbv iota. rewrite Hsplit.
  rewrite norm_fold by (constructor; done).
  rewrite filter_cons. destruct (decide _) as [[? _]|_]; [done|].
  rewrite app_nil_l.
  apply last_Some in Hlast as [init Hinit]. rewrite Hinit.
  assert (∃ pre,
            Nat.iter (Posix.initial_slashes ("/" +:+ Py.join "/" raw))
              (String "/") (Py.join "/" (init ++ [c])) =
            pre +:+ String "/" c) as [pre ->].
  { destruct Hi as [-> | ->]; destruct init as [|i0 init];
      unfold Nat.iter; cbn [nat_rect].
    - by exists EmptyString.
    - rewrite join_snoc by done.
      by exists (String "/" (Py.join "/" (i0 :: init))).
    - by exists "/".
    - rewrite join_snoc by done.
      by exists (String "/" (String "/" (Py.join "/" (i0 :: init)))). }
  destruct (String.eqb_spec (pre +:+ String "/" c) EmptyString) as [He|_].
  { by destruct pre. }
  by apply after_last_slash_app.
Qed.

Lemma problem_of_path_witness :
  problem_of ("/" +:+ Py.join "/" ["problems"; "."; "hello"; ""; ""]) = "hello".
Proof.
  apply (problem_of_path ["problems"; "."; "hello"; ""; ""] "hello").
  - repeat constructor.
  - repeat constructor; discriminate.
  - vm_compute; reflexivity.
Defined.

End ProblemFacts.

Lemma window_is_closed_witness :
  let r := Sample.sub (Some "dave") "40" "2024-01-05 12:00:00"
             false false false in
  Scan.scan_row Sample.today Sample.start_time Sample.end_time Sample.roster
    scan_init r = Next (mkScan ∅ ∅ ∅ ∅ (Some "dave")) ∧
  late_submission (mkScan ∅ ∅ ∅ ∅ (Some "dave")) = late_submission scan_init.
Proof.
  intros r.
  assert (Scan.scan_row Sample.today Sample.start_time Sample.end_time
            Sample.roster scan_init r = Next (mkScan ∅ ∅ ∅ ∅ (Some "dave")))
    as Hrow by (vm_compute; reflexivity).
  split; [exact Hrow|].
  apply (proj2 (window_is_closed Sample.today Sample.start_time
                  Sample.end_time Sample.roster scan_init r));
    [vm_compute; reflexivity|exact Hrow].
Defined.

Lemma get_config_precedence_witness :
  let system : Login.config := {[ "kattis" := {[ "hostname" := "a.example" ]} ]} in
  let home : Login.config :=
    {[ "kattis" := {[ "hostname" := "b.example" ]};
       "user" := {[ "username" := "alice" ]} ]} in
  let cfg : Login.config :=
    {[ "kattis" := {[ "hostname" := "b.example" ]};
       "user" := {[ "username" := "alice" ]} ]} in
  Login.get_config (Some system) (Some home) None = Login.Done cfg ∧
  ∀ section opt,
    setting (Some cfg) section opt =
    setting None section opt ∪ setting (Some home) section opt ∪
    setting (Some system) section opt.
Proof.
  intros system home cfg.
  assert (Login.get_config (Some system) (Some home) None = Login.Done cfg)
    as H by (vm_compute; reflexivity).
  split; [exact H|].
  exact (proj2 (get_config_precedence (Some system) (Some home) None) cfg H).
Defined.
